(** * libbvg: Elias-Fano offset index and graph descriptor routines

    A shallow embedding of [src/eflist.c] and of the load, close, sizing and
    error-string routines of [src/bvgraph.c], followed by the properties
    established about them.

    Conventions.
    - C integers are values of [Z]; conversions between widths and
      signedness are written out with [wrap64], [sext64] and [sext32].
    - Dynamically allocated arrays live in an explicit [heap]; a pointer is
      a block identifier ([0] is [NULL]).  Reading outside a block, reading
      a cell that was never written, and using a released block have no
      defined meaning in C and make the computation return [None].
    - A C function that updates a [struct] through a pointer takes the
      record and returns the updated record. *)

From Stdlib Require Import ZArith Lia Bool List String.
From stdpp Require Import base option list zmap.
Local Open Scope Z_scope.

(** ** Machine integers *)

Module CInt.
Definition two31 : Z := Eval cbv in 2 ^ 31.
Definition two32 : Z := Eval cbv in 2 ^ 32.
Definition two63 : Z := Eval cbv in 2 ^ 63.
Definition two64 : Z := Eval cbv in 2 ^ 64.
(** Conversion to [uint64_t]: a value the type can hold is unchanged,
    any other is reduced modulo [2^64]. *)
Definition wrap64 (z : Z) : Z :=
  if (0 <=? z) && (z <? two64) then z else z mod two64.
(** Conversion to [int64_t], two's complement. *)
Definition sext64 (z : Z) : Z :=
  if (- two63 <=? z) && (z <? two63) then z else (z + two63) mod two64 - two63.
(** Conversion to [int], two's complement. *)
Definition sext32 (z : Z) : Z :=
  if (- two31 <=? z) && (z <? two31) then z else (z + two31) mod two32 - two31.
(** [x << n] on a 64-bit operand, result read as unsigned.  C defines it
    for [0 <= n < 64]; at [n = 64] the model yields the truncated
    mathematical value [0]. *)
Definition lsl64 (x n : Z) : Z := wrap64 (Z.shiftl x n).
(** [(int)log2(q)] for a positive integer [q]: the source goes through
    [double]; the integer logarithm is the value it produces for every
    [q] below [2^48]. *)
Definition ilog2 (q : Z) : Z := Z.log2 q.
End CInt.
Import CInt.

(** ** Error codes and constants of eflist.c *)

Definition eflist_out_of_bound : Z := -1.
Definition eflist_spill_too_small : Z := -2.
Definition eflist_batch_nondecreasing : Z := -3.

Definition m1 : Z := 0x5555555555555555.
Definition m2 : Z := 0x3333333333333333.
Definition m4 : Z := 0x0f0f0f0f0f0f0f0f.
Definition m8 : Z := 0x00ff00ff00ff00ff.
Definition m16 : Z := 0x0000ffff0000ffff.
Definition m32 : Z := 0x00000000ffffffff.

Definition MAX_ONES_PER_INVENTORY : Z := 8192.
Definition MAX_SPAN : Z := Z.shiftl 1 16.
Definition DEFAULT_SPILL_SIZE : Z := 10 * 8192.

(** ** The heap *)

Record block := Block { blk_len : Z; blk_cells : Zmap Z }.
Record heap := Heap { hp_blocks : Zmap block; hp_next : Z }.

Definition heap_empty : heap := Heap ∅ 1.

(** Computations over the heap that may be undefined. *)
Definition M (T : Type) : Type := heap -> option (T * heap).

Definition ret {T} (x : T) : M T := fun h => Some (x, h).
Definition undef {T} : M T := fun _ => None.
Definition bind {T U} (c : M T) (k : T -> M U) : M U :=
  fun h => match c h with
           | Some (x, h') => k x h'
           | None => None
           end.

Notation "'do' x <- c ; k" := (bind c (fun x => k))
  (at level 10, x name, c at level 100, k at level 200, format
   "'[v' 'do'  x  <-  c ; '/' k ']'").
Notation "'do' ' p <- c ; k" := (bind c (fun x => let 'p := x in k))
  (at level 10, p pattern, c at level 100, k at level 200, only parsing).

(** [malloc] of [n] elements: a fresh block whose cells are indeterminate. *)
Definition malloc (n : Z) : M Z :=
  fun h => Some (hp_next h,
                 Heap (<[hp_next h := Block n ∅]> (hp_blocks h)) (hp_next h + 1)).

(** [free]: releasing [NULL] does nothing; releasing anything that is not a
    live block is undefined. *)
Definition free (p : Z) : M unit :=
  fun h => if p =? 0 then Some (tt, h)
           else match hp_blocks h !! p with
                | Some _ => Some (tt, Heap (delete p (hp_blocks h)) (hp_next h))
                | None => None
                end.

Definition in_block (b : block) (k : Z) : bool := (0 <=? k) && (k <? blk_len b).

(** [p[k]] as an rvalue. *)
Definition aget (p k : Z) : M Z :=
  fun h => match hp_blocks h !! p with
           | Some b => if in_block b k
                       then match blk_cells b !! k with
                            | Some v => Some (v, h)
                            | None => None
                            end
                       else None
           | None => None
           end.

(** [p[k] = v]. *)
Definition aset (p k v : Z) : M unit :=
  fun h => match hp_blocks h !! p with
           | Some b => if in_block b k
                       then Some (tt, Heap (<[p := Block (blk_len b) (<[k := v]> (blk_cells b))]>
                                              (hp_blocks h)) (hp_next h))
                       else None
           | None => None
           end.

Fixpoint zero_cells (n : nat) (c : Zmap Z) : Zmap Z :=
  match n with
  | O => c
  | S n' => zero_cells n' (<[Z.of_nat n' := 0]> c)
  end.

(** [memset(p, 0, n * sizeof(element))] on a block of at least [n] elements. *)
Definition memset0 (p n : Z) : M unit :=
  fun h => match hp_blocks h !! p with
           | Some b => if n <=? blk_len b
                       then Some (tt, Heap (<[p := Block (blk_len b)
                                                     (zero_cells (Z.to_nat n) (blk_cells b))]>
                                              (hp_blocks h)) (hp_next h))
                       else None
           | None => None
           end.

(** Number of elements of the block behind [p]; only used to bound loops
    whose exit the source leaves to the data. *)
Definition block_len (p : Z) : M Z :=
  fun h => match hp_blocks h !! p with
           | Some b => Some (blk_len b, h)
           | None => None
           end.

(** [for (i = i0; i < i0 + n; i++) st = body(i, st)]. *)
Fixpoint for_range {St} (n : nat) (i : Z) (body : Z -> St -> M St) (st : St) : M St :=
  match n with
  | O => ret st
  | S n' => do st' <- body i st; for_range n' (i + 1) body st'
  end.

(** ** Data structures of eflist.h

    The header is not part of the sources at hand; the fields are the ones
    eflist.c reads and writes.  Field names carry a prefix because the two
    structures both have a field [s]. *)

Record bit_array := BitArray {
  ba_A : Z;        (* uint64_t *A *)
  ba_s : Z;        (* bits per element, -1 for single bits *)
  ba_curr : Z
}.

Record elias_fano_list := EFList {
  ef_size : Z;
  ef_s : Z;
  ef_bitarraylen : Z;
  ef_lower : bit_array;
  ef_upper : bit_array;
  ef_num_ones : Z;
  ef_log2_ones_per_inventory : Z;
  ef_ones_per_inventory : Z;
  ef_ones_per_inventory_mask : Z;
  ef_inventory_size : Z;
  ef_inventory : Z;      (* int64_t *inventory *)
  ef_spill_size : Z;
  ef_exact_spill : Z     (* int64_t *exact_spill *)
}.

Definition bit_array_zero : bit_array := BitArray 0 0 0.

(** The structure after [memset(ef, 0, sizeof(elias_fano_list))]. *)
Definition ef_zero : elias_fano_list :=
  EFList 0 0 0 bit_array_zero bit_array_zero 0 0 0 0 0 0 0 0.

Definition set_curr (b : bit_array) (c : Z) : bit_array :=
  BitArray (ba_A b) (ba_s b) c.

Definition set_lower (ef : elias_fano_list) (b : bit_array) : elias_fano_list :=
  EFList (ef_size ef) (ef_s ef) (ef_bitarraylen ef) b (ef_upper ef) (ef_num_ones ef)
    (ef_log2_ones_per_inventory ef) (ef_ones_per_inventory ef)
    (ef_ones_per_inventory_mask ef) (ef_inventory_size ef) (ef_inventory ef)
    (ef_spill_size ef) (ef_exact_spill ef).

Definition set_upper (ef : elias_fano_list) (b : bit_array) : elias_fano_list :=
  EFList (ef_size ef) (ef_s ef) (ef_bitarraylen ef) (ef_lower ef) b (ef_num_ones ef)
    (ef_log2_ones_per_inventory ef) (ef_ones_per_inventory ef)
    (ef_ones_per_inventory_mask ef) (ef_inventory_size ef) (ef_inventory ef)
    (ef_spill_size ef) (ef_exact_spill ef).

(** The fields [simple_select_build] assigns before its first loop. *)
Definition set_select (ef : elias_fano_list) (num_ones l2 opi mask isz inv : Z)
  : elias_fano_list :=
  EFList (ef_size ef) (ef_s ef) (ef_bitarraylen ef) (ef_lower ef) (ef_upper ef) num_ones
    l2 opi mask isz inv (ef_spill_size ef) (ef_exact_spill ef).

Definition set_spill (ef : elias_fano_list) (sz p : Z) : elias_fano_list :=
  EFList (ef_size ef) (ef_s ef) (ef_bitarraylen ef) (ef_lower ef) (ef_upper ef)
    (ef_num_ones ef) (ef_log2_ones_per_inventory ef) (ef_ones_per_inventory ef)
    (ef_ones_per_inventory_mask ef) (ef_inventory_size ef) (ef_inventory ef) sz p.

(** ** Bit operations of eflist.c *)

(** [get_bitk]: bit [k] of the word array [upper]. *)
Definition get_bitk (upper k : Z) : M Z :=
  let index := Z.shiftr k 6 in
  let offset := Z.land k (Z.shiftl 1 6 - 1) in
  do w <- aget upper index;
  let tmp := Z.land w (lsl64 1 offset) in
  ret (if tmp =? 0 then 0 else 1).

(** One line of [bit_count]: the operands are converted to [uint64_t], the
    shift acts on the signed value, and the sum is stored back into the
    [int64_t] variable. *)
Definition bit_count_round (k m x : Z) : Z :=
  sext64 (wrap64 (Z.land (wrap64 x) m + Z.land (wrap64 (Z.shiftr x k)) m)).

Definition bit_count (x : Z) : Z :=
  let x := bit_count_round 1 m1 x in
  let x := bit_count_round 2 m2 x in
  let x := bit_count_round 4 m4 x in
  let x := bit_count_round 8 m8 x in
  let x := bit_count_round 16 m16 x in
  let x := bit_count_round 32 m32 x in
  sext32 x.

(** [assert(c)]: a failed assertion aborts the program. *)
Definition c_assert (c : bool) : M unit := if c then ret tt else undef.

Definition bit_array_setbit (ptr : bit_array) (k : Z) : M Z :=
  do _ <- c_assert (ba_s ptr <? 0);
  let index := Z.shiftr k 6 in
  let offset := Z.land k (Z.shiftl 1 6 - 1) in
  do w <- aget (ba_A ptr) index;
  do _ <- aset (ba_A ptr) index (Z.lor w (lsl64 1 offset));
  ret 0.

Definition bit_array_insert (ptr : bit_array) (num k : Z) : M Z :=
  if ba_s ptr =? 0 then ret 0
  else
    do _ <- c_assert (0 <? ba_s ptr);
    let index := Z.quot (k * ba_s ptr) 64 in
    let offset := Z.rem (k * ba_s ptr) 64 in
    if offset + ba_s ptr <=? 64 then
      let tmp := lsl64 num (64 - offset - ba_s ptr) in
      do w <- aget (ba_A ptr) index;
      do _ <- aset (ba_A ptr) index (Z.lor w tmp);
      ret 0
    else
      let diff := offset + ba_s ptr - 64 in
      let tmp := num in
      do w <- aget (ba_A ptr) index;
      do _ <- aset (ba_A ptr) index (Z.lor w (Z.shiftr tmp diff));
      do w' <- aget (ba_A ptr) (index + 1);
      do _ <- aset (ba_A ptr) (index + 1) (Z.lor w' (lsl64 tmp (64 - diff)));
      ret 0.

Definition bit_array_get (ptr : bit_array) (k : Z) : M Z :=
  if ba_s ptr =? 0 then ret 0
  else
    let index := Z.quot (k * ba_s ptr) 64 in
    let offset := Z.rem (k * ba_s ptr) 64 in
    if offset + ba_s ptr <=? 64 then
      let mask := wrap64 (lsl64 1 (64 - offset) - 1) in
      let mask := wrap64 (mask - (lsl64 1 (64 - offset - ba_s ptr) - 1)) in
      do w <- aget (ba_A ptr) index;
      let rval := Z.land w mask in
      ret (Z.shiftr rval (64 - offset - ba_s ptr))
    else
      let diff := offset + ba_s ptr - 64 in
      let mask := wrap64 (lsl64 1 (ba_s ptr - diff) - 1) in
      do w <- aget (ba_A ptr) index;
      let rval := Z.land w mask in
      let next_mask := wrap64 (0xFFFFFFFFFFFFFFFF - (lsl64 1 (64 - diff) - 1)) in
      do w' <- aget (ba_A ptr) (index + 1);
      let next := Z.shiftr (Z.land w' next_mask) (64 - diff) in
      ret (Z.lor (lsl64 rval diff) next).

(** [bit_array_create] returns the initialised structure; [curr] is left as
    it was. *)
Definition bit_array_create (ptr : bit_array) (s size : Z) : M bit_array :=
  if s =? 0 then ret (BitArray 0 s (ba_curr ptr))
  else
    let array_len := if 0 <? s then Z.quot (s * size + 63) 64 else size in
    do a <- malloc array_len;
    do _ <- memset0 a array_len;
    ret (BitArray a s (ba_curr ptr)).

Definition bit_array_getbitk (ptr : bit_array) (k : Z) : M Z :=
  do _ <- c_assert (ba_s ptr <? 0);
  get_bitk (ba_A ptr) k.

Definition bit_array_free (ptr : bit_array) : M Z :=
  do _ <- free (ba_A ptr); ret 0.


(** ** The select structure over the upper bits *)

(** Local variables that [simple_select_build] carries through its second
    and third loops ([offset], assigned but never read, is left out). *)
Record build_locals := BuildLocals {
  bl_d : Z;
  bl_spilled : Z;
  bl_inventory_index : Z;
  bl_start : Z;
  bl_span : Z
}.

(** Body of the first loop: record the position of every
    [ones_per_inventory]-th one. *)
Definition inventory_pass_body (ef : elias_fano_list) (i d : Z) : M Z :=
  do b <- bit_array_getbitk (ef_upper ef) i;
  if b =? 1 then
    do _ <- (if Z.land d (ef_ones_per_inventory_mask ef) =? 0
             then aset (ef_inventory ef)
                       (sext32 (Z.shiftr d (ef_log2_ones_per_inventory ef))) i
             else ret tt);
    ret (d + 1)
  else ret d.

(** Body of the second loop: count the ones of the blocks that span at
    least [MAX_SPAN] bits. *)
Definition spill_count_body (ef : elias_fano_list) (i : Z) (l : build_locals)
  : M build_locals :=
  do b <- bit_array_getbitk (ef_upper ef) i;
  if b =? 1 then
    let d := bl_d l in
    if Z.land d (ef_ones_per_inventory_mask ef) =? 0 then
      let inventory_index := sext32 (Z.shiftr d (ef_log2_ones_per_inventory ef)) in
      do start <- aget (ef_inventory ef) inventory_index;
      do next <- aget (ef_inventory ef) (inventory_index + 1);
      let start := wrap64 start in
      let span := wrap64 (next - start) in
      let ones := sext32 (Z.min (ef_num_ones ef - d) (ef_ones_per_inventory ef)) in
      let spilled := if MAX_SPAN <=? span then sext32 (bl_spilled l + ones)
                     else bl_spilled l in
      ret (BuildLocals (d + 1) spilled inventory_index start span)
    else
      ret (BuildLocals (d + 1) (bl_spilled l) (bl_inventory_index l)
             (bl_start l) (bl_span l))
  else ret l.

(** Body of the third loop.  The [continue] taken when the block spans
    fewer than [MAX_SPAN] bits skips the increment of [d] at the end of the
    body. *)
Definition spill_fill_body (ef : elias_fano_list) (i : Z) (l : build_locals)
  : M build_locals :=
  do b <- bit_array_getbitk (ef_upper ef) i;
  if b =? 1 then
    let d := bl_d l in
    let first := Z.land d (ef_ones_per_inventory_mask ef) =? 0 in
    do l1 <- (if first then
                let inventory_index :=
                  sext32 (Z.shiftr d (ef_log2_ones_per_inventory ef)) in
                do start <- aget (ef_inventory ef) inventory_index;
                do next <- aget (ef_inventory ef) (inventory_index + 1);
                let start := wrap64 start in
                ret (BuildLocals d (bl_spilled l) inventory_index start
                       (wrap64 (next - start)))
              else ret l);
    if bl_span l1 <? MAX_SPAN then ret l1      (* continue *)
    else
      do _ <- (if first
               then aset (ef_inventory ef) (bl_inventory_index l1) (- bl_spilled l1)
               else ret tt);
      do _ <- aset (ef_exact_spill ef) (bl_spilled l1) i;
      ret (BuildLocals (d + 1) (bl_spilled l1 + 1) (bl_inventory_index l1)
             (bl_start l1) (bl_span l1))
  else ret l.

Definition simple_select_build (ef : elias_fano_list) (num_ones spill_var_len : Z)
  : M (Z * elias_fano_list) :=
  let length := ef_bitarraylen ef in
  let window := if length =? 0 then 1
                else sext32 (wrap64 (num_ones * MAX_ONES_PER_INVENTORY + length - 1) / length) in
  do _ <- c_assert (0 <? window);   (* log2 of a non-positive number has no integer value *)
  let l2 := ilog2 window in
  let opi := sext32 (Z.shiftl 1 l2) in
  let isz := sext32 (Z.quot (num_ones + opi - 1) opi) in
  do inv <- malloc (isz + 1);
  let ef := set_select ef num_ones l2 opi (opi - 1) isz inv in
  do _ <- for_range (Z.to_nat length) 0 (inventory_pass_body ef) 0;
  do _ <- aset (ef_inventory ef) (ef_inventory_size ef) length;
  if 1 <? ef_ones_per_inventory ef then
    do l <- for_range (Z.to_nat length) 0 (spill_count_body ef) (BuildLocals 0 0 0 0 0);
    let spilled := bl_spilled l in
    let too_small := (0 <? spilled) && (ef_spill_size ef <? spilled) in
    if too_small && (spill_var_len =? 0) then ret (eflist_spill_too_small, ef)
    else
      do ef <- (if too_small then
                  do _ <- free (ef_exact_spill ef);
                  do p <- malloc spilled;
                  ret (set_spill ef spilled p)
                else ret ef);
      do _ <- for_range (Z.to_nat length) 0 (spill_fill_body ef)
                (BuildLocals 0 0 (bl_inventory_index l) (bl_start l) (bl_span l));
      ret (0, ef)
  else ret (0, ef).

(** The loops of [select_rank] that scan one word bit by bit: starting at
    bit [k], each set bit decrements [subrank]; the result is the bit
    index at which [subrank] reaches zero, or the remaining [subrank]. *)
Fixpoint scan_word (n : nat) (w k subrank : Z) : Z + Z :=
  match n with
  | O => inr subrank
  | S n' =>
      let subrank := if negb (Z.land w (lsl64 1 k) =? 0) && negb (subrank =? 0)
                     then subrank - 1 else subrank in
      if subrank =? 0 then inl k else scan_word n' w (k + 1) subrank
  end.

(** [while (ones < subrank) { subrank -= ones; upper_index++; ones = ...}];
    the loop leaves the array before [fuel], the length of the array, runs
    out. *)
Fixpoint skip_words (fuel : nat) (A upper_index ones subrank : Z) : M (Z * Z) :=
  if ones <? subrank then
    match fuel with
    | O => undef
    | S fuel' =>
        do w <- aget A (upper_index + 1);
        skip_words fuel' A (upper_index + 1) (bit_count (sext64 w)) (sext32 (subrank - ones))
    end
  else ret (upper_index, subrank).

Definition select_rank (rank : Z) (ef : elias_fano_list) : M Z :=
  if wrap64 (ef_num_ones ef) <=? rank then ret eflist_out_of_bound
  else
    let inventory_index := sext32 (Z.shiftr rank (ef_log2_ones_per_inventory ef)) in
    do inventory_rank <- aget (ef_inventory ef) inventory_index;
    let subrank := sext32 (Z.land rank (wrap64 (ef_ones_per_inventory_mask ef))) in
    if subrank =? 0 then ret (Z.land inventory_rank (Z.lnot (sext64 (lsl64 1 63))))
    else if inventory_rank <? 0
    then aget (ef_exact_spill ef) (sext32 (- inventory_rank + subrank))
    else
      let A := ba_A (ef_upper ef) in
      let upper_index := Z.shiftr inventory_rank 6 in
      let offset := Z.land inventory_rank (Z.shiftl 1 6 - 1) in
      do w <- (if offset + 1 <? 64 then aget A upper_index else ret 0);
      match scan_word (Z.to_nat (64 - (offset + 1))) w (offset + 1) subrank with
      | inl k => ret (Z.shiftl upper_index 6 + k)
      | inr subrank =>
          let upper_index := upper_index + 1 in
          do w <- aget A upper_index;
          do n <- block_len A;
          do '(upper_index, subrank) <-
            skip_words (Z.to_nat n) A upper_index (bit_count (sext64 w)) subrank;
          do w <- aget A upper_index;
          match scan_word 64 w 0 subrank with
          | inl j => ret (Z.shiftl upper_index 6 + j)
          | inr _ => ret 0
          end
      end.

(** ** The Elias-Fano list *)

Definition eflist_lookup (ef : elias_fano_list) (index : Z) : M Z :=
  do lowx <- bit_array_get (ef_lower ef) index;
  let lowx := sext64 lowx in
  do highx <- select_rank (wrap64 index) ef;
  ret (Z.lor (sext64 (Z.shiftl (highx - index) (ef_s ef))) lowx).

Definition eflist_free (ef : elias_fano_list) : M Z :=
  do _ <- free (ef_inventory ef);
  do _ <- (if 0 <? ef_spill_size ef then free (ef_exact_spill ef) else ret tt);
  do _ <- bit_array_free (ef_lower ef);
  do _ <- bit_array_free (ef_upper ef);
  ret 0.

Definition eflist_init (num_elements largest : Z) : M (Z * elias_fano_list) :=
  let q := wrap64 (largest + 1) / num_elements in
  do _ <- c_assert ((num_elements =? 0) || (0 <? q));
  let s := if num_elements =? 0 then 0 else sext32 (ilog2 q) in
  do lower <- bit_array_create bit_array_zero s num_elements;
  let upper_length := sext64 (num_elements + Z.shiftr largest s) in
  do upper <- bit_array_create bit_array_zero (-1) (Z.quot (upper_length + 63) 64);
  do spill <- malloc DEFAULT_SPILL_SIZE;
  ret (0, EFList num_elements s upper_length lower upper 0 0 0 0 0 0
            DEFAULT_SPILL_SIZE spill).

Definition eflist_add (ef : elias_fano_list) (elem : Z) : M (Z * elias_fano_list) :=
  if ef_size ef <=? ba_curr (ef_lower ef) then ret (eflist_out_of_bound, ef)
  else
    let index := ba_curr (ef_lower ef) in
    let mask := sext64 (lsl64 1 (ef_s ef)) - 1 in
    let val := Z.land elem mask in
    do _ <- bit_array_insert (ef_lower ef) (wrap64 val) index;
    let k := Z.shiftr elem (ef_s ef) + index in
    do _ <- bit_array_setbit (ef_upper ef) k;
    let ef := set_lower ef (set_curr (ef_lower ef) (ba_curr (ef_lower ef) + 1)) in
    let ef := set_upper ef (set_curr (ef_upper ef) (ba_curr (ef_upper ef) + 1)) in
    ret (0, ef).

(** [arr[i]] on the caller's array, given by its elements. *)
Definition arr_at (arr : list Z) (i : Z) : M Z :=
  if i <? 0 then undef
  else match arr !! Z.to_nat i with
       | Some v => ret v
       | None => undef
       end.

(** First loop of [eflist_addbatch]: [true] when every adjacent pair among
    the first [length] elements is in order. *)
Fixpoint batch_check (n : nat) (arr : list Z) (i : Z) : M bool :=
  match n with
  | O => ret true
  | S n' =>
      do a <- arr_at arr i;
      do b <- arr_at arr (i + 1);
      if a <=? b then batch_check n' arr (i + 1) else ret false
  end.

(** Second loop of [eflist_addbatch]. *)
Fixpoint batch_add (n : nat) (arr : list Z) (i : Z) (ef : elias_fano_list)
  : M (Z * elias_fano_list) :=
  match n with
  | O => ret (0, ef)
  | S n' =>
      do a <- arr_at arr i;
      do '(rval, ef') <- eflist_add ef a;
      if rval =? 0 then batch_add n' arr (i + 1) ef' else ret (rval, ef')
  end.

Definition eflist_addbatch (ef : elias_fano_list) (arr : list Z) (length : Z)
  : M (Z * elias_fano_list) :=
  do sorted <- batch_check (Z.to_nat (length - 1)) arr 0;
  if sorted then batch_add (Z.to_nat length) arr 0 ef
  else ret (eflist_batch_nondecreasing, ef).


(** ** Error codes of bvgraph.c *)

Definition bvgraph_call_out_of_memory : Z := -1.
Definition bvgraph_call_io_error : Z := -2.
Definition bvgraph_call_unsupported : Z := -3.
Definition bvgraph_load_error_filename_too_long : Z := 11.
Definition bvgraph_load_error_buffer_too_small : Z := 12.
Definition bvgraph_property_file_error : Z := 21.
Definition bvgraph_unsupported_version : Z := 22.
Definition bvgraph_property_file_compression_flag_error : Z := 23.
Definition bvgraph_vertex_out_of_range : Z := 31.
Definition bvgraph_requires_offsets : Z := 32.
Definition bvgraph_unsupported_coding : Z := 33.

(** ** The graph descriptor

    bvgraph.h is not part of the sources at hand; the record has the fields
    bvgraph.c reads and writes.  [bits_per_link] is a [double] and only
    enters through the product [(uint64_t)(g->bits_per_link * g->m)], which
    the routines below take as a given. *)

Record bvgraph := BVGraph {
  g_filename : string;
  g_filenamelen : Z;
  g_offset_step : Z;
  g_n : Z;
  g_m : Z;
  g_memory : Z;             (* unsigned char *memory *)
  g_memory_size : Z;
  g_memory_external : Z;
  g_offsets : Z;            (* unsigned long long *offsets *)
  g_offsets_external : Z;
  g_use_ef : Z;
  g_ef : elias_fano_list;
  g_zeta_k : Z;
  g_window_size : Z;
  g_min_interval_length : Z;
  g_max_ref_count : Z
}.

(** The descriptor after [memset(g, 0, sizeof(bvgraph))]. *)
Definition bvgraph_zero : bvgraph :=
  BVGraph EmptyString 0 0 0 0 0 0 0 0 0 0 ef_zero 0 0 0 0.

Definition set_name (g : bvgraph) (name : string) (len step : Z) : bvgraph :=
  BVGraph name len step (g_n g) (g_m g) (g_memory g) (g_memory_size g)
    (g_memory_external g) (g_offsets g) (g_offsets_external g) (g_use_ef g) (g_ef g)
    (g_zeta_k g) (g_window_size g) (g_min_interval_length g) (g_max_ref_count g).

Definition set_memory (g : bvgraph) (p size ext : Z) : bvgraph :=
  BVGraph (g_filename g) (g_filenamelen g) (g_offset_step g) (g_n g) (g_m g) p size ext
    (g_offsets g) (g_offsets_external g) (g_use_ef g) (g_ef g)
    (g_zeta_k g) (g_window_size g) (g_min_interval_length g) (g_max_ref_count g).

Definition set_memory_size (g : bvgraph) (size : Z) : bvgraph :=
  set_memory g (g_memory g) size (g_memory_external g).

Definition set_offsets (g : bvgraph) (p : Z) : bvgraph :=
  BVGraph (g_filename g) (g_filenamelen g) (g_offset_step g) (g_n g) (g_m g)
    (g_memory g) (g_memory_size g) (g_memory_external g) p (g_offsets_external g)
    (g_use_ef g) (g_ef g)
    (g_zeta_k g) (g_window_size g) (g_min_interval_length g) (g_max_ref_count g).

Definition set_offsets_external (g : bvgraph) (ext : Z) : bvgraph :=
  BVGraph (g_filename g) (g_filenamelen g) (g_offset_step g) (g_n g) (g_m g)
    (g_memory g) (g_memory_size g) (g_memory_external g) (g_offsets g) ext
    (g_use_ef g) (g_ef g)
    (g_zeta_k g) (g_window_size g) (g_min_interval_length g) (g_max_ref_count g).

Definition set_use_ef (g : bvgraph) (u : Z) : bvgraph :=
  BVGraph (g_filename g) (g_filenamelen g) (g_offset_step g) (g_n g) (g_m g)
    (g_memory g) (g_memory_size g) (g_memory_external g) (g_offsets g)
    (g_offsets_external g) u (g_ef g)
    (g_zeta_k g) (g_window_size g) (g_min_interval_length g) (g_max_ref_count g).

Definition set_ef (g : bvgraph) (ef : elias_fano_list) : bvgraph :=
  BVGraph (g_filename g) (g_filenamelen g) (g_offset_step g) (g_n g) (g_m g)
    (g_memory g) (g_memory_size g) (g_memory_external g) (g_offsets g)
    (g_offsets_external g) (g_use_ef g) ef
    (g_zeta_k g) (g_window_size g) (g_min_interval_length g) (g_max_ref_count g).

Definition set_defaults (g : bvgraph) : bvgraph :=
  BVGraph (g_filename g) (g_filenamelen g) (g_offset_step g) (g_n g) (g_m g)
    (g_memory g) (g_memory_size g) (g_memory_external g) (g_offsets g)
    (g_offsets_external g) (g_use_ef g) (g_ef g) 3 7 3 3.

(** The descriptor [bvgraph_load_external] hands to [parse_properties]. *)
Definition fresh_descriptor (filename : string) (filenamelen offset_step : Z)
  : bvgraph :=
  set_defaults (set_name bvgraph_zero (substring 0 (Z.to_nat filenamelen) filename)
                  filenamelen offset_step).

(** [bvgraph_close].  The descriptor is cleared before [use_ef] is read. *)
Definition bvgraph_close (g : bvgraph) : M (Z * bvgraph) :=
  do _ <- (if g_memory_external g =? 0 then free (g_memory g) else ret tt);
  do _ <- (if g_offsets_external g =? 0 then free (g_offsets g) else ret tt);
  let g := bvgraph_zero in
  do _ <- (if negb (g_use_ef g =? 0) then do _ <- eflist_free (g_ef g); ret tt
           else ret tt);
  ret (0, g).

(** [bvgraph_error_string]; the result is a pointer to a string literal
    ([None] would be the null pointer). *)
Definition bvgraph_error_string (code : Z) : option string :=
  if code =? bvgraph_call_out_of_memory then
    Some "malloc error --- probably out of memory"%string
  else if code =? bvgraph_call_io_error then
    Some "io error --- probably file not found"%string
  else if code =? bvgraph_call_unsupported then
    Some "the call tried to perform an unsupported operation"%string
  else if code =? bvgraph_load_error_filename_too_long then
    Some "filename too long to store"%string
  else if code =? bvgraph_load_error_buffer_too_small then
    Some "one of the provided buffers was too small"%string
  else if code =? bvgraph_property_file_error then
    Some "the property file is not a valid property file format"%string
  else if code =? bvgraph_property_file_compression_flag_error then
    Some "the property file contained an unknown compression flag"%string
  else if code =? bvgraph_call_io_error then
    Some "the file version is not supported"%string
  else if code =? bvgraph_vertex_out_of_range then
    Some "vertex is out of range"%string
  else if code =? bvgraph_requires_offsets then
    Some "offsets are required"%string
  else if code =? bvgraph_unsupported_coding then
    Some "coding unsupported"%string
  else if code =? 0 then
    Some "the call succeeded"%string
  else
    Some "unknown error"%string.

(** ** Loading

    The routines below call into parts of the library that are not among
    the sources at hand (the property-file parser, the file system, the bit
    stream reader and the sequential iterator).  They are parameters of
    this section. *)

Section Load.
(** [BVGRAPH_MAX_FILENAME_SIZE], a macro of the missing header. *)
Variable BVGRAPH_MAX_FILENAME_SIZE : Z.
(** [parse_properties(g)]: status and the descriptor it fills in. *)
Variable parse_properties : bvgraph -> M (Z * bvgraph).
(** [fsize(name, &size)]: status and size. *)
Variable fsize : string -> Z * Z.
(** [fopen] and [fread] of the graph file into a buffer of the given
    size: [None] when the file cannot be opened, otherwise the number of
    bytes read. *)
Variable read_graph_file : string -> Z -> Z -> M (option Z).
(** The offsets file: [None] when it cannot be opened; otherwise the
    status of [bitfile_open] and the successive results of
    [read_offset]. *)
Variable offsets_file : string -> option (Z * list Z).
(** [load_offset_online] and [load_efcode_online] walk the graph with the
    sequential iterator. *)
Variable load_offset_online : bvgraph -> M Z.
Variable load_efcode_online : bvgraph -> M (Z * elias_fano_list).
(** [eflist_initial(&g->ef, n)]. *)
Variable eflist_initial : elias_fano_list -> Z -> M elias_fano_list.
(** [(uint64_t)(g->bits_per_link * g->m)]. *)
Variable build_last_of : bvgraph -> Z.

(** [strappend]. *)
Definition strappend (s : string) (ext : string) : string := (s ++ ext)%string.

(** The loop of [load_offset_from_file]: prefix sums of the decoded
    values go to [g->offsets]. *)
Fixpoint store_offsets (p : Z) (deltas : list Z) (i off : Z) (n : nat) {struct n}
  : M unit :=
  match n with
  | O => ret tt
  | S n' =>
      match deltas with
      | d :: rest =>
          let off := sext64 (d + off) in
          do _ <- aset p i (wrap64 off);
          store_offsets p rest (i + 1) off n'
      | [] => undef
      end
  end.

Definition load_offset_from_file (g : bvgraph) : M (Z * bvgraph) :=
  let ofilename := strappend (g_filename g) ".offsets" in
  do p <- malloc (g_n g);
  let g := set_offsets g p in
  match offsets_file ofilename with
  | Some (rval, deltas) =>
      if negb (rval =? 0) then ret (bvgraph_call_io_error, g)
      else
        do _ <- store_offsets (g_offsets g) deltas 0 0 (Z.to_nat (g_n g));
        ret (0, g)
  | None => ret (1, g)
  end.

(** The loop of [load_efcode_from_file]; the status of [eflist_add] is
    not looked at. *)
Fixpoint add_offsets (ef : elias_fano_list) (deltas : list Z) (off : Z) (n : nat)
  {struct n} : M elias_fano_list :=
  match n with
  | O => ret ef
  | S n' =>
      match deltas with
      | d :: rest =>
          let off := sext64 (d + off) in
          do '(_, ef') <- eflist_add ef off;
          add_offsets ef' rest off n'
      | [] => undef
      end
  end.

(** [load_efcode_from_file].  bvgraph.c reaches the length of the upper
    array through [(g->ef).sel]; in eflist.c it is a field of the list
    itself, which is what the model follows. *)
Definition load_efcode_from_file (g : bvgraph) : M (Z * elias_fano_list) :=
  let ef := g_ef g in
  let n := wrap64 (g_n g) in
  let ofilename := strappend (g_filename g) ".offsets" in
  match offsets_file ofilename with
  | Some (rval, deltas) =>
      if negb (rval =? 0) then ret (bvgraph_call_io_error, ef)
      else
        let build_last := build_last_of g in
        let u := wrap64 (build_last + 1) in
        do _ <- c_assert ((n =? 0) || (0 <? u / n));
        let s := if n =? 0 then 0 else sext32 (ilog2 (u / n)) in
        do lower <- bit_array_create (ef_lower ef) s n;
        let upper_length := sext64 (n + Z.shiftr build_last s) in
        do upper <- bit_array_create (ef_upper ef) (-1) (Z.quot (upper_length + 63) 64);
        let ef := EFList (ef_size ef) s upper_length lower upper (ef_num_ones ef)
                    (ef_log2_ones_per_inventory ef) (ef_ones_per_inventory ef)
                    (ef_ones_per_inventory_mask ef) (ef_inventory_size ef)
                    (ef_inventory ef) (ef_spill_size ef) (ef_exact_spill ef) in
        do ef <- add_offsets ef deltas 0 (Z.to_nat (g_n g));
        ret (0, ef)
  | None => ret (1, ef)
  end.

(** [build_efcode].  The status of [load_efcode_online] is dropped; the
    select structure is built with the routine of eflist.c. *)
Definition build_efcode (g : bvgraph) (spill_var_len : Z) : M (Z * bvgraph) :=
  do ef <- eflist_initial (g_ef g) (g_n g);
  let g := set_ef g ef in
  do '(rval, ef) <- load_efcode_from_file g;
  let g := set_ef g ef in
  do g <- (if negb (rval =? 0) then
             do '(_, ef) <- load_efcode_online g; ret (set_ef g ef)
           else ret g);
  do '(rval, ef) <- simple_select_build (g_ef g) (g_n g) spill_var_len;
  let g := set_ef g ef in
  if rval <? 0 then ret (eflist_spill_too_small, g)
  else ret (0, g).

(** The two statements shared by the branches that build the index:
    [rval = build_efcode(g, 0); if (!rval) build_efcode(g, 1);]. *)
Definition build_efcode_twice (g : bvgraph) : M (Z * bvgraph) :=
  do '(rval, g) <- build_efcode g 0;
  if rval =? 0 then
    do '(_, g) <- build_efcode g 1; ret (rval, g)
  else ret (rval, g).

(** [rval = load_offset_from_file(g); if (rval) load_offset_online(g);]. *)
Definition load_offsets (g : bvgraph) : M (Z * bvgraph) :=
  do '(rval, g) <- load_offset_from_file g;
  if negb (rval =? 0) then
    do _ <- load_offset_online g; ret (rval, g)
  else ret (rval, g).

(** The part of [bvgraph_load_external] that follows the reading of the
    graph file; the status in [rval] is overwritten and never returned. *)
Definition load_offsets_for_step (g : bvgraph) (offset_step offsets : Z)
  : M (Z * bvgraph) :=
  let g := set_use_ef g 0 in
  if offset_step =? 1 then
    do g <- (if negb (offsets =? 0) then
               ret (set_offsets_external (set_offsets g offsets) 1)
             else
               do p <- malloc (g_n g);
               ret (set_offsets_external (set_offsets g p) 0));
    load_offsets g
  else if offset_step =? 2 then
    let g := set_offsets_external (set_use_ef g 1) 1 in
    build_efcode_twice g
  else if 2 <? offset_step then
    let offset_in_mem := sext64 (g_n g * 8) in
    if offset_step <? offset_in_mem then
      let g := set_offsets_external (set_use_ef g 1) 1 in
      build_efcode_twice g
    else
      let g := set_use_ef g 0 in
      do '(rval, g) <- load_offsets g;
      ret (rval, set_offsets_external g 0)
  else ret (0, g).

Definition bvgraph_load_external (g : bvgraph) (filename : string)
    (filenamelen offset_step gmemory gmemsize offsets offsetssize : Z)
  : M (Z * bvgraph) :=
  if BVGRAPH_MAX_FILENAME_SIZE - 1 <? filenamelen then
    ret (bvgraph_load_error_filename_too_long, g)
  else
    let g := bvgraph_zero in
    let g := set_name g (substring 0 (Z.to_nat filenamelen) filename)
               filenamelen offset_step in
    let g := set_defaults g in
    do '(rval, g) <- parse_properties g;
    if negb (rval =? 0) then ret (rval, g)
    else if 0 <=? offset_step then
      let gfilename := strappend (g_filename g) ".graph" in
      let '(rval, graphfilesize) := fsize gfilename in
      if negb (rval =? 0) then ret (bvgraph_call_io_error, g)
      else if negb (gmemory =? 0) && (gmemsize <? graphfilesize) then
        ret (bvgraph_load_error_buffer_too_small, g)
      else
        do g <- (if negb (gmemory =? 0) then ret (set_memory g gmemory gmemsize 1)
                 else
                   do p <- malloc graphfilesize;
                   ret (set_memory g p graphfilesize 0));
        if g_memory g =? 0 then ret (bvgraph_call_out_of_memory, g)
        else
          do bytesread <- read_graph_file gfilename (g_memory g) (g_memory_size g);
          match bytesread with
          | None => ret (bvgraph_call_io_error, g)
          | Some bytesread =>
              if negb (bytesread =? graphfilesize) then ret (bvgraph_call_io_error, g)
              else
                do '(_, g) <- load_offsets_for_step g offset_step offsets;
                ret (0, g)
          end
    else if offset_step =? -1 then
      ret (0, set_memory_size g 0)
    else
      let g := set_offsets_external (set_use_ef (set_memory_size g 0) 1) 1 in
      do '(_, g) <- build_efcode_twice g;
      ret (0, g).

Definition bvgraph_load (g : bvgraph) (filename : string) (filenamelen offset_step : Z)
  : M (Z * bvgraph) :=
  bvgraph_load_external g filename filenamelen offset_step 0 0 0 0.

(** [eflist_size]; undefined where the source takes the logarithm of a
    number that is not positive. *)
Definition eflist_size (g : bvgraph) : option Z :=
  let build_last := build_last_of g in
  let u := wrap64 (build_last + 1) in
  if negb (g_n g =? 0) && (u / wrap64 (g_n g) <=? 0) then None
  else
  let s := if g_n g =? 0 then 0 else sext32 (ilog2 (u / wrap64 (g_n g))) in
  let rval := wrap64 (Z.quot (s * g_n g + 63) 64 * 8) in
  let upper_length := sext64 (g_n g + Z.shiftr build_last s) in
  let rval := wrap64 (rval + Z.quot (upper_length + 63) 64 * 8) in
  let window := if upper_length =? 0 then 1
                else sext32 (Z.quot (g_n g * MAX_ONES_PER_INVENTORY + upper_length - 1)
                               upper_length) in
  if window <=? 0 then None
  else
  let log2_ones_per_inventory := ilog2 window in
  let ones_per_inventory := sext32 (Z.shiftl 1 log2_ones_per_inventory) in
  let inventory_size :=
    sext32 (Z.quot (g_n g + ones_per_inventory - 1) ones_per_inventory) in
  let rval := wrap64 (rval + inventory_size * 8) in
  Some (wrap64 (rval + DEFAULT_SPILL_SIZE * 8)).

(** [bvgraph_required_memory].  An output parameter is [None] for a null
    pointer and [Some v] for a pointer to a cell holding [v]; storing
    through a null pointer is undefined. *)
Definition put (out : option Z) (v : Z) : option (option Z) :=
  match out with
  | Some _ => Some (Some v)
  | None => None
  end.

(** [if (out) { *out = v; }]. *)
Definition put_if (out : option Z) (v : Z) : option Z :=
  match out with
  | Some _ => Some v
  | None => None
  end.

Definition bvgraph_required_memory (g : bvgraph) (offset_step : Z)
    (gbuf offsetbuf efbuf : option Z)
  : option (Z * option Z * option Z * option Z) :=
  if offset_step <=? -1 then
    let gbuf := put_if gbuf 0 in
    let offsetbuf := put_if offsetbuf 0 in
    match efbuf with
    | Some _ =>
        if offset_step <? -1 then
          sz ← eflist_size g; Some (0, gbuf, offsetbuf, Some sz)
        else Some (0, gbuf, offsetbuf, Some 0)
    | None => Some (0, gbuf, offsetbuf, None)
    end
  else
    let gfilename := strappend (g_filename g) ".graph" in
    let '(rval, graphfilesize) := fsize gfilename in
    if negb (rval =? 0) then Some (bvgraph_call_io_error, gbuf, offsetbuf, efbuf)
    else
      let gbuf := put_if gbuf graphfilesize in
      let offsetbuf := put_if offsetbuf 0 in
      let efbuf := put_if efbuf 0 in
      if offset_step =? 1 then
        Some (0, gbuf, put_if offsetbuf (wrap64 (8 * g_n g)), efbuf)
      else if offset_step =? 2 then
        sz ← eflist_size g;
        efbuf' ← put efbuf sz;
        Some (0, gbuf, offsetbuf, efbuf')
      else if 2 <? offset_step then
        if wrap64 (8 * g_n g) <=? wrap64 (offset_step * Z.shiftl 1 20) then
          offsetbuf' ← put offsetbuf (wrap64 (8 * g_n g));
          Some (0, gbuf, offsetbuf', efbuf)
        else
          sz ← eflist_size g;
          efbuf' ← put efbuf sz;
          Some (0, gbuf, offsetbuf, efbuf')
      else Some (0, gbuf, offsetbuf, efbuf).
End Load.


(** ** Reference notions and sample inputs used in the statements *)

(** Number of set bits among the 64 low bits of [x]. *)
Definition popcount (x : Z) : Z :=
  Z.of_nat (length (List.filter (fun i => Z.testbit x (Z.of_nat i)) (seq 0 64))).

(** Set bits among the [n] low bits, least significant first. *)
Fixpoint count_bits (n : nat) (x : Z) : Z :=
  match n with
  | O => 0
  | S k => Z.b2z (Z.odd x) + count_bits k (Z.div2 x)
  end.

(** One round of the divide-and-conquer count on unsigned operands, and
    the masks and rounds for words of [2^n] bits. *)
Definition swar_step (k m x : Z) : Z := Z.land x m + Z.land (Z.shiftr x k) m.

Fixpoint swar_mask (j n : nat) : Z :=
  match n with
  | O => 0
  | S n' => if (j =? n')%nat then 2 ^ (2 ^ Z.of_nat n') - 1
            else swar_mask j n' * (1 + 2 ^ (2 ^ Z.of_nat n'))
  end.

Fixpoint swar_run (m N : nat) (x : Z) : Z :=
  match m with
  | O => x
  | S m' => swar_step (2 ^ Z.of_nat m') (swar_mask m' N) (swar_run m' N x)
  end.

(** Result of a computation started on the empty heap. *)
Definition run {T} (c : M T) : option T := option_map fst (c heap_empty).

(** [eflist_add] of every element of [l], in order; statuses are dropped. *)
Fixpoint add_all (l : list Z) (ef : elias_fano_list) : M elias_fano_list :=
  match l with
  | [] => ret ef
  | x :: l' => do '(_, ef') <- eflist_add ef x; add_all l' ef'
  end.

(** A list made through the interface of eflist.c: [eflist_init] with
    capacity [n] and bound [u], one [eflist_add] per element, then
    [simple_select_build] over the [n] ones with a fixed-size spill. *)
Definition ef_build (l : list Z) (n u : Z) : M (Z * elias_fano_list) :=
  do '(_, ef) <- eflist_init n u;
  do ef <- add_all l ef;
  simple_select_build ef n 0.

(** The bits [0 .. n-1] of the upper array and the first [n] entries of the
    lower array. *)
Fixpoint upper_bits (ef : elias_fano_list) (n : nat) (i : Z) : M (list Z) :=
  match n with
  | O => ret []
  | S n' => do b <- bit_array_getbitk (ef_upper ef) i;
            do bs <- upper_bits ef n' (i + 1);
            ret (b :: bs)
  end.

Fixpoint lower_values (ef : elias_fano_list) (n : nat) (i : Z) : M (list Z) :=
  match n with
  | O => ret []
  | S n' => do v <- bit_array_get (ef_lower ef) i;
            do vs <- lower_values ef n' (i + 1);
            ret (v :: vs)
  end.

Fixpoint zseq (n : nat) (a : Z) : list Z :=
  match n with
  | O => []
  | S n' => a :: zseq n' (a + 1)
  end.

Fixpoint strictly_increasing (l : list Z) : bool :=
  match l with
  | a :: (b :: _) as t => (a <? b) && strictly_increasing t
  | _ => true
  end.

(** 36000 offsets below 575999 whose first 2048 upper bits span 65536
    positions, the first of them at position 1. *)
Definition offsets_wide_first_block : list Z :=
  zseq (Z.to_nat 2048) 8 ++ zseq (Z.to_nat 33952) 507912.

(** 36000 offsets below 575999 whose second group of 2048 upper bits spans
    65536 positions while the first group spans 2304. *)
Definition offsets_wide_second_block : list Z :=
  zseq (Z.to_nat 4096) 0 ++ zseq (Z.to_nat 31904) 509952.

(** A descriptor as [bvgraph_load] leaves it for [offset_step = 2]: graph
    bytes in a buffer of its own, offsets marked external, and the index
    over the offsets 5, 10, 15, 20. *)
Definition loaded_with_ef : M bvgraph :=
  do mem <- malloc 16;
  do '(_, ef) <- ef_build [5; 10; 15; 20] 4 20;
  ret (BVGraph "g" 1 2 4 4 mem 16 0 0 1 1 ef 3 7 3 3).


(** ** Reading the heap in statements *)

(** Content of cell [k] of block [p], when there is one. *)
Definition cell (h : heap) (p k : Z) : option Z :=
  match hp_blocks h !! p with
  | Some b => if in_block b k then blk_cells b !! k else None
  | None => None
  end.

(** Bit [i] of the word array at [p] (bit 0 of word 0 first, as [get_bitk]
    numbers them). *)
Definition ubit (h : heap) (p i : Z) : bool :=
  match cell h p (i / 64) with
  | Some w => Z.testbit w (i mod 64)
  | None => false
  end.

(** Number of positions below [n] at which [f] holds. *)
Fixpoint ones_upto (f : Z -> bool) (n : nat) : Z :=
  match n with
  | O => 0
  | S n' => ones_upto f n' + Z.b2z (f (Z.of_nat n'))
  end.

(** Every cell of block [p] is initialised and holds a 64-bit word. *)
Definition words_ok (h : heap) (p : Z) : Prop :=
  exists b, hp_blocks h !! p = Some b
            /\ forall k, 0 <= k < blk_len b ->
                         exists w, blk_cells b !! k = Some w /\ 0 <= w < 2 ^ 64.

(** Bit [i] of the packed array at [p], counted from the most significant
    bit of word 0, the order in which [bit_array_insert] lays elements
    out. *)
Definition sbit (h : heap) (p i : Z) : bool :=
  match cell h p (i / 64) with
  | Some w => Z.testbit w (63 - i mod 64)
  | None => false
  end.

(** Number of set bits of the word array at [p] strictly below position
    [i]. *)
Definition rank1 (h : heap) (p i : Z) : Z := ones_upto (ubit h p) (Z.to_nat i).

(** Sum of the first [n] elements of [l]. *)
Fixpoint sum_upto (l : list Z) (n : nat) {struct n} : Z :=
  match n, l with
  | S n', d :: r => d + sum_upto r n'
  | _, _ => 0
  end.

(** A two-word bit array and a packed array of 30 three-bit elements, both
    fresh from [bit_array_create]. *)
Definition fresh_bits : M bit_array := bit_array_create bit_array_zero (-1) 2.
Definition fresh_packed : M bit_array := bit_array_create bit_array_zero 3 30.

(** The list over 5, 10, 15, 20 with bound 20. *)
Definition sample_list : M (Z * elias_fano_list) := ef_build [5; 10; 15; 20] 4 20.
(** ** Notions for the statements about built lists *)

(** Fresh addresses are above every live block, and address 0 is never
    handed out. *)
Definition heap_wf (h : heap) : Prop :=
  0 < hp_next h /\ map_Forall (fun q _ => q < hp_next h) (hp_blocks h).

(** [h] differs from [h0] at most in the cells of block [p]. *)
Definition only_cells_of (p : Z) (h0 h : heap) : Prop :=
  hp_next h = hp_next h0
  /\ (forall q, q <> p -> hp_blocks h !! q = hp_blocks h0 !! q)
  /\ (forall b0, hp_blocks h0 !! p = Some b0 ->
                 exists b, hp_blocks h !! p = Some b /\ blk_len b = blk_len b0).

(** The number of ones per inventory entry that [simple_select_build]
    derives from the number of ones and the length of the bit array. *)
Definition block_ones (num_ones length : Z) : Z :=
  2 ^ Z.log2 ((num_ones * MAX_ONES_PER_INVENTORY + length - 1) / length).

(** The first block of ones, which opens at position [p0], spans fewer
    than [MAX_SPAN] bits: the one that opens the second block, or the end
    of the array when there is no second block, is less than [MAX_SPAN]
    positions away; or every one has an inventory entry of its own. *)
Definition first_block_narrow (h : heap) (A length num_ones p0 : Z) : Prop :=
  block_ones num_ones length = 1
  \/ (if block_ones num_ones length <? num_ones
      then block_ones num_ones length < rank1 h A (p0 + MAX_SPAN)
      else length < p0 + MAX_SPAN).

(** The list [ef], in heap [h], holds exactly the elements [xs]: bit
    [(x >> s) + i] of the upper array is set for the [i]-th element [x] and
    no other bit is, and the [s] low bits of [x] are element [i] of the
    lower array, whose other bits are clear. *)
Definition holds (ef : elias_fano_list) (h : heap) (xs : list Z) : Prop :=
  0 <= ef_s ef < 63
  /\ ba_s (ef_lower ef) = ef_s ef /\ ba_s (ef_upper ef) = -1
  /\ ba_curr (ef_lower ef) = Z.of_nat (length xs)
  /\ words_ok h (ba_A (ef_upper ef))
  /\ (exists b, hp_blocks h !! ba_A (ef_upper ef) = Some b
                /\ ef_bitarraylen ef <= 64 * blk_len b)
  /\ (forall p, ubit h (ba_A (ef_upper ef)) p = true <->
                exists i x, xs !! i = Some x /\ p = Z.shiftr x (ef_s ef) + Z.of_nat i)
  /\ (0 < ef_s ef ->
      ba_A (ef_lower ef) <> ba_A (ef_upper ef)
      /\ words_ok h (ba_A (ef_lower ef))
      /\ (exists b, hp_blocks h !! ba_A (ef_lower ef) = Some b
                    /\ ef_s ef * ef_size ef <= 64 * blk_len b)
      /\ forall t, 0 <= t ->
           (sbit h (ba_A (ef_lower ef)) t = true <->
            exists i x, xs !! i = Some x
                        /\ Z.of_nat i * ef_s ef <= t < (Z.of_nat i + 1) * ef_s ef
                        /\ Z.testbit x (ef_s ef - 1 - (t - Z.of_nat i * ef_s ef)) = true)).

Fixpoint nondecreasing (l : list Z) : bool :=
  match l with
  | a :: (b :: _) as t => (a <=? b) && nondecreasing t
  | _ => true
  end.

(** Position in the upper array of the bit of the [i]-th element of [l],
    for lower parts of [s] bits. *)
Definition upper_position (l : list Z) (s : Z) (i : nat) : Z :=
  Z.shiftr (nth i l 0) s + Z.of_nat i.

(** The condition [first_block_narrow] on the list that is stored: [n]
    elements with bound [u], with [s] and the length of the upper array as
    [eflist_init] computes them for a quotient [(u + 1) / n] below
    [2^47]. *)
Definition first_block_fits (l : list Z) (n u : Z) : Prop :=
  let s := Z.log2 ((u + 1) / n) in
  let len := n + Z.shiftr u s in
  let opi := block_ones n len in
  opi = 1
  \/ (if opi <? n then upper_position l s (Z.to_nat opi) else len)
     - upper_position l s 0 < MAX_SPAN.

(** Stand-ins for the missing collaborators, used to exhibit concrete runs:
    a property file announcing four vertices, a 16-byte graph file, no
    offsets file, and a sequential iterator that cannot be created. *)
Module Sample.
Definition max_filename : Z := 1024.
Definition parse_properties (g : bvgraph) : M (Z * bvgraph) :=
  ret (0, BVGraph (g_filename g) (g_filenamelen g) (g_offset_step g) 4 4
            (g_memory g) (g_memory_size g) (g_memory_external g) (g_offsets g)
            (g_offsets_external g) (g_use_ef g) (g_ef g) (g_zeta_k g)
            (g_window_size g) (g_min_interval_length g) (g_max_ref_count g)).
Definition fsize (name : string) : Z * Z := (0, 16).
Definition read_graph_file (name : string) (buf size : Z) : M (option Z) :=
  ret (Some 16).
Definition no_offsets_file (name : string) : option (Z * list Z) := None.
Definition load_offset_online (g : bvgraph) : M Z := ret bvgraph_call_io_error.
Definition load_efcode_online (g : bvgraph) : M (Z * elias_fano_list) :=
  ret (bvgraph_call_io_error, g_ef g).
Definition eflist_initial (ef : elias_fano_list) (n : Z) : M elias_fano_list :=
  ret ef.
Definition build_last_of (g : bvgraph) : Z := 20.
(** Failing counterparts: a property file that does not parse, a graph
    file whose size cannot be obtained, a read that stops after 3 bytes,
    and an offsets file with the values 0, 5, 5, 5. *)
Definition parse_properties_bad (g : bvgraph) : M (Z * bvgraph) :=
  ret (bvgraph_property_file_error, g).
Definition fsize_missing (name : string) : Z * Z := (1, 0).
Definition read_short (name : string) (buf size : Z) : M (option Z) := ret (Some 3).
Definition offsets_present (name : string) : option (Z * list Z) :=
  Some (0, [0; 5; 5; 5]).
(** A descriptor with one vertex. *)
Definition one_vertex : bvgraph :=
  BVGraph "g" 1 (-1) 1 0 0 0 0 0 0 0 ef_zero 3 7 3 3.
(** A descriptor with four vertices. *)
Definition four_vertices : bvgraph :=
  BVGraph "g" 1 1 4 4 0 0 0 0 0 0 ef_zero 3 7 3 3.
End Sample.


(** * Properties *)

(** ** Integer conversions *)

Lemma wrap64_eq z : wrap64 z = z mod 2 ^ 64.
Proof.
  unfold wrap64. change two64 with (2 ^ 64).
  destruct ((0 <=? z) && (z <? 2 ^ 64)) eqn:E; [|reflexivity].
  apply andb_true_iff in E as [E1 E2]. apply Z.leb_le in E1. apply Z.ltb_lt in E2.
  rewrite Z.mod_small by lia. reflexivity.
Qed.

Lemma sext64_eq z : sext64 z = (z + 2 ^ 63) mod 2 ^ 64 - 2 ^ 63.
Proof.
  unfold sext64. change two64 with (2 ^ 64). change two63 with (2 ^ 63).
  destruct ((- 2 ^ 63 <=? z) && (z <? 2 ^ 63)) eqn:E; [|reflexivity].
  apply andb_true_iff in E as [E1 E2]. apply Z.leb_le in E1. apply Z.ltb_lt in E2.
  rewrite Z.mod_small by lia. lia.
Qed.

Lemma sext32_eq z : sext32 z = (z + 2 ^ 31) mod 2 ^ 32 - 2 ^ 31.
Proof.
  unfold sext32. change two32 with (2 ^ 32). change two31 with (2 ^ 31).
  destruct ((- 2 ^ 31 <=? z) && (z <? 2 ^ 31)) eqn:E; [|reflexivity].
  apply andb_true_iff in E as [E1 E2]. apply Z.leb_le in E1. apply Z.ltb_lt in E2.
  rewrite Z.mod_small by lia. lia.
Qed.

Lemma wrap64_sext64 y : wrap64 (sext64 y) = wrap64 y.
Proof.
  rewrite !wrap64_eq, sext64_eq. rewrite Zminus_mod_idemp_l. f_equal. lia.
Qed.

Lemma wrap64_range y : 0 <= wrap64 y < 2 ^ 64.
Proof. rewrite wrap64_eq. apply Z.mod_pos_bound. lia. Qed.

Lemma wrap64_small y : 0 <= y < 2 ^ 64 -> wrap64 y = y.
Proof. intros H. rewrite wrap64_eq. apply Z.mod_small. exact H. Qed.

Lemma wrap64_idem y : wrap64 (wrap64 y) = wrap64 y.
Proof. apply wrap64_small, wrap64_range. Qed.

Lemma sext64_small y : - 2 ^ 63 <= y < 2 ^ 63 -> sext64 y = y.
Proof. intros H. rewrite sext64_eq. rewrite Z.mod_small by lia. lia. Qed.

Lemma sext32_small y : - 2 ^ 31 <= y < 2 ^ 31 -> sext32 y = y.
Proof. intros H. rewrite sext32_eq. rewrite Z.mod_small by lia. lia. Qed.

Lemma wrap64_testbit y i : 0 <= i -> Z.testbit (wrap64 y) i = (i <? 64) && Z.testbit y i.
Proof.
  intros Hi. rewrite wrap64_eq. destruct (Z.ltb_spec i 64).
  - rewrite Z.mod_pow2_bits_low by lia. reflexivity.
  - rewrite Z.mod_pow2_bits_high by lia. reflexivity.
Qed.


(** ** Heap accesses *)

Lemma aget_cell p k h :
  aget p k h = match cell h p k with Some v => Some (v, h) | None => None end.
Proof.
  unfold aget, cell. destruct (hp_blocks h !! p) as [b|]; [|reflexivity].
  destruct (in_block b k); [|reflexivity]. destruct (blk_cells b !! k); reflexivity.
Qed.

Lemma aget_Some p k h v h' : aget p k h = Some (v, h') -> cell h p k = Some v /\ h' = h.
Proof.
  rewrite aget_cell. destruct (cell h p k); [|discriminate].
  intros H. injection H as <- <-. auto.
Qed.

Lemma aget_of_cell p k h v : cell h p k = Some v -> aget p k h = Some (v, h).
Proof. intros H. rewrite aget_cell, H. reflexivity. Qed.

Lemma in_block_iff b k : in_block b k = true <-> 0 <= k < blk_len b.
Proof. unfold in_block. rewrite andb_true_iff, Z.leb_le, Z.ltb_lt. tauto. Qed.

Lemma aset_Some p k v h u h' :
  aset p k v h = Some (u, h') ->
  exists b, hp_blocks h !! p = Some b /\ 0 <= k < blk_len b
            /\ h' = Heap (<[p := Block (blk_len b) (<[k := v]> (blk_cells b))]> (hp_blocks h))
                         (hp_next h).
Proof.
  unfold aset. destruct (hp_blocks h !! p) as [b|]; [|discriminate].
  destruct (in_block b k) eqn:E; [|discriminate].
  intros H. injection H as _ <-. exists b. apply in_block_iff in E. auto.
Qed.

Lemma aset_defined p k v h b :
  hp_blocks h !! p = Some b -> 0 <= k < blk_len b ->
  exists h', aset p k v h = Some (tt, h').
Proof.
  intros Hb Hk. unfold aset. rewrite Hb.
  apply in_block_iff in Hk. rewrite Hk. eauto.
Qed.

Lemma aset_cell_same p k v h u h' : aset p k v h = Some (u, h') -> cell h' p k = Some v.
Proof.
  intros H. apply aset_Some in H as (b & Hb & Hk & ->).
  unfold cell. cbn. rewrite lookup_insert_eq. cbn.
  apply in_block_iff in Hk. unfold in_block in *. cbn. rewrite Hk.
  apply lookup_insert_eq.
Qed.

Lemma aset_cell_other p k v h u h' q j :
  aset p k v h = Some (u, h') -> (q <> p \/ j <> k) -> cell h' q j = cell h q j.
Proof.
  intros H Hne. apply aset_Some in H as (b & Hb & Hk & ->).
  unfold cell. cbn. destruct (Z.eq_dec q p) as [->|Hq].
  - rewrite lookup_insert_eq, Hb. unfold in_block. cbn.
    destruct ((0 <=? j) && (j <? blk_len b)); [|reflexivity].
    apply lookup_insert_ne. destruct Hne; congruence.
  - rewrite lookup_insert_ne by congruence. reflexivity.
Qed.

Lemma aset_blk_len p k v h u h' q b :
  aset p k v h = Some (u, h') -> hp_blocks h !! q = Some b ->
  exists b', hp_blocks h' !! q = Some b' /\ blk_len b' = blk_len b.
Proof.
  intros H Hq. apply aset_Some in H as (b0 & Hb & Hk & ->). cbn.
  destruct (Z.eq_dec q p) as [->|Hne].
  - rewrite lookup_insert_eq. rewrite Hb in Hq. injection Hq as <-. eauto.
  - rewrite lookup_insert_ne by congruence. eauto.
Qed.

Lemma cell_Some_block h p k v :
  cell h p k = Some v ->
  exists b, hp_blocks h !! p = Some b /\ 0 <= k < blk_len b /\ blk_cells b !! k = Some v.
Proof.
  unfold cell. destruct (hp_blocks h !! p) as [b|]; [|discriminate].
  destruct (in_block b k) eqn:E; [|discriminate].
  intros H. exists b. apply in_block_iff in E. auto.
Qed.

Lemma words_ok_cell h p k b :
  words_ok h p -> hp_blocks h !! p = Some b -> 0 <= k < blk_len b ->
  exists w, cell h p k = Some w /\ 0 <= w < 2 ^ 64.
Proof.
  intros (b' & Hb' & Hall) Hb Hk. rewrite Hb in Hb'. injection Hb' as <-.
  destruct (Hall k Hk) as (w & Hw & Hr). exists w. split; [|exact Hr].
  unfold cell. rewrite Hb. apply in_block_iff in Hk. rewrite Hk. exact Hw.
Qed.


(** ** Counting bits *)

Lemma testbit_pair W A B i :
  0 <= W -> 0 <= A < 2 ^ W -> 0 <= i ->
  Z.testbit (A + 2 ^ W * B) i = if i <? W then Z.testbit A i else Z.testbit B (i - W).
Proof.
  intros HW HA Hi. destruct (Z.ltb_spec i W).
  - rewrite <- (Z.mod_pow2_bits_low (A + 2 ^ W * B) W i) by lia.
    rewrite Z.mul_comm, Z.mod_add by lia. rewrite Z.mod_small by lia. reflexivity.
  - replace i with ((i - W) + W) at 1 by lia.
    rewrite <- Z.div_pow2_bits by lia.
    rewrite Z.mul_comm, Z.div_add by lia. rewrite Z.div_small by lia. reflexivity.
Qed.

Lemma testbit_high W A i : 0 <= W -> 0 <= A < 2 ^ W -> W <= i -> Z.testbit A i = false.
Proof.
  intros HW HA Hi. rewrite <- (Z.mod_small A (2 ^ W)) by lia.
  apply Z.mod_pow2_bits_high. lia.
Qed.

Lemma land_le_mask A m : 0 <= m -> 0 <= Z.land A m <= m.
Proof.
  intros Hm. split; [apply Z.land_nonneg; lia|].
  assert (H : m - Z.land A m = Z.ldiff m (Z.land A m)).
  { apply Z.sub_nocarry_ldiff. apply Z.bits_inj'. intros i Hi.
    rewrite Z.ldiff_spec, Z.land_spec, Z.bits_0.
    destruct (Z.testbit A i), (Z.testbit m i); reflexivity. }
  assert (0 <= Z.ldiff m (Z.land A m)) by (apply Z.ldiff_nonneg; lia).
  lia.
Qed.

Lemma swar_step_bound k m x W :
  0 <= m -> 2 * m < 2 ^ W -> 0 <= swar_step k m x < 2 ^ W.
Proof.
  intros Hm Hlt. unfold swar_step.
  pose proof (land_le_mask x m Hm). pose proof (land_le_mask (Z.shiftr x k) m Hm). lia.
Qed.

Lemma swar_step_split k W A B ma mb :
  0 <= k <= W -> 0 <= A < 2 ^ W -> 0 <= ma < 2 ^ (W - k) -> 0 <= mb ->
  swar_step k (ma + 2 ^ W * mb) (A + 2 ^ W * B)
  = swar_step k ma A + 2 ^ W * swar_step k mb B.
Proof.
  intros Hk HA Hma Hmb. unfold swar_step.
  assert (HmaW : 0 <= ma < 2 ^ W).
  { split; [lia|]. eapply Z.lt_le_trans; [apply Hma|]. apply Z.pow_le_mono_r; lia. }
  assert (E1 : Z.land (A + 2 ^ W * B) (ma + 2 ^ W * mb)
               = Z.land A ma + 2 ^ W * Z.land B mb).
  { apply Z.bits_inj'. intros i Hi.
    pose proof (land_le_mask A ma ltac:(lia)).
    rewrite Z.land_spec, !testbit_pair by lia.
    destruct (i <? W); rewrite Z.land_spec; reflexivity. }
  assert (E2 : Z.land (Z.shiftr (A + 2 ^ W * B) k) (ma + 2 ^ W * mb)
               = Z.land (Z.shiftr A k) ma + 2 ^ W * Z.land (Z.shiftr B k) mb).
  { apply Z.bits_inj'. intros i Hi.
    pose proof (land_le_mask (Z.shiftr A k) ma ltac:(lia)).
    rewrite Z.land_spec, Z.shiftr_spec by lia.
    rewrite !testbit_pair by lia.
    destruct (Z.ltb_spec i W).
    - rewrite Z.land_spec, Z.shiftr_spec by lia.
      destruct (Z.ltb_spec (i + k) W); [reflexivity|].
      rewrite (testbit_high (W - k) ma i) by lia.
      rewrite !andb_false_r. reflexivity.
    - destruct (Z.ltb_spec (i + k) W); [lia|].
      rewrite Z.land_spec, Z.shiftr_spec by lia.
      replace (i - W + k) with (i + k - W) by lia. reflexivity. }
  rewrite E1, E2. ring.
Qed.

Lemma swar_mask_bound j n :
  (j < n)%nat -> 0 <= swar_mask j n < 2 ^ (2 ^ Z.of_nat n - 2 ^ Z.of_nat j).
Proof.
  induction n as [|n IH]; intros Hj; [lia|].
  cbn [swar_mask].
  assert (E : 2 ^ Z.of_nat (S n) = 2 ^ Z.of_nat n + 2 ^ Z.of_nat n).
  { rewrite Nat2Z.inj_succ, Z.pow_succ_r by lia. lia. }
  assert (Hp : 0 < 2 ^ Z.of_nat n) by (apply Z.pow_pos_nonneg; lia).
  assert (HW : 0 < 2 ^ (2 ^ Z.of_nat n)) by (apply Z.pow_pos_nonneg; lia).
  destruct (Nat.eqb_spec j n) as [->|Hne].
  - rewrite E. replace (2 ^ Z.of_nat n + 2 ^ Z.of_nat n - 2 ^ Z.of_nat n)
      with (2 ^ Z.of_nat n) by lia. lia.
  - assert (Hjn : (j < n)%nat) by lia. specialize (IH Hjn).
    assert (Hpj : 0 < 2 ^ Z.of_nat j <= 2 ^ Z.of_nat n).
    { split; [apply Z.pow_pos_nonneg; lia|apply Z.pow_le_mono_r; lia]. }
    assert (Hpj' : 2 ^ Z.of_nat j < 2 ^ Z.of_nat n) by (apply Z.pow_lt_mono_r; lia).
    rewrite E.
    replace (2 ^ Z.of_nat n + 2 ^ Z.of_nat n - 2 ^ Z.of_nat j)
      with ((2 ^ Z.of_nat n - 2 ^ Z.of_nat j) + 2 ^ Z.of_nat n) by lia.
    rewrite Z.pow_add_r by lia.
    set (W := 2 ^ Z.of_nat n) in *. set (J := 2 ^ Z.of_nat j) in *.
    assert (HJ : 2 ^ (W - J) < 2 ^ W) by (apply Z.pow_lt_mono_r; lia).
    assert (0 < 2 ^ (W - J)) by (apply Z.pow_pos_nonneg; lia).
    nia.
Qed.

Lemma count_bits_ext n x y :
  (forall i, 0 <= i < Z.of_nat n -> Z.testbit x i = Z.testbit y i) ->
  count_bits n x = count_bits n y.
Proof.
  revert x y. induction n as [|n IH]; intros x y H; [reflexivity|].
  cbn [count_bits]. rewrite <- !Z.bit0_odd, (H 0) by lia.
  f_equal. apply IH. intros i Hi. rewrite !Z.div2_spec, !Z.shiftr_spec by lia. apply H. lia.
Qed.

Lemma count_bits_app a b x :
  count_bits (a + b) x = count_bits a x + count_bits b (Z.shiftr x (Z.of_nat a)).
Proof.
  revert x. induction a as [|a IH]; intros x.
  - cbn. rewrite Z.shiftr_0_r. reflexivity.
  - cbn [Nat.add count_bits]. rewrite IH, Z.div2_spec, Z.shiftr_shiftr by lia.
    replace (1 + Z.of_nat a) with (Z.of_nat (S a)) by lia. ring.
Qed.

Lemma count_bits_range n x : 0 <= count_bits n x <= Z.of_nat n.
Proof.
  revert x. induction n as [|n IH]; intros x; cbn [count_bits]; [lia|].
  specialize (IH (Z.div2 x)). destruct (Z.odd x); cbn [Z.b2z]; lia.
Qed.

Lemma count_bits_pair a b A B :
  0 <= A < 2 ^ Z.of_nat a ->
  count_bits (a + b) (A + 2 ^ Z.of_nat a * B) = count_bits a A + count_bits b B.
Proof.
  intros HA. rewrite count_bits_app. f_equal.
  - apply count_bits_ext. intros i Hi. rewrite testbit_pair by lia.
    destruct (Z.ltb_spec i (Z.of_nat a)); [reflexivity|lia].
  - f_equal. rewrite Z.shiftr_div_pow2 by lia.
    rewrite Z.mul_comm, Z.div_add by lia. rewrite Z.div_small by lia. reflexivity.
Qed.

Lemma popcount_count_bits x : popcount x = count_bits 64 x.
Proof.
  unfold popcount.
  assert (G : forall n s,
    Z.of_nat (length (List.filter (fun i => Z.testbit x (Z.of_nat i)) (seq s n)))
    = count_bits n (Z.shiftr x (Z.of_nat s))).
  { induction n as [|n IH]; intros s; [reflexivity|].
    cbn [seq List.filter count_bits].
    rewrite <- Z.bit0_odd, Z.shiftr_spec, Z.add_0_l by lia.
    rewrite Z.div2_spec, Z.shiftr_shiftr by lia.
    replace (Z.of_nat s + 1) with (Z.of_nat (S s)) by lia.
    rewrite <- IH. destruct (Z.testbit x (Z.of_nat s)); cbn [length Z.b2z]; lia. }
  rewrite G. cbn [Z.of_nat]. rewrite Z.shiftr_0_r. reflexivity.
Qed.

Lemma pow2_nat n : Z.of_nat (2 ^ n) = 2 ^ Z.of_nat n.
Proof. rewrite Nat2Z.inj_pow. reflexivity. Qed.

Lemma swar_run_bound m n A :
  (m <= n)%nat -> 0 <= A < 2 ^ (2 ^ Z.of_nat n) -> 0 <= swar_run m n A < 2 ^ (2 ^ Z.of_nat n).
Proof.
  intros Hm HA. destruct m as [|m]; [exact HA|]. cbn [swar_run].
  pose proof (swar_mask_bound m n ltac:(lia)) as Hb.
  apply swar_step_bound; [lia|].
  assert (0 < 2 ^ Z.of_nat m) by (apply Z.pow_pos_nonneg; lia).
  assert (2 ^ Z.of_nat m <= 2 ^ Z.of_nat n) by (apply Z.pow_le_mono_r; lia).
  assert (2 ^ (2 ^ Z.of_nat n - 2 ^ Z.of_nat m) <= 2 ^ (2 ^ Z.of_nat n - 1))
    by (apply Z.pow_le_mono_r; lia).
  replace (2 ^ (2 ^ Z.of_nat n)) with (2 * 2 ^ (2 ^ Z.of_nat n - 1)).
  - lia.
  - rewrite <- Z.pow_succ_r by lia. f_equal. lia.
Qed.

Lemma swar_run_split m n A B :
  (m <= n)%nat -> 0 <= A < 2 ^ (2 ^ Z.of_nat n) -> 0 <= B < 2 ^ (2 ^ Z.of_nat n) ->
  swar_run m (S n) (A + 2 ^ (2 ^ Z.of_nat n) * B)
  = swar_run m n A + 2 ^ (2 ^ Z.of_nat n) * swar_run m n B.
Proof.
  intros Hm HA HB. induction m as [|m IH]; [reflexivity|].
  cbn [swar_run swar_mask]. rewrite IH by lia.
  destruct (Nat.eqb_spec m n) as [E|_]; [lia|].
  rewrite Z.mul_add_distr_l, Z.mul_1_r, (Z.mul_comm (swar_mask m n)).
  pose proof (swar_mask_bound m n ltac:(lia)).
  apply swar_step_split.
  - split; [apply Z.pow_nonneg; lia|apply Z.pow_le_mono_r; lia].
  - apply swar_run_bound; lia.
  - assumption.
  - lia.
Qed.

Lemma swar_run_correct n x :
  0 <= x < 2 ^ (2 ^ Z.of_nat n) -> swar_run n n x = count_bits (2 ^ n) x.
Proof.
  revert x. induction n as [|n IH]; intros x Hx.
  - cbn in *. assert (x = 0 \/ x = 1) as [->| ->] by lia; reflexivity.
  - set (W := 2 ^ Z.of_nat n).
    assert (HW : 0 < W) by (apply Z.pow_pos_nonneg; lia).
    assert (HWW : 2 ^ Z.of_nat (S n) = W + W).
    { rewrite Nat2Z.inj_succ, Z.pow_succ_r by lia. fold W. lia. }
    rewrite HWW, Z.pow_add_r in Hx by lia.
    assert (HP : 0 < 2 ^ W) by (apply Z.pow_pos_nonneg; lia).
    assert (Hx' : x = x mod 2 ^ W + 2 ^ W * (x / 2 ^ W)).
    { rewrite (Z.div_mod x (2 ^ W)) at 1 by lia. ring. }
    pose proof (Z.mod_pos_bound x (2 ^ W) HP) as HA.
    assert (HB : 0 <= x / 2 ^ W < 2 ^ W).
    { split; [apply Z.div_pos; lia|apply Z.div_lt_upper_bound; lia]. }
    set (A := x mod 2 ^ W) in *. set (B := x / 2 ^ W) in *.
    rewrite Hx'. cbn [swar_run swar_mask]. rewrite Nat.eqb_refl.
    fold W. rewrite swar_run_split by (fold W; lia). fold W.
    rewrite !IH by (fold W; lia).
    replace (2 ^ S n)%nat with (2 ^ n + 2 ^ n)%nat by (cbn; lia).
    assert (HWn : Z.of_nat (2 ^ n) = W) by apply pow2_nat.
    assert (Hpair : count_bits (2 ^ n + 2 ^ n) (A + 2 ^ W * B)
                    = count_bits (2 ^ n) A + count_bits (2 ^ n) B).
    { rewrite <- HWn. apply count_bits_pair. rewrite HWn. lia. }
    rewrite Hpair.
    pose proof (count_bits_range (2 ^ n) A) as Ha.
    pose proof (count_bits_range (2 ^ n) B) as Hb.
    rewrite HWn in Ha, Hb.
    assert (W < 2 ^ W) by (apply Z.pow_gt_lin_r; lia).
    set (pa := count_bits (2 ^ n) A) in *. set (pb := count_bits (2 ^ n) B) in *.
    unfold swar_step.
    replace (2 ^ W - 1) with (Z.ones W) by (rewrite Z.ones_equiv; lia).
    rewrite !Z.land_ones, Z.shiftr_div_pow2 by lia.
    rewrite (Z.mul_comm (2 ^ W) pb), Z.mod_add, Z.div_add by lia.
    rewrite (Z.mod_small pa), (Z.div_small pa), Z.add_0_l, (Z.mod_small pb) by lia.
    reflexivity.
Qed.

Lemma bit_count_round_spec k m x :
  0 <= k <= 64 -> 0 <= m < 2 ^ (64 - k) -> 2 * m < 2 ^ 64 ->
  wrap64 (bit_count_round k m x) = swar_step k m (wrap64 x).
Proof.
  intros Hk Hm H2. unfold bit_count_round.
  rewrite wrap64_sext64, wrap64_idem.
  assert (E : Z.land (wrap64 (Z.shiftr x k)) m = Z.land (Z.shiftr (wrap64 x) k) m).
  { apply Z.bits_inj'. intros i Hi.
    rewrite !Z.land_spec, Z.shiftr_spec, !wrap64_testbit, Z.shiftr_spec by lia.
    destruct (Z.ltb_spec i 64), (Z.ltb_spec (i + k) 64); try reflexivity; try lia.
    rewrite (testbit_high (64 - k) m i) by lia. rewrite !andb_false_r. reflexivity. }
  rewrite E. fold (swar_step k m (wrap64 x)).
  apply wrap64_small. apply swar_step_bound; lia.
Qed.

Lemma bit_count_round_signed k m x :
  sext64 (wrap64 (bit_count_round k m x)) = bit_count_round k m x.
Proof. unfold bit_count_round. rewrite wrap64_sext64, wrap64_idem. reflexivity. Qed.

Lemma bit_count_count_bits x : bit_count x = count_bits 64 (wrap64 x).
Proof.
  pose proof (swar_run_correct 6 (wrap64 x) (wrap64_range x)) as Hrun.
  change (2 ^ 6)%nat with 64%nat in Hrun.
  pose proof (count_bits_range 64 (wrap64 x)) as Hr.
  rewrite <- Hrun in *. clear Hrun.
  unfold bit_count.
  set (x1 := bit_count_round 1 m1 x).
  set (x2 := bit_count_round 2 m2 x1).
  set (x3 := bit_count_round 4 m4 x2).
  set (x4 := bit_count_round 8 m8 x3).
  set (x5 := bit_count_round 16 m16 x4).
  set (x6 := bit_count_round 32 m32 x5).
  assert (E : wrap64 x6 = swar_run 6 6 (wrap64 x)).
  { change (swar_run 6 6 (wrap64 x)) with
      (swar_step 32 m32 (swar_step 16 m16 (swar_step 8 m8 (swar_step 4 m4
         (swar_step 2 m2 (swar_step 1 m1 (wrap64 x))))))).
    rewrite <- (bit_count_round_spec 1 m1 x) by (unfold m1; lia). fold x1.
    rewrite <- (bit_count_round_spec 2 m2 x1) by (unfold m2; lia). fold x2.
    rewrite <- (bit_count_round_spec 4 m4 x2) by (unfold m4; lia). fold x3.
    rewrite <- (bit_count_round_spec 8 m8 x3) by (unfold m8; lia). fold x4.
    rewrite <- (bit_count_round_spec 16 m16 x4) by (unfold m16; lia). fold x5.
    rewrite <- (bit_count_round_spec 32 m32 x5) by (unfold m32; lia). reflexivity. }
  rewrite <- E in *.
  assert (Hx6 : x6 = wrap64 x6).
  { assert (Hs : sext64 (wrap64 x6) = x6).
    { apply bit_count_round_signed. }
    rewrite <- Hs at 1. apply sext64_small. cbn in Hr. lia. }
  rewrite <- Hx6 in *. apply sext32_small. cbn in Hr. lia.
Qed.

(** C10: for every 64-bit word [x], [bit_count x] is the number of set bits
    of [x]; the statement holds for every integer, of which only the 64 low
    bits in two's complement are looked at. *)
Theorem bit_count_popcount x : bit_count x = popcount x.
Proof.
  rewrite popcount_count_bits, bit_count_count_bits.
  symmetry. apply count_bits_ext. intros i Hi. rewrite wrap64_testbit by lia.
  destruct (Z.ltb_spec i 64); [reflexivity|lia].
Qed.


(** ** The monad *)

Lemma bindM_Some {T U} (c : M T) (k : T -> M U) h r :
  bind c k h = Some r -> exists x h', c h = Some (x, h') /\ k x h' = Some r.
Proof.
  unfold bind. destruct (c h) as [[x h']|]; [|discriminate].
  intros H. exists x, h'. split; [reflexivity|exact H].
Qed.

Lemma bindM_eq {T U} (c : M T) (k : T -> M U) h x h' :
  c h = Some (x, h') -> bind c k h = k x h'.
Proof. intros H. unfold bind. rewrite H. reflexivity. Qed.

Lemma retM_Some {T} (x y : T) h h' : ret x h = Some (y, h') -> x = y /\ h = h'.
Proof. unfold ret. intros H. injection H. auto. Qed.

(** Invert a chain of binds in hypothesis [H]. *)
Ltac bind_inv H :=
  repeat match type of H with
         | bind _ _ _ = Some _ =>
             let x := fresh "x" in
             let h := fresh "h" in
             let E := fresh "E" in
             let H' := fresh "H" in
             destruct (bindM_Some _ _ _ _ H) as (x & h & E & H');
             clear H; rename H' into H
         end.

(** ** Appending to the list *)

Lemma eflist_add_full ef elem h :
  ef_size ef <= ba_curr (ef_lower ef) ->
  eflist_add ef elem h = Some (eflist_out_of_bound, ef, h).
Proof.
  intros Hfull. unfold eflist_add.
  destruct (Z.leb_spec (ef_size ef) (ba_curr (ef_lower ef))); [reflexivity|lia].
Qed.

Lemma eflist_add_room ef elem h r ef' h' :
  ba_curr (ef_lower ef) < ef_size ef ->
  eflist_add ef elem h = Some (r, ef', h') ->
  r = 0 /\ ba_curr (ef_lower ef') = ba_curr (ef_lower ef) + 1
  /\ ba_curr (ef_upper ef') = ba_curr (ef_upper ef) + 1
  /\ ef_size ef' = ef_size ef.
Proof.
  intros Hroom. unfold eflist_add.
  destruct (Z.leb_spec (ef_size ef) (ba_curr (ef_lower ef))); [lia|].
  intros Hadd. bind_inv Hadd. apply retM_Some in Hadd as [Hadd _].
  injection Hadd as <- <-. cbn. auto.
Qed.

Lemma arr_at_Some (arr : list Z) i v h :
  0 <= i -> arr !! Z.to_nat i = Some v -> arr_at arr i h = Some (v, h).
Proof.
  intros Hi Hv. unfold arr_at.
  destruct (Z.ltb_spec i 0); [lia|]. rewrite Hv. reflexivity.
Qed.

Lemma batch_check_descent n (arr : list Z) i0 i a b h :
  0 <= i0 <= i -> (Z.to_nat i < Z.to_nat i0 + n)%nat ->
  (Z.to_nat i + 1 < length arr)%nat ->
  arr !! Z.to_nat i = Some a -> arr !! Z.to_nat (i + 1) = Some b -> b < a ->
  batch_check n arr i0 h = Some (false, h).
Proof.
  revert i0. induction n as [|n IH]; intros i0 Hi0 Hn Hlen Ha Hb Hlt; [lia|].
  cbn [batch_check].
  destruct (lookup_lt_is_Some_2 arr (Z.to_nat i0) ltac:(lia)) as [x Hx].
  destruct (lookup_lt_is_Some_2 arr (Z.to_nat (i0 + 1)) ltac:(lia)) as [y Hy].
  rewrite (bindM_eq _ _ h x h) by (apply arr_at_Some; [lia|exact Hx]).
  rewrite (bindM_eq _ _ h y h) by (apply arr_at_Some; [lia|exact Hy]).
  destruct (Z.leb_spec x y) as [Hxy|Hxy]; [|reflexivity].
  assert (i0 <> i).
  { intros ->. rewrite Ha in Hx. rewrite Hb in Hy. injection Hx as <-. injection Hy as <-. lia. }
  apply IH; try assumption; lia.
Qed.

(** C7 (as stated) fails: after 10 has been added, [eflist_add] also
    accepts 5 and reports success. *)
Lemma eflist_add_accepts_smaller_element :
  run (do '(_, ef) <- eflist_init 4 20;
       do '(_, ef) <- eflist_add ef 10;
       do '(r, _) <- eflist_add ef 5;
       ret r) = Some 0.
Proof. vm_compute. reflexivity. Qed.

(** C7 (amended): [eflist_add] answers [eflist_out_of_bound], leaving list
    and heap as they are, exactly when the list holds its declared number
    of elements; with room left it makes no comparison with earlier
    elements: whenever the call returns, it answers 0 and has advanced
    both cursors, whatever the element; [eflist_addbatch] answers
    [eflist_batch_nondecreasing], adding nothing, for every array with an
    adjacent pair in decreasing order. *)
Theorem eflist_add_bound_and_batch_order :
  (forall ef elem h,
      ef_size ef <= ba_curr (ef_lower ef) ->
      eflist_add ef elem h = Some (eflist_out_of_bound, ef, h))
  /\ (forall ef elem h r ef' h',
         ba_curr (ef_lower ef) < ef_size ef ->
         eflist_add ef elem h = Some (r, ef', h') ->
         r = 0 /\ ba_curr (ef_lower ef') = ba_curr (ef_lower ef) + 1
         /\ ba_curr (ef_upper ef') = ba_curr (ef_upper ef) + 1)
  /\ (forall ef (arr : list Z) len h i a b,
         0 <= i -> i + 1 < len -> len <= Z.of_nat (length arr) ->
         arr !! Z.to_nat i = Some a -> arr !! Z.to_nat (i + 1) = Some b -> b < a ->
         eflist_addbatch ef arr len h = Some (eflist_batch_nondecreasing, ef, h)).
Proof.
  split; [exact eflist_add_full|]. split.
  - intros ef elem h r ef' h' Hroom H.
    destruct (eflist_add_room _ _ _ _ _ _ Hroom H) as (? & ? & ? & _). auto.
  - intros ef arr len h i a b Hi Hlen Harr Ha Hb Hlt. unfold eflist_addbatch.
    rewrite (bindM_eq _ _ h false h); [reflexivity|].
    apply (batch_check_descent _ arr 0 i a b); try assumption; lia.
Qed.

Lemma eflist_add_bound_and_batch_order_witness :
  (exists ef h, ef_size ef <= ba_curr (ef_lower ef)
     /\ eflist_add ef 7 h = Some (eflist_out_of_bound, ef, h))
  /\ (exists ef h ef' h', ba_curr (ef_lower ef) < ef_size ef
        /\ eflist_add ef 5 h = Some (0, ef', h')
        /\ ba_curr (ef_lower ef') = ba_curr (ef_lower ef) + 1)
  /\ eflist_addbatch ef_zero [1; 3; 2] 3 heap_empty
     = Some (eflist_batch_nondecreasing, ef_zero, heap_empty).
Proof.
  destruct eflist_add_bound_and_batch_order as (Hfull & Hroom & Hbatch).
  split; [|split].
  - exists ef_zero, heap_empty. split; [cbn; lia|].
    apply Hfull. cbn. lia.
  - destruct ((do '(_, ef) <- eflist_init 4 20; eflist_add ef 10) heap_empty)
      as [[[r0 ef] h]|] eqn:E0; [|vm_compute in E0; discriminate].
    destruct (eflist_add ef 5 h) as [[[r ef'] h']|] eqn:E.
    + assert (Hc : ba_curr (ef_lower ef) < ef_size ef).
      { vm_compute in E0. injection E0 as _ <- _. cbn. lia. }
      destruct (Hroom _ _ _ _ _ _ Hc E) as (-> & Hl & _).
      exists ef, h, ef', h'. auto.
    + vm_compute in E0. injection E0 as _ <- <-. vm_compute in E. discriminate.
  - apply (Hbatch ef_zero [1; 3; 2] 3 heap_empty 1 3 2); cbn; try reflexivity; lia.
Defined.

(** C8 (as stated) fails: the list built from 5, 10, 15, 20 with bound 20
    does not have one low bit per element and 14 upper bits. *)
Lemma sample_list_has_not_one_low_bit :
  ~ (exists ef, run (ef_build [5; 10; 15; 20] 4 20) = Some (0, ef)
                /\ ef_s ef = 1 /\ ef_bitarraylen ef = 14).
Proof.
  intros (ef & H & Hs & _). vm_compute in H. injection H as <-. discriminate Hs.
Qed.

(** C8 (amended): building the list from 5, 10, 15, 20 with bound 20
    yields [s = 2], an upper bit array of length 9 whose set bits are
    exactly at positions 1, 3, 5 and 8, the lower entries 1, 2, 3, 0, and
    [eflist_lookup] of index 1 returns 10. *)
Theorem sample_list_layout :
  run (do '(r, ef) <- ef_build [5; 10; 15; 20] 4 20;
       do bits <- upper_bits ef 9 0;
       do low <- lower_values ef 4 0;
       do v <- eflist_lookup ef 1;
       ret (r, ef_s ef, ef_bitarraylen ef, bits, low, v))
  = Some (0, 2, 9, [0; 1; 0; 1; 0; 1; 0; 0; 1], [1; 2; 3; 0], 10).
Proof. vm_compute. reflexivity. Qed.


(** ** Lists whose upper bits are spread widely

    [offsets_wide_first_block] and [offsets_wide_second_block] are inputs
    the interface accepts: 36000 strictly increasing offsets, none above
    the bound 575998 given to [eflist_init]. *)

Lemma offsets_wide_first_block_wf :
  Z.of_nat (length offsets_wide_first_block) = 36000
  /\ strictly_increasing offsets_wide_first_block = true
  /\ hd 0 offsets_wide_first_block = 8
  /\ last offsets_wide_first_block = Some 541863.
Proof. repeat split; vm_compute; reflexivity. Qed.

Lemma offsets_wide_second_block_wf :
  Z.of_nat (length offsets_wide_second_block) = 36000
  /\ strictly_increasing offsets_wide_second_block = true
  /\ hd 0 offsets_wide_second_block = 0
  /\ last offsets_wide_second_block = Some 541855.
Proof. repeat split; vm_compute; reflexivity. Qed.

(** C1 at a failing input: the list over [offsets_wide_first_block] is
    built without error, its element of index 1 is 9, and [eflist_lookup]
    of index 1 returns 1. *)
Theorem lookup_after_wide_first_block :
  offsets_wide_first_block !! 1%nat = Some 9
  /\ run (do '(r, ef) <- ef_build offsets_wide_first_block 36000 575998;
          do v <- eflist_lookup ef 1;
          ret (r, v)) = Some (0, 1).
Proof.
  split; [vm_compute; reflexivity|].
  vm_cast_no_check (@eq_refl (option (Z * Z)) (Some (0, 1))).
Qed.

(** C2 at a failing input: in the list over [offsets_wide_first_block],
    whose select structure was built without error, [select_rank] of rank 0
    returns position 0, and bit 0 of the upper array is not set (the first
    set bit is bit 1). *)
Theorem select_rank_after_wide_first_block :
  run (do '(r, ef) <- ef_build offsets_wide_first_block 36000 575998;
       do p <- select_rank 0 ef;
       do b <- bit_array_getbitk (ef_upper ef) p;
       do b1 <- bit_array_getbitk (ef_upper ef) 1;
       ret (r, ef_num_ones ef, p, b, b1)) = Some (0, 36000, 0, 0, 1).
Proof.
  vm_cast_no_check (@eq_refl (option (Z * Z * Z * Z * Z)) (Some (0, 36000, 0, 0, 1))).
Qed.

(** C3 at a failing input: in the list over [offsets_wide_second_block],
    blocks hold 2048 ones each, the block of index 1 starts at bit 2304 and
    the next one at bit 67840, a span of 65536 bits; after
    [simple_select_build] has returned 0 its inventory entry is still the
    position 2304, not a negated spill index, and no position has been
    stored in [exact_spill] (reading its first cell is undefined). *)
Theorem wide_second_block_is_not_spilled :
  run (do '(r, ef) <- ef_build offsets_wide_second_block 36000 575998;
       do i1 <- aget (ef_inventory ef) 1;
       do i2 <- aget (ef_inventory ef) 2;
       ret (r, ef_ones_per_inventory ef, i1, i2, MAX_SPAN <=? i2 - i1))
    = Some (0, 2048, 2304, 67840, true)
  /\ run (do '(_, ef) <- ef_build offsets_wide_second_block 36000 575998;
          aget (ef_exact_spill ef) 0) = None.
Proof.
  split.
  - vm_cast_no_check (@eq_refl (option (Z * Z * Z * Z * bool)) (Some (0, 2048, 2304, 67840, true))).
  - vm_cast_no_check (@eq_refl (option Z) None).
Qed.


(** ** Error strings *)

(** C9: [bvgraph_error_string] returns a string for every code, and for
    [bvgraph_unsupported_version] (22) that string is the generic
    "unknown error". *)
Theorem bvgraph_error_string_total :
  (forall code, exists s, bvgraph_error_string code = Some s)
  /\ bvgraph_error_string bvgraph_unsupported_version = Some "unknown error"%string.
Proof.
  split; [|reflexivity].
  intros code. unfold bvgraph_error_string.
  repeat match goal with
         | |- context [if ?c then _ else _] => destruct c
         end; eexists; reflexivity.
Qed.

(** ** Releasing memory *)

Lemma free_other p h u h' q :
  free p h = Some (u, h') -> q <> p -> hp_blocks h' !! q = hp_blocks h !! q.
Proof.
  unfold free. destruct (p =? 0).
  - intros H _. injection H as _ <-. reflexivity.
  - destruct (hp_blocks h !! p); [|discriminate].
    intros H Hq. injection H as _ <-. cbn. apply lookup_delete_ne. congruence.
Qed.

(** C6 at its failing inputs: whenever [bvgraph_close] returns, it returns
    0 with the cleared descriptor, and every block other than the graph
    buffer and the offsets array is left in the heap as it was, the arrays
    of the Elias-Fano index included, whatever [use_ef] was. *)
Theorem bvgraph_close_keeps_other_blocks g h r g' h' :
  bvgraph_close g h = Some (r, g', h') ->
  r = 0 /\ g' = bvgraph_zero
  /\ forall p, p <> g_memory g -> p <> g_offsets g ->
               hp_blocks h' !! p = hp_blocks h !! p.
Proof.
  unfold bvgraph_close. intros H. bind_inv H.
  cbn in H. injection H as <- <- <-.
  cbn in E1. injection E1 as _ <-.
  repeat split. intros p Hm Ho.
  transitivity (hp_blocks h0 !! p).
  - destruct (g_offsets_external g =? 0).
    + eapply free_other; eauto.
    + injection E0 as _ <-. reflexivity.
  - destruct (g_memory_external g =? 0).
    + eapply free_other; eauto.
    + injection E as _ <-. reflexivity.
Qed.

Lemma bvgraph_close_keeps_other_blocks_witness :
  exists g h g' h',
    loaded_with_ef heap_empty = Some (g, h)
    /\ g_use_ef g = 1
    /\ bvgraph_close g h = Some (0, g', h')
    /\ is_Some (hp_blocks h' !! ef_inventory (g_ef g))
    /\ is_Some (hp_blocks h' !! ef_exact_spill (g_ef g))
    /\ is_Some (hp_blocks h' !! ba_A (ef_lower (g_ef g)))
    /\ is_Some (hp_blocks h' !! ba_A (ef_upper (g_ef g))).
Proof.
  destruct (loaded_with_ef heap_empty) as [[g h]|] eqn:E;
    [|vm_compute in E; discriminate].
  destruct (bvgraph_close g h) as [[[r g'] h']|] eqn:Ec.
  - destruct (bvgraph_close_keeps_other_blocks g h r g' h' Ec) as (-> & -> & Hkeep).
    exists g, h, bvgraph_zero, h'.
    vm_compute in E. injection E as <- <-.
    split; [reflexivity|]. split; [reflexivity|]. split; [exact Ec|].
    repeat split; (rewrite Hkeep; [vm_compute; eauto| cbn; lia | cbn; lia]).
  - vm_compute in E. injection E as <- <-. vm_compute in Ec. discriminate.
Defined.

(** ** Loading *)

Section LoadFacts.
Variable max_filename : Z.
Variable parse_properties : bvgraph -> M (Z * bvgraph).
Variable fsize : string -> Z * Z.
Variable read_graph_file : string -> Z -> Z -> M (option Z).
Variable offsets_file : string -> option (Z * list Z).
Variable load_offset_online : bvgraph -> M Z.
Variable load_efcode_online : bvgraph -> M (Z * elias_fano_list).
Variable eflist_initial : elias_fano_list -> Z -> M elias_fano_list.
Variable build_last_of : bvgraph -> Z.

Local Abbreviation load_external :=
  (bvgraph_load_external max_filename parse_properties fsize read_graph_file
     offsets_file load_offset_online load_efcode_online eflist_initial build_last_of).
Local Abbreviation offsets_for_step :=
  (load_offsets_for_step offsets_file load_offset_online load_efcode_online
     eflist_initial build_last_of).
Local Abbreviation efcode_twice :=
  (build_efcode_twice offsets_file load_efcode_online eflist_initial build_last_of).
Local Abbreviation required_memory := (bvgraph_required_memory fsize build_last_of).

Lemma load_external_after_read g filename filenamelen offset_step offsets offsetssize
      h g1 h1 sz p h2 h3 :
  filenamelen <= max_filename - 1 ->
  parse_properties (fresh_descriptor filename filenamelen offset_step) h
    = Some (0, g1, h1) ->
  0 <= offset_step ->
  fsize (strappend (g_filename g1) ".graph") = (0, sz) ->
  malloc sz h1 = Some (p, h2) -> p <> 0 ->
  read_graph_file (strappend (g_filename g1) ".graph") p sz h2 = Some (Some sz, h3) ->
  load_external g filename filenamelen offset_step 0 0 offsets offsetssize h
  = (do '(_, g) <- offsets_for_step (set_memory g1 p sz 0) offset_step offsets;
     ret (0, g)) h3.
Proof.
  intros Hlen Hparse Hstep Hsize Hmalloc Hp Hread.
  unfold bvgraph_load_external.
  destruct (Z.ltb_spec (max_filename - 1) filenamelen); [lia|].
  fold (fresh_descriptor filename filenamelen offset_step).
  rewrite (bindM_eq _ _ _ _ _ Hparse). cbn [negb Z.eqb].
  destruct (Z.leb_spec 0 offset_step); [|lia].
  rewrite Hsize. cbn [negb Z.eqb andb].
  rewrite (bindM_eq _ _ h1 (set_memory g1 p sz 0) h2).
  2:{ cbn [Z.eqb negb]. rewrite (bindM_eq _ _ _ _ _ Hmalloc). reflexivity. }
  cbn [set_memory g_memory g_memory_size].
  destruct (Z.eqb_spec p 0); [contradiction|].
  rewrite (bindM_eq _ _ _ _ _ Hread). rewrite Z.eqb_refl. reflexivity.
Qed.

(** C4 at its failing inputs: once the property file and the graph file
    have been read, [bvgraph_load_external] returns 0 whatever status [b]
    the loading of the offsets or the building of the Elias-Fano index
    ended with. *)
Theorem load_external_drops_build_status
      g filename filenamelen offset_step offsets offsetssize
      h g1 h1 sz p h2 h3 b g' h' :
  filenamelen <= max_filename - 1 ->
  parse_properties (fresh_descriptor filename filenamelen offset_step) h
    = Some (0, g1, h1) ->
  0 <= offset_step ->
  fsize (strappend (g_filename g1) ".graph") = (0, sz) ->
  malloc sz h1 = Some (p, h2) -> p <> 0 ->
  read_graph_file (strappend (g_filename g1) ".graph") p sz h2 = Some (Some sz, h3) ->
  offsets_for_step (set_memory g1 p sz 0) offset_step offsets h3 = Some (b, g', h') ->
  load_external g filename filenamelen offset_step 0 0 offsets offsetssize h
  = Some (0, g', h').
Proof.
  intros Hlen Hparse Hstep Hsize Hmalloc Hp Hread Hbuild.
  rewrite (load_external_after_read g filename filenamelen offset_step offsets
             offsetssize h g1 h1 sz p h2 h3) by assumption.
  rewrite (bindM_eq _ _ _ _ _ Hbuild). reflexivity.
Qed.

(** C5 at its failing inputs: for a budget [offset_step] above 2 with
    [offset_step < 8 n <= offset_step * 2^20], loading builds the
    Elias-Fano index, while [bvgraph_required_memory] reports the dense
    array of [8 n] bytes and no Elias-Fano buffer. *)
Theorem offset_budget_units_disagree g offset_step offsets gbuf offsetbuf efbuf sz :
  2 < offset_step ->
  offset_step < 8 * g_n g ->
  8 * g_n g <= offset_step * 2 ^ 20 ->
  offset_step * 2 ^ 20 < 2 ^ 63 ->
  fsize (strappend (g_filename g) ".graph") = (0, sz) ->
  offsets_for_step g offset_step offsets
  = efcode_twice (set_offsets_external (set_use_ef (set_use_ef g 0) 1) 1)
  /\ required_memory g offset_step (Some gbuf) (Some offsetbuf) (Some efbuf)
     = Some (0, Some sz, Some (8 * g_n g), Some 0).
Proof.
  intros H2 Hlt Hle Hmax Hsize. split.
  - unfold load_offsets_for_step.
    destruct (Z.eqb_spec offset_step 1); [lia|].
    destruct (Z.eqb_spec offset_step 2); [lia|].
    destruct (Z.ltb_spec 2 offset_step); [|lia].
    rewrite sext64_small by (cbn [g_n set_use_ef]; lia).
    cbn [g_n set_use_ef].
    destruct (Z.ltb_spec offset_step (g_n g * 8)); [reflexivity|lia].
  - unfold bvgraph_required_memory.
    destruct (Z.leb_spec offset_step (-1)); [lia|].
    rewrite Hsize. cbn [negb Z.eqb put_if].
    destruct (Z.eqb_spec offset_step 1); [lia|].
    destruct (Z.eqb_spec offset_step 2); [lia|].
    destruct (Z.ltb_spec 2 offset_step); [|lia].
    change (Z.shiftl 1 20) with (2 ^ 20).
    rewrite !wrap64_small by lia.
    destruct (Z.leb_spec (8 * g_n g) (offset_step * 2 ^ 20)); [reflexivity|lia].
Qed.
End LoadFacts.

Lemma load_external_drops_build_status_witness :
  exists g' h',
    load_offsets_for_step Sample.no_offsets_file Sample.load_offset_online
      Sample.load_efcode_online Sample.eflist_initial Sample.build_last_of
      (BVGraph "g" 1 1 4 4 1 16 0 0 0 0 ef_zero 3 7 3 3) 1 0
      (Heap (<[1 := Block 16 ∅]> ∅) 2)
    = Some (1, g', h')
    /\ bvgraph_load_external Sample.max_filename Sample.parse_properties Sample.fsize
         Sample.read_graph_file Sample.no_offsets_file Sample.load_offset_online
         Sample.load_efcode_online Sample.eflist_initial Sample.build_last_of
         bvgraph_zero "g" 1 1 0 0 0 0 heap_empty
       = Some (0, g', h').
Proof.
  eexists. eexists. split.
  - vm_compute. reflexivity.
  - eapply (load_external_drops_build_status Sample.max_filename Sample.parse_properties
              Sample.fsize Sample.read_graph_file Sample.no_offsets_file
              Sample.load_offset_online Sample.load_efcode_online Sample.eflist_initial
              Sample.build_last_of bvgraph_zero "g" 1 1 0 0 heap_empty
              (BVGraph "g" 1 1 4 4 0 0 0 0 0 0 ef_zero 3 7 3 3) heap_empty 16 1
              (Heap (<[1 := Block 16 ∅]> ∅) 2) (Heap (<[1 := Block 16 ∅]> ∅) 2) 1).
    + vm_compute. discriminate.
    + reflexivity.
    + lia.
    + reflexivity.
    + reflexivity.
    + lia.
    + reflexivity.
    + vm_compute. reflexivity.
Defined.

Lemma offset_budget_units_disagree_witness :
  load_offsets_for_step Sample.no_offsets_file Sample.load_offset_online
    Sample.load_efcode_online Sample.eflist_initial Sample.build_last_of
    Sample.one_vertex 3 0
  = build_efcode_twice Sample.no_offsets_file Sample.load_efcode_online
      Sample.eflist_initial Sample.build_last_of
      (set_offsets_external (set_use_ef (set_use_ef Sample.one_vertex 0) 1) 1)
  /\ bvgraph_required_memory Sample.fsize Sample.build_last_of Sample.one_vertex 3
       (Some 0) (Some 0) (Some 0)
     = Some (0, Some 16, Some 8, Some 0).
Proof.
  apply (offset_budget_units_disagree Sample.fsize Sample.no_offsets_file
           Sample.load_offset_online Sample.load_efcode_online Sample.eflist_initial
           Sample.build_last_of Sample.one_vertex 3 0 0 0 0 16);
    cbn; try reflexivity; lia.
Defined.


(** ** Single bits *)

Lemma lsl64_one k : 0 <= k < 64 -> lsl64 1 k = 2 ^ k.
Proof.
  intros Hk. unfold lsl64. rewrite Z.shiftl_1_l. apply wrap64_small.
  split; [apply Z.pow_nonneg; lia|apply Z.pow_lt_mono_r; lia].
Qed.

Lemma land_pow2_eqb w k : 0 <= k -> (Z.land w (2 ^ k) =? 0) = negb (Z.testbit w k).
Proof.
  intros Hk. destruct (Z.testbit w k) eqn:E; cbn [negb].
  - apply Z.eqb_neq. intros H0.
    assert (Hb : Z.testbit (Z.land w (2 ^ k)) k = true).
    { rewrite Z.land_spec, E, Z.pow2_bits_true by lia. reflexivity. }
    rewrite H0, Z.bits_0 in Hb. discriminate.
  - apply Z.eqb_eq. apply Z.bits_inj'. intros i Hi.
    rewrite Z.land_spec, Z.bits_0, Z.pow2_bits_eqb by lia.
    destruct (Z.eqb_spec k i) as [->|]; [rewrite E|]; rewrite ?andb_false_r; reflexivity.
Qed.

Lemma word_index k : Z.shiftr k 6 = k / 64.
Proof. rewrite Z.shiftr_div_pow2 by lia. reflexivity. Qed.

Lemma bit_index k : Z.land k (Z.shiftl 1 6 - 1) = k mod 64.
Proof. change (Z.shiftl 1 6 - 1) with (Z.ones 6). rewrite Z.land_ones by lia. reflexivity. Qed.

Lemma bit_index_range k : 0 <= k mod 64 < 64.
Proof. apply Z.mod_pos_bound. lia. Qed.

Lemma get_bitk_of_cell A k h w :
  cell h A (k / 64) = Some w ->
  get_bitk A k h = Some (Z.b2z (Z.testbit w (k mod 64)), h).
Proof.
  intros Hw. unfold get_bitk. rewrite word_index, bit_index.
  rewrite (bindM_eq _ _ h w h) by (apply aget_of_cell; exact Hw).
  pose proof (bit_index_range k).
  rewrite lsl64_one, land_pow2_eqb by lia.
  destruct (Z.testbit w (k mod 64)); reflexivity.
Qed.

Lemma get_bitk_Some A k h b h' :
  get_bitk A k h = Some (b, h') ->
  h' = h /\ exists w, cell h A (k / 64) = Some w /\ b = Z.b2z (Z.testbit w (k mod 64)).
Proof.
  intros H. destruct (cell h A (k / 64)) as [w|] eqn:E.
  - rewrite (get_bitk_of_cell A k h w E) in H. injection H as <- <-. eauto.
  - unfold get_bitk in H. rewrite word_index in H.
    destruct (bindM_Some _ _ _ _ H) as (x & h1 & Hx & _).
    apply aget_Some in Hx as [Hx _]. congruence.
Qed.

Lemma get_bitk_ubit A k h b h' :
  get_bitk A k h = Some (b, h') -> h' = h /\ b = Z.b2z (ubit h A k).
Proof.
  intros H. apply get_bitk_Some in H as (-> & w & Hw & ->).
  unfold ubit. rewrite Hw. auto.
Qed.

Lemma div_mod_64_eq j k : j / 64 = k / 64 -> j mod 64 = k mod 64 -> j = k.
Proof.
  intros Hd Hm. rewrite (Z.div_mod j 64), (Z.div_mod k 64) by lia. congruence.
Qed.

(** After [bit_array_setbit] of bit [k] has returned, [bit_array_getbitk]
    reads 1 at [k] and reads at every other position what it read
    before. *)
Theorem setbit_then_getbitk ptr k h r h' :
  bit_array_setbit ptr k h = Some (r, h') ->
  r = 0
  /\ bit_array_getbitk ptr k h' = Some (1, h')
  /\ forall j b, j <> k -> bit_array_getbitk ptr j h = Some (b, h) ->
                 bit_array_getbitk ptr j h' = Some (b, h').
Proof.
  unfold bit_array_setbit, bit_array_getbitk. intros H.
  apply bindM_Some in H as ([] & h0 & Hassert & H).
  unfold c_assert in Hassert. destruct (ba_s ptr <? 0); [|discriminate].
  injection Hassert as <-.
  rewrite word_index, bit_index in H.
  apply bindM_Some in H as (w & h0 & Hw & H). apply aget_Some in Hw as [Hw ->].
  apply bindM_Some in H as ([] & h1 & Hset & H). apply retM_Some in H as [<- <-].
  pose proof (bit_index_range k) as Hr.
  rewrite lsl64_one in Hset by lia.
  split; [reflexivity|]. split.
  - cbn. rewrite (get_bitk_of_cell _ k h1 _ (aset_cell_same _ _ _ _ _ _ Hset)).
    rewrite Z.lor_spec, Z.pow2_bits_true, orb_true_r by lia. reflexivity.
  - intros j b Hj Hb. cbn in *.
    apply get_bitk_Some in Hb as (_ & wj & Hwj & ->).
    destruct (Z.eq_dec (j / 64) (k / 64)) as [Hd|Hd].
    + rewrite Hd in Hwj. rewrite Hw in Hwj. injection Hwj as <-.
      rewrite (get_bitk_of_cell _ j h1 (Z.lor w (2 ^ (k mod 64)))).
      2:{ rewrite Hd. eapply aset_cell_same; eauto. }
      rewrite Z.lor_spec, Z.pow2_bits_eqb by lia.
      destruct (Z.eqb_spec (k mod 64) (j mod 64)) as [Hm|Hm].
      * exfalso. apply Hj. apply div_mod_64_eq; congruence.
      * rewrite orb_false_r. reflexivity.
    + rewrite (get_bitk_of_cell _ j h1 wj); [reflexivity|].
      rewrite (aset_cell_other _ _ _ _ _ _ _ _ Hset); auto.
Qed.

Lemma setbit_then_getbitk_witness :
  exists ptr h h',
    bit_array_setbit ptr 70 h = Some (0, h')
    /\ bit_array_getbitk ptr 70 h' = Some (1, h').
Proof.
  destruct (fresh_bits heap_empty) as [[ptr h]|] eqn:E; [|vm_compute in E; discriminate].
  destruct (bit_array_setbit ptr 70 h) as [[r h']|] eqn:E2.
  - destruct (setbit_then_getbitk ptr 70 h r h' E2) as (-> & Hg & _).
    exists ptr, h, h'. auto.
  - vm_compute in E. injection E as <- <-. vm_compute in E2. discriminate.
Defined.


(** ** Packed elements *)

Lemma testbit_pow2_diff a b i :
  0 <= b <= a -> 0 <= i ->
  Z.testbit (2 ^ a - 2 ^ b) i = (b <=? i) && (i <? a).
Proof.
  intros Hab Hi.
  replace (2 ^ a - 2 ^ b) with (Z.shiftl (Z.ones (a - b)) b).
  2:{ rewrite Z.shiftl_mul_pow2, Z.ones_equiv by lia.
      replace a with ((a - b) + b) at 2 by lia. rewrite Z.pow_add_r by lia. lia. }
  rewrite Z.shiftl_spec by lia.
  destruct (Z.leb_spec b i), (Z.ltb_spec i a); cbn [andb].
  - apply Z.ones_spec_low. lia.
  - apply Z.ones_spec_high. lia.
  - apply Z.testbit_neg_r. lia.
  - apply Z.testbit_neg_r. lia.
Qed.

Lemma testbit_small w n i : 0 <= w < 2 ^ n -> 0 <= n <= i -> Z.testbit w i = false.
Proof. intros Hw Hn. apply (testbit_high n); lia. Qed.

Lemma lsl64_testbit x n i :
  0 <= n -> 0 <= i -> Z.testbit (lsl64 x n) i = (i <? 64) && Z.testbit x (i - n).
Proof.
  intros Hn Hi. unfold lsl64. rewrite wrap64_testbit by lia.
  destruct (Z.ltb_spec i 64); cbn [andb]; [|reflexivity].
  destruct (Z.le_gt_cases n i).
  - apply Z.shiftl_spec. lia.
  - rewrite Z.shiftl_spec_low by lia. symmetry. apply Z.testbit_neg_r. lia.
Qed.

Lemma lsl64_one_mask n : 0 < n <= 64 -> wrap64 (lsl64 1 n - 1) = 2 ^ n - 1.
Proof.
  intros Hn. destruct (Z.eq_dec n 64) as [->|Hne].
  - reflexivity.
  - rewrite lsl64_one by lia. apply wrap64_small.
    assert (2 ^ n < 2 ^ 64) by (apply Z.pow_lt_mono_r; lia).
    assert (0 < 2 ^ n) by (apply Z.pow_pos_nonneg; lia). lia.
Qed.

(** Where element [k] of width [s] lies. *)
Lemma slot_position k s :
  0 <= k -> 0 < s ->
  Z.quot (k * s) 64 = k * s / 64 /\ Z.rem (k * s) 64 = (k * s) mod 64
  /\ 0 <= (k * s) mod 64 < 64 /\ k * s = 64 * (k * s / 64) + (k * s) mod 64.
Proof.
  intros Hk Hs. assert (0 <= k * s) by nia.
  split; [apply Z.quot_div_nonneg; lia|].
  split; [apply Z.rem_mod_nonneg; lia|].
  split; [apply Z.mod_pos_bound; lia|apply Z.div_mod; lia].
Qed.

Lemma sbit_in_word h p j o w :
  cell h p j = Some w -> 0 <= o < 64 -> sbit h p (64 * j + o) = Z.testbit w (63 - o).
Proof.
  intros Hw Ho. unfold sbit.
  replace ((64 * j + o) / 64) with j.
  2:{ symmetry. rewrite Z.mul_comm, Z.div_add_l by lia. rewrite Z.div_small by lia. lia. }
  replace ((64 * j + o) mod 64) with o.
  2:{ symmetry. rewrite Z.add_comm, Z.mul_comm, Z.mod_add by lia. apply Z.mod_small. lia. }
  rewrite Hw. reflexivity.
Qed.

Lemma lt_pow2_of_bits v n :
  0 <= n -> 0 <= v -> (forall t, n <= t -> Z.testbit v t = false) -> v < 2 ^ n.
Proof.
  intros Hn Hv Hbits.
  assert (E : v = v mod 2 ^ n).
  { apply Z.bits_inj'. intros t Ht. destruct (Z.lt_ge_cases t n).
    - rewrite Z.mod_pow2_bits_low by lia. reflexivity.
    - rewrite Z.mod_pow2_bits_high by lia. apply Hbits. lia. }
  rewrite E. apply Z.mod_pos_bound. apply Z.pow_pos_nonneg; lia.
Qed.

(** [bit_array_get] returns the number whose binary digits are the [s]
    bits of element [k], most significant first. *)
Lemma bit_array_get_bits ptr k h v h' :
  0 < ba_s ptr < 64 -> 0 <= k ->
  bit_array_get ptr k h = Some (v, h') ->
  h' = h /\ 0 <= v < 2 ^ ba_s ptr
  /\ forall t, 0 <= t < ba_s ptr ->
               Z.testbit v t = sbit h (ba_A ptr) (k * ba_s ptr + (ba_s ptr - 1 - t)).
Proof.
  intros Hs Hk. unfold bit_array_get.
  destruct (Z.eqb_spec (ba_s ptr) 0) as [E|_]; [lia|].
  destruct (slot_position k (ba_s ptr) Hk ltac:(lia)) as (-> & -> & Ho & Hpos).
  set (s := ba_s ptr) in *. set (A := ba_A ptr).
  set (index := k * s / 64) in *. set (offset := (k * s) mod 64) in *.
  destruct (Z.leb_spec (offset + s) 64) as [Hfit|Hspan].
  - intros H. apply bindM_Some in H as (w & h0 & Hw & H).
    apply aget_Some in Hw as [Hw ->]. apply retM_Some in H as [<- <-].
    rewrite lsl64_one_mask by lia.
    rewrite lsl64_one by lia.
    assert (Hp : 2 ^ (64 - offset - s) < 2 ^ (64 - offset) <= 2 ^ 64).
    { split; [apply Z.pow_lt_mono_r; lia|apply Z.pow_le_mono_r; lia]. }
    assert (0 < 2 ^ (64 - offset - s)) by (apply Z.pow_pos_nonneg; lia).
    rewrite wrap64_small by lia.
    replace (2 ^ (64 - offset) - 1 - (2 ^ (64 - offset - s) - 1))
      with (2 ^ (64 - offset) - 2 ^ (64 - offset - s)) by lia.
    set (v := Z.shiftr (Z.land w (2 ^ (64 - offset) - 2 ^ (64 - offset - s)))
                (64 - offset - s)).
    assert (Hbits : forall t, 0 <= t ->
              Z.testbit v t = Z.testbit w (t + (64 - offset - s)) && (t <? s)).
    { intros t Ht. unfold v.
      rewrite Z.shiftr_spec, Z.land_spec, testbit_pow2_diff by lia.
      destruct (Z.leb_spec (64 - offset - s) (t + (64 - offset - s))); [|lia].
      cbn [andb]. f_equal.
      destruct (Z.ltb_spec (t + (64 - offset - s)) (64 - offset)), (Z.ltb_spec t s);
        try reflexivity; lia. }
    split; [reflexivity|]. split.
    + split.
      * apply Z.shiftr_nonneg, Z.land_nonneg. right. lia.
      * apply lt_pow2_of_bits; [lia| |].
        -- apply Z.shiftr_nonneg, Z.land_nonneg. right. lia.
        -- intros t Ht. rewrite Hbits by lia.
           destruct (Z.ltb_spec t s); [lia|]. apply andb_false_r.
    + intros t Ht. rewrite Hbits by lia.
      destruct (Z.ltb_spec t s); [|lia]. rewrite andb_true_r.
      replace (k * s + (s - 1 - t)) with (64 * index + (offset + s - 1 - t)) by lia.
      rewrite (sbit_in_word _ _ _ _ w Hw) by lia. f_equal. lia.
  - set (diff := offset + s - 64).
    intros H. apply bindM_Some in H as (w0 & h0 & Hw0 & H).
    apply aget_Some in Hw0 as [Hw0 ->].
    apply bindM_Some in H as (w1 & h0 & Hw1 & H).
    apply aget_Some in Hw1 as [Hw1 ->]. apply retM_Some in H as [<- <-].
    rewrite lsl64_one_mask by lia.
    rewrite (lsl64_one (64 - diff)) by lia.
    assert (Hp : 0 < 2 ^ (64 - diff) < 2 ^ 64).
    { split; [apply Z.pow_pos_nonneg; lia|apply Z.pow_lt_mono_r; lia]. }
    rewrite wrap64_small by lia.
    replace (18446744073709551615 - (2 ^ (64 - diff) - 1))
      with (2 ^ 64 - 2 ^ (64 - diff)) by lia.
    replace (2 ^ (s - diff) - 1) with (Z.ones (s - diff)) by (rewrite Z.ones_equiv; lia).
    set (rval := Z.land w0 (Z.ones (s - diff))).
    set (next := Z.shiftr (Z.land w1 (2 ^ 64 - 2 ^ (64 - diff))) (64 - diff)).
    assert (Hrval : forall t, 0 <= t -> Z.testbit rval t = Z.testbit w0 t && (t <? s - diff)).
    { intros t Ht. unfold rval. rewrite Z.land_spec. f_equal.
      destruct (Z.ltb_spec t (s - diff)).
      - apply Z.ones_spec_low. lia.
      - apply Z.ones_spec_high. lia. }
    assert (Hnext : forall t, 0 <= t ->
               Z.testbit next t = Z.testbit w1 (t + (64 - diff)) && (t <? diff)).
    { intros t Ht. unfold next.
      rewrite Z.shiftr_spec, Z.land_spec, testbit_pow2_diff by lia.
      destruct (Z.leb_spec (64 - diff) (t + (64 - diff))); [|lia].
      cbn [andb]. f_equal.
      destruct (Z.ltb_spec (t + (64 - diff)) 64), (Z.ltb_spec t diff);
        try reflexivity; lia. }
    assert (Hv : forall t, 0 <= t ->
               Z.testbit (Z.lor (lsl64 rval diff) next) t
               = if t <? diff then Z.testbit w1 (t + (64 - diff))
                 else Z.testbit w0 (t - diff) && (t <? s)).
    { intros t Ht. rewrite Z.lor_spec, lsl64_testbit, Hnext by lia.
      destruct (Z.ltb_spec t diff).
      - rewrite (Z.testbit_neg_r rval) by lia.
        rewrite andb_false_r, andb_true_r. reflexivity.
      - rewrite andb_false_r, orb_false_r, Hrval by lia.
        destruct (Z.ltb_spec t 64), (Z.ltb_spec (t - diff) (s - diff)), (Z.ltb_spec t s);
          cbn [andb]; rewrite ?andb_true_r, ?andb_false_r; try reflexivity; lia. }
    assert (Hnn : 0 <= Z.lor (lsl64 rval diff) next).
    { apply Z.lor_nonneg. split.
      - unfold lsl64. apply wrap64_range.
      - apply Z.shiftr_nonneg, Z.land_nonneg. right. lia. }
    split; [reflexivity|]. split.
    + split; [exact Hnn|].
      apply lt_pow2_of_bits; [lia|exact Hnn|].
      intros t Ht. rewrite Hv by lia.
      destruct (Z.ltb_spec t diff); [lia|].
      destruct (Z.ltb_spec t s); [lia|]. apply andb_false_r.
    + intros t Ht. rewrite Hv by lia.
      destruct (Z.ltb_spec t diff).
      * replace (k * s + (s - 1 - t)) with (64 * (index + 1) + (diff - 1 - t))
          by (unfold diff; lia).
        rewrite (sbit_in_word _ _ _ _ w1 Hw1) by lia. f_equal. lia.
      * destruct (Z.ltb_spec t s); [|lia]. rewrite andb_true_r.
        replace (k * s + (s - 1 - t)) with (64 * index + (offset + s - 1 - t)) by lia.
        rewrite (sbit_in_word _ _ _ _ w0 Hw0) by (unfold diff in *; lia).
        f_equal. unfold diff. lia.
Qed.

Lemma aset_cell_is_Some p k v h u h' q j :
  aset p k v h = Some (u, h') -> is_Some (cell h q j) -> is_Some (cell h' q j).
Proof.
  intros Hset Hc. destruct (Z.eq_dec q p) as [->|Hq].
  - destruct (Z.eq_dec j k) as [->|Hj].
    + rewrite (aset_cell_same _ _ _ _ _ _ Hset). eauto.
    + rewrite (aset_cell_other _ _ _ _ _ _ _ _ Hset); auto.
  - rewrite (aset_cell_other _ _ _ _ _ _ _ _ Hset); auto.
Qed.

(** [bit_array_get] is defined exactly when the words it reads are. *)
Lemma bit_array_get_defined ptr k h :
  0 < ba_s ptr < 64 -> 0 <= k ->
  (is_Some (bit_array_get ptr k h)
   <-> is_Some (cell h (ba_A ptr) (k * ba_s ptr / 64))
       /\ (64 < (k * ba_s ptr) mod 64 + ba_s ptr ->
           is_Some (cell h (ba_A ptr) (k * ba_s ptr / 64 + 1)))).
Proof.
  intros Hs Hk. unfold bit_array_get.
  destruct (Z.eqb_spec (ba_s ptr) 0) as [E|_]; [lia|].
  destruct (slot_position k (ba_s ptr) Hk ltac:(lia)) as (-> & -> & Ho & Hpos).
  destruct (Z.leb_spec ((k * ba_s ptr) mod 64 + ba_s ptr) 64) as [Hfit|Hspan].
  - unfold bind. rewrite aget_cell.
    destruct (cell h (ba_A ptr) (k * ba_s ptr / 64)) as [w|]; cbn.
    + split; [intros _; split; [eauto|lia]|intros _; eauto].
    + split; [intros [? ?]; discriminate|intros [[? ?] _]; discriminate].
  - unfold bind. rewrite !aget_cell.
    destruct (cell h (ba_A ptr) (k * ba_s ptr / 64)) as [w|]; cbn.
    + rewrite aget_cell.
      destruct (cell h (ba_A ptr) (k * ba_s ptr / 64 + 1)) as [w'|]; cbn.
      * split; [intros _; split; eauto|intros _; eauto].
      * split; [intros [? ?]; discriminate|intros [_ Hn]; destruct (Hn Hspan); discriminate].
    + split; [intros [? ?]; discriminate|intros [[? ?] _]; discriminate].
Qed.

Lemma lor_range a b n : 0 <= n -> 0 <= a < 2 ^ n -> 0 <= b < 2 ^ n -> 0 <= Z.lor a b < 2 ^ n.
Proof.
  intros Hn Ha Hb. assert (0 <= Z.lor a b) by (apply Z.lor_nonneg; lia).
  split; [assumption|]. apply lt_pow2_of_bits; try lia.
  intros t Ht. rewrite Z.lor_spec, (testbit_small a n), (testbit_small b n) by lia.
  reflexivity.
Qed.

(** [bit_array_insert] ORs the binary digits of [num] into the [s] bits of
    element [k] and changes nothing else. *)
Lemma bit_array_insert_bits ptr num k h r h' :
  0 < ba_s ptr < 64 -> 0 <= k -> 0 <= num < 2 ^ ba_s ptr ->
  bit_array_insert ptr num k h = Some (r, h') ->
  r = 0
  /\ (forall i, 0 <= i ->
        sbit h' (ba_A ptr) i
        = sbit h (ba_A ptr) i || Z.testbit num (ba_s ptr - 1 - (i - k * ba_s ptr)))
  /\ (forall q j, is_Some (cell h q j) -> is_Some (cell h' q j))
  /\ (forall q j, q <> ba_A ptr -> cell h' q j = cell h q j).
Proof.
  intros Hs Hk Hnum. unfold bit_array_insert.
  destruct (Z.eqb_spec (ba_s ptr) 0) as [E|_]; [lia|].
  destruct (slot_position k (ba_s ptr) Hk ltac:(lia)) as (-> & -> & Ho & Hpos).
  set (s := ba_s ptr) in *. set (A := ba_A ptr).
  set (index := k * s / 64) in *. set (offset := (k * s) mod 64) in *.
  assert (Hhigh : forall t, s <= t -> Z.testbit num t = false).
  { intros t Ht. apply (testbit_small num s); lia. }
  intros H. apply bindM_Some in H as ([] & h0 & Hassert & H).
  unfold c_assert in Hassert. destruct (0 <? s); [|discriminate].
  injection Hassert as <-.
  destruct (Z.leb_spec (offset + s) 64) as [Hfit|Hspan].
  - apply bindM_Some in H as (w & h0 & Hw & H). apply aget_Some in Hw as [Hw ->].
    apply bindM_Some in H as ([] & h1 & Hset & H). apply retM_Some in H as [<- <-].
    split; [reflexivity|]. split; [|split].
    + intros i Hi.
      pose proof (Z.div_mod i 64 ltac:(lia)) as Hdm.
      pose proof (Z.mod_pos_bound i 64 ltac:(lia)) as Hm.
      destruct (Z.eq_dec (i / 64) index) as [Hj|Hj].
      * rewrite Hdm, Hj.
        rewrite (sbit_in_word _ _ _ _ _ (aset_cell_same _ _ _ _ _ _ Hset)) by lia.
        rewrite (sbit_in_word _ _ _ _ w Hw) by lia.
        rewrite Z.lor_spec, lsl64_testbit by lia.
        destruct (Z.ltb_spec (63 - i mod 64) 64); [|lia]. cbn [andb].
        do 2 f_equal. lia.
      * unfold sbit. rewrite (aset_cell_other _ _ _ _ _ _ A (i / 64) Hset) by auto.
        assert (Hf : Z.testbit num (s - 1 - (i - k * s)) = false).
        { destruct (Z.lt_ge_cases (i / 64) index).
          - apply Hhigh. lia.
          - apply Z.testbit_neg_r. lia. }
        rewrite Hf, orb_false_r. reflexivity.
    + intros q j. apply (aset_cell_is_Some _ _ _ _ _ _ _ _ Hset).
    + intros q j Hq. apply (aset_cell_other _ _ _ _ _ _ _ _ Hset). auto.
  - set (diff := offset + s - 64) in *.
    apply bindM_Some in H as (w0 & h0 & Hw0 & H). apply aget_Some in Hw0 as [Hw0 ->].
    apply bindM_Some in H as ([] & h1 & Hset0 & H).
    apply bindM_Some in H as (w1 & h0 & Hw1 & H). apply aget_Some in Hw1 as [Hw1 ->].
    apply bindM_Some in H as ([] & h2 & Hset1 & H). apply retM_Some in H as [<- <-].
    assert (Hw1' : cell h A (index + 1) = Some w1).
    { rewrite <- Hw1. symmetry. apply (aset_cell_other _ _ _ _ _ _ _ _ Hset0). right. lia. }
    split; [reflexivity|]. split; [|split].
    + intros i Hi.
      pose proof (Z.div_mod i 64 ltac:(lia)) as Hdm.
      pose proof (Z.mod_pos_bound i 64 ltac:(lia)) as Hm.
      destruct (Z.eq_dec (i / 64) index) as [Hj|Hj];
        [|destruct (Z.eq_dec (i / 64) (index + 1)) as [Hj1|Hj1]].
      * rewrite Hdm, Hj.
        assert (Hc : cell h2 A index = Some (Z.lor w0 (Z.shiftr num diff))).
        { rewrite (aset_cell_other _ _ _ _ _ _ A index Hset1) by (right; lia).
          apply (aset_cell_same _ _ _ _ _ _ Hset0). }
        rewrite (sbit_in_word _ _ _ _ _ Hc) by lia.
        rewrite (sbit_in_word _ _ _ _ w0 Hw0) by lia.
        rewrite Z.lor_spec, Z.shiftr_spec by lia.
        do 2 f_equal. unfold diff. lia.
      * rewrite Hdm, Hj1.
        rewrite (sbit_in_word _ _ _ _ _ (aset_cell_same _ _ _ _ _ _ Hset1)) by lia.
        rewrite (sbit_in_word _ _ _ _ w1 Hw1') by lia.
        rewrite Z.lor_spec, lsl64_testbit by (unfold diff; lia).
        destruct (Z.ltb_spec (63 - i mod 64) 64); [|lia]. cbn [andb].
        do 2 f_equal. unfold diff. lia.
      * unfold sbit.
        rewrite (aset_cell_other _ _ _ _ _ _ A (i / 64) Hset1) by auto.
        rewrite (aset_cell_other _ _ _ _ _ _ A (i / 64) Hset0) by auto.
        assert (Hf : Z.testbit num (s - 1 - (i - k * s)) = false).
        { destruct (Z.lt_ge_cases (i / 64) index).
          - apply Hhigh. lia.
          - apply Z.testbit_neg_r. unfold diff in *. lia. }
        rewrite Hf, orb_false_r. reflexivity.
    + intros q j Hc. apply (aset_cell_is_Some _ _ _ _ _ _ _ _ Hset1).
      apply (aset_cell_is_Some _ _ _ _ _ _ _ _ Hset0). exact Hc.
    + intros q j Hq.
      rewrite (aset_cell_other _ _ _ _ _ _ _ _ Hset1) by auto.
      apply (aset_cell_other _ _ _ _ _ _ _ _ Hset0). auto.
Qed.

Lemma bit_array_get_after ptr num k j h r h' v :
  0 < ba_s ptr < 64 -> 0 <= k -> 0 <= j -> 0 <= num < 2 ^ ba_s ptr ->
  bit_array_insert ptr num k h = Some (r, h') ->
  bit_array_get ptr j h = Some (v, h) ->
  exists v', bit_array_get ptr j h' = Some (v', h')
             /\ 0 <= v' < 2 ^ ba_s ptr
             /\ forall t, 0 <= t < ba_s ptr ->
                  Z.testbit v' t
                  = Z.testbit v t || Z.testbit num (t - (j - k) * ba_s ptr).
Proof.
  intros Hs Hk Hj Hnum Hins Hget.
  destruct (bit_array_insert_bits ptr num k h r h' Hs Hk Hnum Hins)
    as (_ & Hbits & Hdef & _).
  assert (Hsome : is_Some (bit_array_get ptr j h')).
  { apply bit_array_get_defined; try assumption.
    assert (Hd : is_Some (bit_array_get ptr j h)) by (rewrite Hget; eauto).
    apply bit_array_get_defined in Hd as [Hd0 Hd1]; try assumption.
    split; [apply Hdef; exact Hd0|intros Hsp; apply Hdef; auto]. }
  destruct Hsome as [[v' h1] Hget'].
  destruct (bit_array_get_bits ptr j h' v' h1 Hs Hj Hget') as (-> & Hr' & Hb').
  destruct (bit_array_get_bits ptr j h v h Hs Hj Hget) as (_ & Hr & Hb).
  exists v'. split; [exact Hget'|]. split; [exact Hr'|].
  intros t Ht. rewrite Hb', Hbits, Hb by nia. do 2 f_equal. lia.
Qed.

(** After [bit_array_insert] of [num] at index [k] has returned,
    [bit_array_get] at [k] yields the bitwise OR of [num] with what it
    yielded before; on an element that still read 0 it yields [num]. *)
Theorem insert_then_get ptr num k h r h' old :
  0 < ba_s ptr < 64 -> 0 <= k -> 0 <= num < 2 ^ ba_s ptr ->
  bit_array_get ptr k h = Some (old, h) ->
  bit_array_insert ptr num k h = Some (r, h') ->
  r = 0 /\ bit_array_get ptr k h' = Some (Z.lor old num, h').
Proof.
  intros Hs Hk Hnum Hget Hins.
  destruct (bit_array_insert_bits ptr num k h r h' Hs Hk Hnum Hins) as (-> & _).
  split; [reflexivity|].
  destruct (bit_array_get_after ptr num k k h 0 h' old Hs Hk Hk Hnum Hins Hget)
    as (v' & Hget' & Hr' & Hb').
  destruct (bit_array_get_bits ptr k h old h Hs Hk Hget) as (_ & Hr & _).
  rewrite Hget'. do 2 f_equal. apply Z.bits_inj'. intros t Ht.
  rewrite Z.lor_spec. destruct (Z.lt_ge_cases t (ba_s ptr)).
  - rewrite Hb' by lia. do 2 f_equal. lia.
  - rewrite (testbit_small v' (ba_s ptr)), (testbit_small old (ba_s ptr)),
      (testbit_small num (ba_s ptr)) by lia. reflexivity.
Qed.

(** [bit_array_insert] at index [k] leaves the element at every other
    index [j] as [bit_array_get] read it before. *)
Theorem insert_keeps_other_elements ptr num k j h r h' v :
  0 < ba_s ptr < 64 -> 0 <= k -> 0 <= j -> j <> k -> 0 <= num < 2 ^ ba_s ptr ->
  bit_array_insert ptr num k h = Some (r, h') ->
  bit_array_get ptr j h = Some (v, h) ->
  bit_array_get ptr j h' = Some (v, h').
Proof.
  intros Hs Hk Hj Hjk Hnum Hins Hget.
  destruct (bit_array_get_after ptr num k j h r h' v Hs Hk Hj Hnum Hins Hget)
    as (v' & Hget' & Hr' & Hb').
  destruct (bit_array_get_bits ptr j h v h Hs Hj Hget) as (_ & Hr & _).
  rewrite Hget'. do 2 f_equal. apply Z.bits_inj'. intros t Ht.
  destruct (Z.lt_ge_cases t (ba_s ptr)).
  - rewrite Hb' by lia.
    assert (Hf : Z.testbit num (t - (j - k) * ba_s ptr) = false).
    { destruct (Z.lt_ge_cases j k).
      - apply (testbit_small num (ba_s ptr)); [lia|]. nia.
      - apply Z.testbit_neg_r. nia. }
    rewrite Hf. apply orb_false_r.
  - rewrite (testbit_small v' (ba_s ptr)), (testbit_small v (ba_s ptr)) by lia.
    reflexivity.
Qed.

Lemma insert_then_get_witness :
  exists ptr h h',
    bit_array_get ptr 21 h = Some (0, h)
    /\ bit_array_insert ptr 5 21 h = Some (0, h')
    /\ bit_array_get ptr 21 h' = Some (5, h').
Proof.
  destruct (fresh_packed heap_empty) as [[ptr h]|] eqn:E; [|vm_compute in E; discriminate].
  destruct (bit_array_insert ptr 5 21 h) as [[r h']|] eqn:E2.
  - assert (Hs : 0 < ba_s ptr < 64) by (vm_compute in E; injection E as <- _; cbn; lia).
    assert (Hn : 0 <= 5 < 2 ^ ba_s ptr) by (vm_compute in E; injection E as <- _; cbn; lia).
    assert (Hg : bit_array_get ptr 21 h = Some (0, h))
      by (vm_compute in E; injection E as <- <-; vm_compute; reflexivity).
    destruct (insert_then_get ptr 5 21 h r h' 0 Hs ltac:(lia) Hn Hg E2) as (-> & Hg').
    exists ptr, h, h'. auto.
  - vm_compute in E. injection E as <- <-. vm_compute in E2. discriminate.
Defined.

Lemma insert_keeps_other_elements_witness :
  exists ptr h h',
    bit_array_insert ptr 5 21 h = Some (0, h')
    /\ bit_array_get ptr 22 h = Some (0, h)
    /\ bit_array_get ptr 22 h' = Some (0, h').
Proof.
  destruct (fresh_packed heap_empty) as [[ptr h]|] eqn:E; [|vm_compute in E; discriminate].
  destruct (bit_array_insert ptr 5 21 h) as [[r h']|] eqn:E2.
  - assert (Hs : 0 < ba_s ptr < 64) by (vm_compute in E; injection E as <- _; cbn; lia).
    assert (Hn : 0 <= 5 < 2 ^ ba_s ptr) by (vm_compute in E; injection E as <- _; cbn; lia).
    assert (Hg : bit_array_get ptr 22 h = Some (0, h))
      by (vm_compute in E; injection E as <- <-; vm_compute; reflexivity).
    pose proof (insert_keeps_other_elements ptr 5 21 22 h r h' 0 Hs ltac:(lia) ltac:(lia)
                  ltac:(lia) Hn E2 Hg) as Hg'.
    assert (r = 0) as ->
      by (vm_compute in E; injection E as <- <-; vm_compute in E2; injection E2 as <- _;
          reflexivity).
    exists ptr, h, h'. auto.
  - vm_compute in E. injection E as <- <-. vm_compute in E2. discriminate.
Defined.


(** ** Selecting the one of a given rank *)

Lemma count_bits_snoc n x : count_bits (S n) x = count_bits n x + Z.b2z (Z.testbit x (Z.of_nat n)).
Proof.
  replace (S n) with (n + 1)%nat by lia. rewrite count_bits_app. cbn [count_bits].
  rewrite <- Z.bit0_odd, Z.shiftr_spec, Z.add_0_l by lia. lia.
Qed.

Lemma ubit_in_word h p j o w :
  cell h p j = Some w -> 0 <= o < 64 -> ubit h p (64 * j + o) = Z.testbit w o.
Proof.
  intros Hw Ho. unfold ubit.
  replace ((64 * j + o) / 64) with j.
  2:{ symmetry. rewrite Z.mul_comm, Z.div_add_l by lia. rewrite Z.div_small by lia. lia. }
  replace ((64 * j + o) mod 64) with o.
  2:{ symmetry. rewrite Z.add_comm, Z.mul_comm, Z.mod_add by lia. apply Z.mod_small. lia. }
  rewrite Hw. reflexivity.
Qed.

Lemma rank1_succ h p i : 0 <= i -> rank1 h p (i + 1) = rank1 h p i + Z.b2z (ubit h p i).
Proof.
  intros Hi. unfold rank1. replace (Z.to_nat (i + 1)) with (S (Z.to_nat i)) by lia.
  cbn [ones_upto]. rewrite Z2Nat.id by lia. reflexivity.
Qed.

Lemma rank1_mono h p i j : 0 <= i <= j -> rank1 h p i <= rank1 h p j.
Proof.
  intros Hij. replace j with (i + Z.of_nat (Z.to_nat (j - i))) by lia.
  induction (Z.to_nat (j - i)) as [|m IH].
  - replace (i + Z.of_nat 0) with i by lia. lia.
  - replace (i + Z.of_nat (S m)) with (i + Z.of_nat m + 1) by lia.
    rewrite rank1_succ by lia. destruct (ubit h p (i + Z.of_nat m)); cbn [Z.b2z]; lia.
Qed.

Lemma rank1_word h p j k w :
  cell h p j = Some w -> 0 <= j -> 0 <= k <= 64 ->
  rank1 h p (64 * j + k) = rank1 h p (64 * j) + count_bits (Z.to_nat k) w.
Proof.
  intros Hw Hj Hk. replace k with (Z.of_nat (Z.to_nat k)) at 1 by lia.
  assert (Hn : (Z.to_nat k <= 64)%nat) by lia. revert Hn.
  induction (Z.to_nat k) as [|m IH]; intros Hn.
  - cbn [count_bits Z.of_nat]. rewrite Z.add_0_r. lia.
  - replace (64 * j + Z.of_nat (S m)) with (64 * j + Z.of_nat m + 1) by lia.
    rewrite rank1_succ by lia. rewrite IH by lia.
    rewrite (ubit_in_word _ _ _ _ w Hw) by lia. rewrite count_bits_snoc. lia.
Qed.

Lemma scan_word_spec n w k sr :
  0 <= k -> k + Z.of_nat n <= 64 -> 0 < sr ->
  match scan_word n w k sr with
  | inl j => k <= j < k + Z.of_nat n /\ Z.testbit w j = true
             /\ count_bits (Z.to_nat (j - k)) (Z.shiftr w k) = sr - 1
  | inr sr' => sr' = sr - count_bits n (Z.shiftr w k) /\ 0 < sr'
  end.
Proof.
  revert k sr. induction n as [|n IH]; intros k sr Hk Hn Hsr.
  - cbn. lia.
  - cbn [scan_word]. rewrite lsl64_one, land_pow2_eqb, negb_involutive by lia.
    assert (Hcb : forall m, count_bits (S m) (Z.shiftr w k)
                  = Z.b2z (Z.testbit w k) + count_bits m (Z.shiftr w (k + 1))).
    { intros m. cbn [count_bits].
      rewrite <- Z.bit0_odd, Z.shiftr_spec, Z.add_0_l by lia.
      rewrite Z.div2_spec, Z.shiftr_shiftr by lia. reflexivity. }
    destruct (Z.eqb_spec sr 0) as [|_]; [lia|]. cbn [negb]. rewrite andb_true_r.
    destruct (Z.testbit w k) eqn:Eb.
    + destruct (Z.eqb_spec (sr - 1) 0) as [E1|E1].
      * replace (Z.to_nat (k - k)) with 0%nat by lia. cbn [count_bits].
        repeat split; try assumption; lia.
      * specialize (IH (k + 1) (sr - 1) ltac:(lia) ltac:(lia) ltac:(lia)).
        destruct (scan_word n w (k + 1) (sr - 1)) as [j|sr'].
        -- destruct IH as (Hj & Hbit & Hc). split; [lia|]. split; [exact Hbit|].
           replace (Z.to_nat (j - k)) with (S (Z.to_nat (j - (k + 1)))) by lia.
           rewrite Hcb, Hc. cbn [Z.b2z]. lia.
        -- destruct IH as (-> & Hpos). rewrite Hcb. cbn [Z.b2z]. lia.
    + destruct (Z.eqb_spec sr 0) as [|_]; [lia|].
      specialize (IH (k + 1) sr ltac:(lia) ltac:(lia) ltac:(lia)).
      destruct (scan_word n w (k + 1) sr) as [j|sr'].
      * destruct IH as (Hj & Hbit & Hc). split; [lia|]. split; [exact Hbit|].
        replace (Z.to_nat (j - k)) with (S (Z.to_nat (j - (k + 1)))) by lia.
        rewrite Hcb, Hc. cbn [Z.b2z]. lia.
      * destruct IH as (-> & Hpos). rewrite Hcb. cbn [Z.b2z]. lia.
Qed.

Lemma bit_count_word w : 0 <= w < 2 ^ 64 -> bit_count (sext64 w) = count_bits 64 w.
Proof.
  intros Hw. rewrite bit_count_count_bits, wrap64_sext64, wrap64_small by lia. reflexivity.
Qed.

Lemma skip_words_spec h A b fuel ui sr :
  words_ok h A -> hp_blocks h !! A = Some b ->
  forall w, cell h A ui = Some w ->
  0 <= ui -> (Z.to_nat (blk_len b - ui) <= fuel)%nat ->
  0 < sr < 2 ^ 31 ->
  rank1 h A (64 * ui) + sr <= rank1 h A (64 * blk_len b) ->
  exists ui' sr' w',
    skip_words fuel A ui (count_bits 64 w) sr h = Some ((ui', sr'), h)
    /\ cell h A ui' = Some w' /\ ui <= ui'
    /\ 0 < sr' <= count_bits 64 w'
    /\ rank1 h A (64 * ui') + sr' = rank1 h A (64 * ui) + sr.
Proof.
  intros Hok Hb. revert ui sr.
  induction fuel as [|fuel IH]; intros ui sr w Hw Hui Hfuel Hsr Htot.
  - destruct (cell_Some_block _ _ _ _ Hw) as (b' & Hb' & Hr & _).
    rewrite Hb in Hb'. injection Hb' as <-. lia.
  - destruct (cell_Some_block _ _ _ _ Hw) as (b' & Hb' & Hr & _).
    rewrite Hb in Hb'. injection Hb' as <-.
    pose proof (rank1_word h A ui 64 w Hw Hui ltac:(lia)) as Hword.
    replace (64 * ui + 64) with (64 * (ui + 1)) in Hword by lia.
    change (Z.to_nat 64) with 64%nat in Hword.
    cbn [skip_words]. destruct (Z.ltb_spec (count_bits 64 w) sr) as [Hlt|Hge].
    + assert (Hnext : ui + 1 < blk_len b).
      { destruct (Z.lt_ge_cases (ui + 1) (blk_len b)); [assumption|].
        assert (ui + 1 = blk_len b) by lia.
        replace (blk_len b) with (ui + 1) in Htot by lia. lia. }
      destruct (words_ok_cell h A (ui + 1) b Hok Hb ltac:(lia)) as (w1 & Hw1 & Hr1).
      rewrite (bindM_eq _ _ h w1 h) by (apply aget_of_cell; exact Hw1).
      rewrite bit_count_word by lia.
      pose proof (count_bits_range 64 w).
      rewrite sext32_small by lia.
      destruct (IH (ui + 1) (sr - count_bits 64 w) w1 Hw1 ltac:(lia) ltac:(lia) ltac:(lia)
                  ltac:(lia)) as (ui' & sr' & w' & Hrun & Hc & Hle & Hs & Hinv).
      exists ui', sr', w'. repeat split; try assumption; lia.
    + exists ui, sr, w. repeat split; try assumption; lia.
Qed.

Lemma ubit_true_cell h p i :
  ubit h p i = true -> exists w, cell h p (i / 64) = Some w /\ Z.testbit w (i mod 64) = true.
Proof.
  unfold ubit. destruct (cell h p (i / 64)) as [w|]; [|discriminate]. eauto.
Qed.

(** What the word-by-word scan of [select_rank] finds. *)
Lemma select_rank_spec ef h rank p0 b :
  words_ok h (ba_A (ef_upper ef)) ->
  hp_blocks h !! ba_A (ef_upper ef) = Some b ->
  0 <= ef_log2_ones_per_inventory ef < 31 ->
  ef_ones_per_inventory_mask ef = 2 ^ ef_log2_ones_per_inventory ef - 1 ->
  0 <= rank < ef_num_ones ef -> ef_num_ones ef < 2 ^ 63 ->
  rank / 2 ^ ef_log2_ones_per_inventory ef < 2 ^ 31 ->
  cell h (ef_inventory ef) (rank / 2 ^ ef_log2_ones_per_inventory ef) = Some p0 ->
  0 <= p0 < 2 ^ 63 ->
  ubit h (ba_A (ef_upper ef)) p0 = true ->
  rank1 h (ba_A (ef_upper ef)) p0 = rank - rank mod 2 ^ ef_log2_ones_per_inventory ef ->
  rank < rank1 h (ba_A (ef_upper ef)) (64 * blk_len b) ->
  exists p, select_rank rank ef h = Some (p, h)
            /\ ubit h (ba_A (ef_upper ef)) p = true
            /\ rank1 h (ba_A (ef_upper ef)) p = rank.
Proof.
  set (A := ba_A (ef_upper ef)). set (l2 := ef_log2_ones_per_inventory ef).
  intros Hok Hb Hl2 Hmask Hrank Hn Hidx Hinv Hp0 Hbit Hr0 Htot.
  assert (Hpl : 0 < 2 ^ l2 <= 2 ^ 30).
  { split; [apply Z.pow_pos_nonneg; lia|apply Z.pow_le_mono_r; lia]. }
  pose proof (Z.mod_pos_bound rank (2 ^ l2) ltac:(lia)) as Hsub.
  unfold select_rank. fold l2. fold A.
  rewrite wrap64_small by lia.
  destruct (Z.leb_spec (ef_num_ones ef) rank) as [|_]; [lia|].
  rewrite Z.shiftr_div_pow2 by lia.
  assert (0 <= rank / 2 ^ l2) by (apply Z.div_pos; lia).
  rewrite sext32_small by lia.
  rewrite (bindM_eq _ _ h p0 h) by (apply aget_of_cell; exact Hinv).
  rewrite Hmask. replace (2 ^ l2 - 1) with (Z.ones l2) by (rewrite Z.ones_equiv; lia).
  rewrite (wrap64_small (Z.ones l2)) by (rewrite Z.ones_equiv; lia).
  rewrite Z.land_ones by lia. rewrite sext32_small by lia.
  set (subrank := rank mod 2 ^ l2) in *.
  destruct (Z.eqb_spec subrank 0) as [E0|E0].
  - exists p0. change (Z.lnot (sext64 (lsl64 1 63))) with (Z.ones 63).
    rewrite Z.land_ones, Z.mod_small by lia.
    split; [reflexivity|]. split; [exact Hbit|lia].
  - destruct (Z.ltb_spec p0 0) as [|_]; [lia|].
    rewrite word_index, bit_index.
    destruct (ubit_true_cell _ _ _ Hbit) as (w & Hw & Hwbit).
    pose proof (bit_index_range p0) as Ho.
    pose proof (Z.div_mod p0 64 ltac:(lia)) as Hdm.
    assert (Hidx0 : 0 <= p0 / 64) by (apply Z.div_pos; lia).
    set (idx := p0 / 64) in *. set (offset := p0 mod 64) in *.
    destruct (cell_Some_block _ _ _ _ Hw) as (b' & Hb' & Hin & _).
    rewrite Hb in Hb'. injection Hb' as <-.
    destruct (words_ok_cell h A idx b Hok Hb Hin) as (w' & Hw' & Hwr).
    rewrite Hw in Hw'. injection Hw' as <-.
    (* the word read for the first scan *)
    assert (Hfirst : exists w0,
      (if offset + 1 <? 64 then aget A idx else ret 0) h = Some (w0, h)
      /\ scan_word (Z.to_nat (64 - (offset + 1))) w0 (offset + 1) subrank
         = scan_word (Z.to_nat (64 - (offset + 1))) w (offset + 1) subrank).
    { destruct (Z.ltb_spec (offset + 1) 64).
      - exists w. split; [apply aget_of_cell; exact Hw|reflexivity].
      - exists 0. split; [reflexivity|].
        replace (Z.to_nat (64 - (offset + 1))) with 0%nat by lia. reflexivity. }
    destruct Hfirst as (w0 & Hread & Hsame).
    rewrite (bindM_eq _ _ h w0 h Hread), Hsame.
    pose proof (scan_word_spec (Z.to_nat (64 - (offset + 1))) w (offset + 1) subrank
                  ltac:(lia) ltac:(lia) ltac:(lia)) as Hscan.
    (* counts inside the word of the inventory position *)
    pose proof (rank1_word h A idx offset w Hw Hidx0 ltac:(lia)) as Hr_off.
    rewrite <- Hdm in Hr_off.
    assert (Hsplit : forall m,
              count_bits (Z.to_nat (offset + 1) + m) w
              = count_bits (Z.to_nat offset) w + 1 + count_bits m (Z.shiftr w (offset + 1))).
    { intros m. rewrite count_bits_app.
      replace (Z.to_nat (offset + 1)) with (S (Z.to_nat offset)) by lia.
      rewrite count_bits_snoc. rewrite !Z2Nat.id by lia.
      replace (Z.of_nat (S (Z.to_nat offset))) with (offset + 1) by lia.
      rewrite Hwbit. cbn [Z.b2z]. lia. }
    destruct (scan_word (Z.to_nat (64 - (offset + 1))) w (offset + 1) subrank) as [k|sr'].
    + destruct Hscan as (Hk & Hkbit & Hkc).
      exists (Z.shiftl idx 6 + k). rewrite Z.shiftl_mul_pow2 by lia.
      replace (idx * 2 ^ 6 + k) with (64 * idx + k) by lia.
      split; [reflexivity|]. split.
      * rewrite (ubit_in_word _ _ _ _ w Hw) by lia. exact Hkbit.
      * rewrite (rank1_word h A idx k w Hw Hidx0) by lia.
        replace (Z.to_nat k) with (Z.to_nat (offset + 1) + Z.to_nat (k - (offset + 1)))%nat
          by lia.
        rewrite Hsplit, Hkc. lia.
    + destruct Hscan as (Hsr' & Hpos).
      pose proof (rank1_word h A idx 64 w Hw Hidx0 ltac:(lia)) as Hr_full.
      replace (64 * idx + 64) with (64 * (idx + 1)) in Hr_full by lia.
      replace (Z.to_nat 64) with (Z.to_nat (offset + 1) + Z.to_nat (64 - (offset + 1)))%nat
        in Hr_full by lia.
      rewrite Hsplit in Hr_full.
      pose proof (count_bits_range (Z.to_nat (64 - (offset + 1))) (Z.shiftr w (offset + 1))).
      assert (Hnext : idx + 1 < blk_len b).
      { destruct (Z.lt_ge_cases (idx + 1) (blk_len b)); [assumption|].
        replace (blk_len b) with (idx + 1) in Htot by lia. lia. }
      destruct (words_ok_cell h A (idx + 1) b Hok Hb ltac:(lia)) as (w1 & Hw1 & Hwr1).
      rewrite (bindM_eq _ _ h w1 h) by (apply aget_of_cell; exact Hw1).
      rewrite (bindM_eq _ _ h (blk_len b) h) by (unfold block_len; rewrite Hb; reflexivity).
      rewrite bit_count_word by lia.
      destruct (skip_words_spec h A b (Z.to_nat (blk_len b)) (idx + 1) sr' Hok Hb w1 Hw1
                  ltac:(lia) ltac:(lia) ltac:(lia) ltac:(lia))
        as (ui' & sr'' & w2 & Hskip & Hw2 & Hui' & Hsr'' & Hinv').
      rewrite (bindM_eq _ _ h (ui', sr'') h Hskip).
      rewrite (bindM_eq _ _ h w2 h) by (apply aget_of_cell; exact Hw2).
      pose proof (scan_word_spec 64 w2 0 sr'' ltac:(lia) ltac:(lia) ltac:(lia)) as Hscan2.
      rewrite Z.shiftr_0_r in Hscan2.
      destruct (scan_word 64 w2 0 sr'') as [j|sr3].
      * destruct Hscan2 as (Hj & Hjbit & Hjc).
        exists (Z.shiftl ui' 6 + j). rewrite Z.shiftl_mul_pow2 by lia.
        replace (ui' * 2 ^ 6 + j) with (64 * ui' + j) by lia.
        split; [reflexivity|]. split.
        -- rewrite (ubit_in_word _ _ _ _ w2 Hw2) by lia. exact Hjbit.
        -- rewrite (rank1_word h A ui' j w2 Hw2) by lia.
           replace (j - 0) with j in Hjc by lia. rewrite Hjc. lia.
      * lia.
Qed.

(** [select_rank] on a block that is not spilled: when the inventory entry
    of the block of [rank] is the position of the one that opens the block,
    and the array holds more than [rank] ones, [select_rank] returns the
    position of a set bit with exactly [rank] set bits below it. *)
Theorem select_rank_position ef h rank p0 b :
  words_ok h (ba_A (ef_upper ef)) ->
  hp_blocks h !! ba_A (ef_upper ef) = Some b ->
  0 <= ef_log2_ones_per_inventory ef < 31 ->
  ef_ones_per_inventory_mask ef = 2 ^ ef_log2_ones_per_inventory ef - 1 ->
  0 <= rank < ef_num_ones ef -> ef_num_ones ef < 2 ^ 63 ->
  rank / 2 ^ ef_log2_ones_per_inventory ef < 2 ^ 31 ->
  cell h (ef_inventory ef) (rank / 2 ^ ef_log2_ones_per_inventory ef) = Some p0 ->
  0 <= p0 < 2 ^ 63 ->
  ubit h (ba_A (ef_upper ef)) p0 = true ->
  rank1 h (ba_A (ef_upper ef)) p0 = rank - rank mod 2 ^ ef_log2_ones_per_inventory ef ->
  rank < rank1 h (ba_A (ef_upper ef)) (64 * blk_len b) ->
  exists p, select_rank rank ef h = Some (p, h)
            /\ ubit h (ba_A (ef_upper ef)) p = true
            /\ rank1 h (ba_A (ef_upper ef)) p = rank.
Proof.
  apply select_rank_spec.
Qed.

Lemma select_rank_position_witness :
  exists ef h p,
    sample_list heap_empty = Some (0, ef, h)
    /\ select_rank 1 ef h = Some (p, h)
    /\ ubit h (ba_A (ef_upper ef)) p = true
    /\ rank1 h (ba_A (ef_upper ef)) p = 1.
Proof.
  destruct (sample_list heap_empty) as [[[r ef] h]|] eqn:E; [|vm_compute in E; discriminate].
  vm_compute in E. injection E as <- <- <-.
  set (h := Heap _ _). set (ef := EFList _ _ _ _ _ _ _ _ _ _ _ _ _).
  destruct (hp_blocks h !! ba_A (ef_upper ef)) as [b|] eqn:Hb; [|vm_compute in Hb; discriminate].
  assert (Hbv : b = Block 1 (<[0 := 298]> ∅)).
  { vm_compute in Hb. injection Hb as <-. vm_compute. reflexivity. }
  assert (Hok : words_ok h (ba_A (ef_upper ef))).
  { exists b. split; [exact Hb|]. intros k Hk. rewrite Hbv in *. cbn in Hk.
    assert (k = 0) as -> by lia. exists 298. split; [reflexivity|lia]. }
  destruct (select_rank_position ef h 1 1 b Hok Hb) as (p & Hsel & Hbit & Hrank).
  - cbn. lia.
  - reflexivity.
  - cbn. lia.
  - cbn. lia.
  - vm_compute. reflexivity.
  - vm_compute. reflexivity.
  - lia.
  - vm_compute. reflexivity.
  - vm_compute. reflexivity.
  - rewrite Hbv. vm_compute. reflexivity.
  - exists ef, h, p. auto.
Defined.


(** ** What is released *)

Lemma free_gone p h u h' : free p h = Some (u, h') -> p <> 0 -> hp_blocks h' !! p = None.
Proof.
  unfold free. destruct (Z.eqb_spec p 0); [contradiction|].
  destruct (hp_blocks h !! p); [|discriminate].
  intros H _. injection H as _ <-. cbn. apply lookup_delete_eq.
Qed.

Lemma free_keeps_gone p h u h' q :
  free p h = Some (u, h') -> hp_blocks h !! q = None -> hp_blocks h' !! q = None.
Proof.
  unfold free. destruct (p =? 0).
  - intros H. injection H as _ <-. auto.
  - destruct (hp_blocks h !! p); [|discriminate].
    intros H Hq. injection H as _ <-. cbn.
    destruct (Z.eq_dec q p) as [->|Hne];
      [apply lookup_delete_eq|rewrite lookup_delete_ne by congruence; exact Hq].
Qed.

Lemma free_null h : free 0 h = Some (tt, h).
Proof. reflexivity. Qed.

Lemma bit_array_free_inv ptr h r h' :
  bit_array_free ptr h = Some (r, h') -> free (ba_A ptr) h = Some (tt, h').
Proof.
  unfold bit_array_free. intros H. apply bindM_Some in H as ([] & h1 & Hf & H).
  apply retM_Some in H as [_ <-]. exact Hf.
Qed.

(** Whenever [eflist_free] returns, it returns 0, the inventory and the
    lower and upper arrays are no longer allocated, neither is the spill
    when [spill_size] is positive, and every other block is as before. *)
Theorem eflist_free_releases ef h r h' :
  eflist_free ef h = Some (r, h') ->
  r = 0
  /\ (ef_inventory ef <> 0 -> hp_blocks h' !! ef_inventory ef = None)
  /\ (ba_A (ef_lower ef) <> 0 -> hp_blocks h' !! ba_A (ef_lower ef) = None)
  /\ (ba_A (ef_upper ef) <> 0 -> hp_blocks h' !! ba_A (ef_upper ef) = None)
  /\ (0 < ef_spill_size ef -> ef_exact_spill ef <> 0 ->
      hp_blocks h' !! ef_exact_spill ef = None)
  /\ (forall q, q <> ef_inventory ef -> q <> ef_exact_spill ef ->
                q <> ba_A (ef_lower ef) -> q <> ba_A (ef_upper ef) ->
                hp_blocks h' !! q = hp_blocks h !! q).
Proof.
  unfold eflist_free. intros H.
  apply bindM_Some in H as ([] & h1 & Hinv & H).
  apply bindM_Some in H as ([] & h2 & Hspill & H).
  apply bindM_Some in H as (r1 & h3 & Hup & H).
  apply bindM_Some in H as (r2 & h4 & Hup' & H).
  apply retM_Some in H as [<- <-].
  apply bit_array_free_inv in Hup. apply bit_array_free_inv in Hup'.
  assert (Hspill_keep : forall q, hp_blocks h1 !! q = None -> hp_blocks h2 !! q = None).
  { intros q Hq. destruct (0 <? ef_spill_size ef).
    - eapply free_keeps_gone; eauto.
    - injection Hspill as <-. exact Hq. }
  split; [reflexivity|]. split; [|split; [|split; [|split]]].
  - intros Hne. eapply free_keeps_gone; [exact Hup'|].
    eapply free_keeps_gone; [exact Hup|]. apply Hspill_keep.
    eapply free_gone; eauto.
  - intros Hne. eapply free_keeps_gone; [exact Hup'|]. eapply free_gone; eauto.
  - intros Hne. eapply free_gone; eauto.
  - intros Hpos Hne. eapply free_keeps_gone; [exact Hup'|].
    eapply free_keeps_gone; [exact Hup|].
    destruct (Z.ltb_spec 0 (ef_spill_size ef)); [|lia]. eapply free_gone; eauto.
  - intros q H1 H2 H3 H4.
    rewrite (free_other _ _ _ _ q Hup') by assumption.
    rewrite (free_other _ _ _ _ q Hup) by assumption.
    transitivity (hp_blocks h1 !! q).
    + destruct (0 <? ef_spill_size ef).
      * eapply free_other; eauto.
      * injection Hspill as <-. reflexivity.
    + eapply free_other; eauto.
Qed.

Lemma bvgraph_close_result g h r g' h' :
  bvgraph_close g h = Some (r, g', h') -> r = 0 /\ g' = bvgraph_zero.
Proof.
  unfold bvgraph_close. intros H. bind_inv H. cbn in H. injection H as <- <- _. auto.
Qed.

(** Whenever [bvgraph_close] returns: a graph buffer and an offsets array
    of the library's own are no longer allocated; with both marked external
    the heap is unchanged; and closing the cleared descriptor again does
    nothing. *)
Theorem bvgraph_close_releases_own_buffers g h r g' h' :
  bvgraph_close g h = Some (r, g', h') ->
  (g_memory_external g = 0 -> g_memory g <> 0 -> hp_blocks h' !! g_memory g = None)
  /\ (g_offsets_external g = 0 -> g_offsets g <> 0 -> hp_blocks h' !! g_offsets g = None)
  /\ (g_memory_external g <> 0 -> g_offsets_external g <> 0 -> h' = h)
  /\ bvgraph_close g' h' = Some (0, g', h').
Proof.
  intros H. destruct (bvgraph_close_result g h r g' h' H) as (-> & ->).
  unfold bvgraph_close in H.
  apply bindM_Some in H as ([] & h1 & Hmem & H).
  apply bindM_Some in H as ([] & h2 & Hoff & H).
  cbn in H. injection H as <-.
  split; [|split; [|split]].
  - intros He Hne. rewrite He in Hmem. cbn in Hmem.
    assert (Hg : hp_blocks h1 !! g_memory g = None) by (eapply free_gone; eauto).
    destruct (g_offsets_external g =? 0).
    + eapply free_keeps_gone; eauto.
    + injection Hoff as <-. exact Hg.
  - intros He Hne. rewrite He in Hoff. cbn in Hoff. eapply free_gone; eauto.
  - intros He1 He2.
    destruct (Z.eqb_spec (g_memory_external g) 0); [contradiction|].
    destruct (Z.eqb_spec (g_offsets_external g) 0); [contradiction|].
    injection Hmem as <-. injection Hoff as <-. reflexivity.
  - reflexivity.
Qed.

(** ** Error strings *)

(** The message for an unsupported file version is never returned, and
    [bvgraph_unsupported_version] (22) gets the text of an unknown
    error. *)
Theorem bvgraph_error_string_no_version_message :
  (forall code,
      bvgraph_error_string code <> Some "the file version is not supported"%string)
  /\ bvgraph_error_string bvgraph_unsupported_version = Some "unknown error"%string.
Proof.
  split; [|reflexivity].
  intros code. unfold bvgraph_error_string.
  repeat match goal with
         | |- context [if ?c then _ else _] => destruct c
         end; discriminate.
Qed.


Lemma eflist_free_releases_witness :
  exists ef h h',
    sample_list heap_empty = Some (0, ef, h)
    /\ eflist_free ef h = Some (0, h')
    /\ hp_blocks h' !! ef_inventory ef = None
    /\ hp_blocks h' !! ba_A (ef_lower ef) = None
    /\ hp_blocks h' !! ba_A (ef_upper ef) = None
    /\ hp_blocks h' !! ef_exact_spill ef = None.
Proof.
  destruct (sample_list heap_empty) as [[[r ef] h]|] eqn:E; [|vm_compute in E; discriminate].
  vm_compute in E. injection E as <- <- <-.
  set (h := Heap _ _). set (ef := EFList _ _ _ _ _ _ _ _ _ _ _ _ _).
  destruct (eflist_free ef h) as [[r h']|] eqn:Ef; [|vm_compute in Ef; discriminate].
  destruct (eflist_free_releases ef h r h' Ef) as (-> & Hi & Hl & Hu & Hs & _).
  exists ef, h, h'. split; [reflexivity|]. split; [exact Ef|].
  split; [apply Hi; cbn; lia|]. split; [apply Hl; cbn; lia|].
  split; [apply Hu; cbn; lia|apply Hs; cbn; lia].
Defined.

Lemma bvgraph_close_releases_own_buffers_witness :
  exists g h g' h',
    loaded_with_ef heap_empty = Some (g, h)
    /\ bvgraph_close g h = Some (0, g', h')
    /\ g_memory g <> 0
    /\ hp_blocks h' !! g_memory g = None
    /\ bvgraph_close g' h' = Some (0, g', h').
Proof.
  destruct (loaded_with_ef heap_empty) as [[g h]|] eqn:E; [|vm_compute in E; discriminate].
  vm_compute in E. injection E as <- <-.
  set (h := Heap _ _). set (g := BVGraph _ _ _ _ _ _ _ _ _ _ _ _ _ _ _ _).
  destruct (bvgraph_close g h) as [[[r g'] h']|] eqn:Ec; [|vm_compute in Ec; discriminate].
  destruct (bvgraph_close_releases_own_buffers g h r g' h' Ec) as (Hm & _ & _ & Hagain).
  assert (r = 0) as -> by (vm_compute in Ec; injection Ec as <- _ _; reflexivity).
  exists g, h, g', h'. split; [reflexivity|]. split; [exact Ec|]. split; [cbn; lia|].
  split; [apply Hm; [reflexivity|cbn; lia]|exact Hagain].
Defined.


(** ** Loading: what is reported *)

Section LoadErrors.
Variable max_filename : Z.
Variable parse_properties : bvgraph -> M (Z * bvgraph).
Variable fsize : string -> Z * Z.
Variable read_graph_file : string -> Z -> Z -> M (option Z).
Variable offsets_file : string -> option (Z * list Z).
Variable load_offset_online : bvgraph -> M Z.
Variable load_efcode_online : bvgraph -> M (Z * elias_fano_list).
Variable eflist_initial : elias_fano_list -> Z -> M elias_fano_list.
Variable build_last_of : bvgraph -> Z.

Local Abbreviation load_external :=
  (bvgraph_load_external max_filename parse_properties fsize read_graph_file
     offsets_file load_offset_online load_efcode_online eflist_initial build_last_of).
Local Abbreviation required_memory := (bvgraph_required_memory fsize build_last_of).

(** A file name longer than the descriptor can hold is refused before the
    descriptor or the heap is touched, and a failure of [parse_properties]
    is returned as it is. *)
Theorem load_external_name_and_property_errors :
  (forall g filename filenamelen offset_step gmemory gmemsize offsets offsetssize h,
      max_filename - 1 < filenamelen ->
      load_external g filename filenamelen offset_step gmemory gmemsize offsets
        offsetssize h
      = Some (bvgraph_load_error_filename_too_long, g, h))
  /\ (forall g filename filenamelen offset_step gmemory gmemsize offsets offsetssize
             h rval g1 h1,
         filenamelen <= max_filename - 1 ->
         parse_properties (fresh_descriptor filename filenamelen offset_step) h
           = Some (rval, g1, h1) ->
         rval <> 0 ->
         load_external g filename filenamelen offset_step gmemory gmemsize offsets
           offsetssize h
         = Some (rval, g1, h1)).
Proof.
  split.
  - intros. unfold bvgraph_load_external.
    destruct (Z.ltb_spec (max_filename - 1) filenamelen); [reflexivity|lia].
  - intros g filename filenamelen offset_step gmemory gmemsize offsets offsetssize
           h rval g1 h1 Hlen Hparse Hr.
    unfold bvgraph_load_external.
    destruct (Z.ltb_spec (max_filename - 1) filenamelen); [lia|].
    fold (fresh_descriptor filename filenamelen offset_step).
    rewrite (bindM_eq _ _ _ _ _ Hparse).
    destruct (Z.eqb_spec rval 0); [contradiction|]. reflexivity.
Qed.

(** With the properties read and a graph file to load ([offset_step >= 0]):
    a failing [fsize] gives the io error; a caller's buffer smaller than
    the file gives the buffer error; in both cases nothing has been
    allocated.  A file that cannot be opened or is not read in full gives
    the io error, and the buffer the library allocated for it stays
    allocated. *)
Theorem load_external_graph_file_errors
      g filename filenamelen offset_step gmemory gmemsize offsets offsetssize
      h g1 h1 rval sz :
  filenamelen <= max_filename - 1 ->
  parse_properties (fresh_descriptor filename filenamelen offset_step) h
    = Some (0, g1, h1) ->
  0 <= offset_step ->
  fsize (strappend (g_filename g1) ".graph") = (rval, sz) ->
  (rval <> 0 ->
   load_external g filename filenamelen offset_step gmemory gmemsize offsets offsetssize h
   = Some (bvgraph_call_io_error, g1, h1))
  /\ (rval = 0 -> gmemory <> 0 -> gmemsize < sz ->
      load_external g filename filenamelen offset_step gmemory gmemsize offsets
        offsetssize h
      = Some (bvgraph_load_error_buffer_too_small, g1, h1))
  /\ (forall p h2 h3 res,
         rval = 0 -> gmemory = 0 ->
         malloc sz h1 = Some (p, h2) -> p <> 0 ->
         read_graph_file (strappend (g_filename g1) ".graph") p sz h2 = Some (res, h3) ->
         res <> Some sz ->
         load_external g filename filenamelen offset_step gmemory gmemsize offsets
           offsetssize h
         = Some (bvgraph_call_io_error, set_memory g1 p sz 0, h3)).
Proof.
  intros Hlen Hparse Hstep Hsize.
  unfold bvgraph_load_external.
  destruct (Z.ltb_spec (max_filename - 1) filenamelen); [lia|].
  fold (fresh_descriptor filename filenamelen offset_step).
  rewrite (bindM_eq _ _ _ _ _ Hparse). cbn [negb Z.eqb].
  destruct (Z.leb_spec 0 offset_step); [|lia].
  rewrite Hsize.
  split; [|split].
  - intros Hr. destruct (Z.eqb_spec rval 0); [contradiction|]. reflexivity.
  - intros -> Hm Hsmall. cbn [negb Z.eqb].
    destruct (Z.eqb_spec gmemory 0); [contradiction|].
    destruct (Z.ltb_spec gmemsize sz); [reflexivity|lia].
  - intros p h2 h3 res -> -> Hmalloc Hp Hread Hres. cbn [negb Z.eqb andb].
    rewrite (bindM_eq _ _ h1 (set_memory g1 p sz 0) h2).
    2:{ rewrite (bindM_eq _ _ _ _ _ Hmalloc). reflexivity. }
    cbn [set_memory g_memory g_memory_size].
    destruct (Z.eqb_spec p 0); [contradiction|].
    rewrite (bindM_eq _ _ _ _ _ Hread).
    destruct res as [bytes|]; [|reflexivity].
    destruct (Z.eqb_spec bytes sz) as [->|]; [congruence|reflexivity].
Qed.

(** With [offset_step = -1] only the properties are read: the result is
    the parsed descriptor with [memory_size] 0, the heap is the one
    [parse_properties] left, and the file system is not consulted. *)
Theorem load_external_metadata_only
      g filename filenamelen gmemory gmemsize offsets offsetssize h g1 h1 :
  filenamelen <= max_filename - 1 ->
  parse_properties (fresh_descriptor filename filenamelen (-1)) h = Some (0, g1, h1) ->
  load_external g filename filenamelen (-1) gmemory gmemsize offsets offsetssize h
  = Some (0, set_memory_size g1 0, h1).
Proof.
  intros Hlen Hparse. unfold bvgraph_load_external.
  destruct (Z.ltb_spec (max_filename - 1) filenamelen); [lia|].
  fold (fresh_descriptor filename filenamelen (-1)).
  rewrite (bindM_eq _ _ _ _ _ Hparse). reflexivity.
Qed.

(** [bvgraph_required_memory] tolerates null output pointers for
    [offset_step <= 1], but for [offset_step = 2] it stores the size of the
    index through [efbuf] without testing it: with a null [efbuf] the call
    is undefined. *)
Theorem required_memory_null_pointers g gbuf offsetbuf :
  (forall offset_step, -1 <= offset_step <= 1 ->
     is_Some (required_memory g offset_step None None None))
  /\ (fst (fsize (strappend (g_filename g) ".graph")) = 0 ->
      required_memory g 2 gbuf offsetbuf None = None).
Proof.
  split.
  - intros offset_step Hs. unfold bvgraph_required_memory.
    destruct (Z.leb_spec offset_step (-1)).
    + destruct (Z.ltb_spec offset_step (-1)); [lia|]. cbn. eauto.
    + destruct (fsize (strappend (g_filename g) ".graph")) as [rval sz].
      destruct (negb (rval =? 0)); [eauto|]. cbn [put_if].
      destruct (Z.eqb_spec offset_step 1); [eauto|].
      destruct (Z.eqb_spec offset_step 2); [lia|].
      destruct (Z.ltb_spec 2 offset_step); [lia|]. eauto.
  - intros Hf. unfold bvgraph_required_memory. cbn [Z.leb Z.compare].
    destruct (fsize (strappend (g_filename g) ".graph")) as [rval sz]. cbn in Hf. subst rval.
    cbn. destruct (eflist_size build_last_of g); reflexivity.
Qed.

(** When the size of the graph file cannot be obtained,
    [bvgraph_required_memory] with [offset_step >= 0] returns the io error
    and stores nothing through its output pointers. *)
Theorem required_memory_io_error g offset_step gbuf offsetbuf efbuf :
  0 <= offset_step ->
  fst (fsize (strappend (g_filename g) ".graph")) <> 0 ->
  required_memory g offset_step gbuf offsetbuf efbuf
  = Some (bvgraph_call_io_error, gbuf, offsetbuf, efbuf).
Proof.
  intros Hs Hf. unfold bvgraph_required_memory.
  destruct (Z.leb_spec offset_step (-1)); [lia|].
  destruct (fsize (strappend (g_filename g) ".graph")) as [rval sz]. cbn in Hf.
  destruct (Z.eqb_spec rval 0); [contradiction|]. reflexivity.
Qed.
End LoadErrors.

Lemma load_external_name_and_property_errors_witness :
  bvgraph_load_external Sample.max_filename Sample.parse_properties Sample.fsize
    Sample.read_graph_file Sample.no_offsets_file Sample.load_offset_online
    Sample.load_efcode_online Sample.eflist_initial Sample.build_last_of
    bvgraph_zero "g" 2000 0 0 0 0 0 heap_empty
  = Some (bvgraph_load_error_filename_too_long, bvgraph_zero, heap_empty)
  /\ bvgraph_load_external Sample.max_filename Sample.parse_properties_bad Sample.fsize
       Sample.read_graph_file Sample.no_offsets_file Sample.load_offset_online
       Sample.load_efcode_online Sample.eflist_initial Sample.build_last_of
       bvgraph_zero "g" 1 0 0 0 0 0 heap_empty
     = Some (bvgraph_property_file_error, fresh_descriptor "g" 1 0, heap_empty).
Proof.
  split.
  - apply (proj1 (load_external_name_and_property_errors Sample.max_filename
             Sample.parse_properties Sample.fsize Sample.read_graph_file
             Sample.no_offsets_file Sample.load_offset_online Sample.load_efcode_online
             Sample.eflist_initial Sample.build_last_of)).
    vm_compute. reflexivity.
  - apply (proj2 (load_external_name_and_property_errors Sample.max_filename
             Sample.parse_properties_bad Sample.fsize Sample.read_graph_file
             Sample.no_offsets_file Sample.load_offset_online Sample.load_efcode_online
             Sample.eflist_initial Sample.build_last_of)).
    + vm_compute. discriminate.
    + reflexivity.
    + vm_compute. discriminate.
Defined.

Lemma load_external_graph_file_errors_witness :
  bvgraph_load_external Sample.max_filename Sample.parse_properties Sample.fsize_missing
    Sample.read_graph_file Sample.no_offsets_file Sample.load_offset_online
    Sample.load_efcode_online Sample.eflist_initial Sample.build_last_of
    bvgraph_zero "g" 1 0 0 0 0 0 heap_empty
  = Some (bvgraph_call_io_error, BVGraph "g" 1 0 4 4 0 0 0 0 0 0 ef_zero 3 7 3 3, heap_empty)
  /\ bvgraph_load_external Sample.max_filename Sample.parse_properties Sample.fsize
       Sample.read_graph_file Sample.no_offsets_file Sample.load_offset_online
       Sample.load_efcode_online Sample.eflist_initial Sample.build_last_of
       bvgraph_zero "g" 1 0 7 8 0 0 heap_empty
     = Some (bvgraph_load_error_buffer_too_small,
             BVGraph "g" 1 0 4 4 0 0 0 0 0 0 ef_zero 3 7 3 3, heap_empty)
  /\ bvgraph_load_external Sample.max_filename Sample.parse_properties Sample.fsize
       Sample.read_short Sample.no_offsets_file Sample.load_offset_online
       Sample.load_efcode_online Sample.eflist_initial Sample.build_last_of
       bvgraph_zero "g" 1 0 0 0 0 0 heap_empty
     = Some (bvgraph_call_io_error,
             BVGraph "g" 1 0 4 4 1 16 0 0 0 0 ef_zero 3 7 3 3,
             Heap (<[1 := Block 16 ∅]> ∅) 2).
Proof.
  split; [|split].
  - refine (proj1 (load_external_graph_file_errors Sample.max_filename
             Sample.parse_properties Sample.fsize_missing Sample.read_graph_file
             Sample.no_offsets_file Sample.load_offset_online Sample.load_efcode_online
             Sample.eflist_initial Sample.build_last_of bvgraph_zero "g" 1 0 0 0 0 0
             heap_empty _ heap_empty 1 0 _ _ _ _) _).
    + vm_compute. discriminate.
    + reflexivity.
    + lia.
    + reflexivity.
    + lia.
  - refine (proj1 (proj2 (load_external_graph_file_errors Sample.max_filename
             Sample.parse_properties Sample.fsize Sample.read_graph_file
             Sample.no_offsets_file Sample.load_offset_online Sample.load_efcode_online
             Sample.eflist_initial Sample.build_last_of bvgraph_zero "g" 1 0 7 8 0 0
             heap_empty _ heap_empty 0 16 _ _ _ _)) _ _ _).
    + vm_compute. discriminate.
    + reflexivity.
    + lia.
    + reflexivity.
    + reflexivity.
    + lia.
    + lia.
  - refine (proj2 (proj2 (load_external_graph_file_errors Sample.max_filename
             Sample.parse_properties Sample.fsize Sample.read_short
             Sample.no_offsets_file Sample.load_offset_online Sample.load_efcode_online
             Sample.eflist_initial Sample.build_last_of bvgraph_zero "g" 1 0 0 0 0 0
             heap_empty (BVGraph "g" 1 0 4 4 0 0 0 0 0 0 ef_zero 3 7 3 3) heap_empty 0 16
             _ _ _ _)) 1 (Heap (<[1 := Block 16 ∅]> ∅) 2) (Heap (<[1 := Block 16 ∅]> ∅) 2)
             (Some 3) _ _ _ _ _ _).
    + vm_compute. discriminate.
    + reflexivity.
    + lia.
    + reflexivity.
    + reflexivity.
    + reflexivity.
    + reflexivity.
    + lia.
    + reflexivity.
    + discriminate.
Defined.

Lemma load_external_metadata_only_witness :
  bvgraph_load_external Sample.max_filename Sample.parse_properties Sample.fsize_missing
    Sample.read_graph_file Sample.no_offsets_file Sample.load_offset_online
    Sample.load_efcode_online Sample.eflist_initial Sample.build_last_of
    bvgraph_zero "g" 1 (-1) 0 0 0 0 heap_empty
  = Some (0, BVGraph "g" 1 (-1) 4 4 0 0 0 0 0 0 ef_zero 3 7 3 3, heap_empty).
Proof.
  refine (load_external_metadata_only Sample.max_filename Sample.parse_properties
            Sample.fsize_missing Sample.read_graph_file Sample.no_offsets_file
            Sample.load_offset_online Sample.load_efcode_online Sample.eflist_initial
            Sample.build_last_of bvgraph_zero "g" 1 0 0 0 0 heap_empty
            (BVGraph "g" 1 (-1) 4 4 0 0 0 0 0 0 ef_zero 3 7 3 3) heap_empty _ _).
  - vm_compute. discriminate.
  - reflexivity.
Defined.

Lemma required_memory_null_pointers_witness :
  is_Some (bvgraph_required_memory Sample.fsize Sample.build_last_of Sample.one_vertex 1
             None None None)
  /\ bvgraph_required_memory Sample.fsize Sample.build_last_of Sample.one_vertex 2
       (Some 0) (Some 0) None = None.
Proof.
  destruct (required_memory_null_pointers Sample.fsize Sample.build_last_of
              Sample.one_vertex (Some 0) (Some 0)) as [H1 H2].
  split; [apply H1; lia|apply H2; reflexivity].
Defined.

Lemma required_memory_io_error_witness :
  bvgraph_required_memory Sample.fsize_missing Sample.build_last_of Sample.one_vertex 1
    (Some 7) None (Some 9)
  = Some (bvgraph_call_io_error, Some 7, None, Some 9).
Proof.
  apply required_memory_io_error; [lia|cbn; lia].
Defined.


(** ** Batches *)



(** ** The status of [simple_select_build] *)

(** Whenever [simple_select_build] returns, the status is 0 or, only when
    a fixed-size spill was asked for, [eflist_spill_too_small]; the list
    records [num_ones], a mask one below [ones_per_inventory], and the array
    fields are as they were. *)
Theorem simple_select_build_status ef num_ones spill_var_len h r ef' h' :
  simple_select_build ef num_ones spill_var_len h = Some (r, ef', h') ->
  (r = 0 \/ (r = eflist_spill_too_small /\ spill_var_len = 0))
  /\ ef_num_ones ef' = num_ones
  /\ ef_ones_per_inventory_mask ef' = ef_ones_per_inventory ef' - 1
  /\ ef_lower ef' = ef_lower ef /\ ef_upper ef' = ef_upper ef
  /\ ef_size ef' = ef_size ef /\ ef_s ef' = ef_s ef
  /\ ef_bitarraylen ef' = ef_bitarraylen ef.
Proof.
  unfold simple_select_build. intros H.
  apply bindM_Some in H as ([] & h0 & _ & H).
  apply bindM_Some in H as (inv & h1 & _ & H).
  apply bindM_Some in H as (d & h2 & _ & H).
  apply bindM_Some in H as ([] & h3 & _ & H).
  cbn [set_select ef_ones_per_inventory ef_inventory ef_inventory_size ef_spill_size
       ef_exact_spill] in H.
  match type of H with
  | (if ?c then _ else _) _ = _ => destruct c
  end.
  - apply bindM_Some in H as (l & h4 & _ & H).
    match type of H with
    | (if ?c && (spill_var_len =? 0) then _ else _) _ = _ => destruct c
    end; cbn [andb] in H.
    + destruct (Z.eqb_spec spill_var_len 0) as [->|].
      * injection H as <- <- _. cbn. intuition.
      * apply bindM_Some in H as (ef1 & h5 & Hef & H).
        apply bindM_Some in Hef as ([] & h6 & _ & Hef).
        apply bindM_Some in Hef as (p & h7 & _ & Hef). injection Hef as <- _.
        apply bindM_Some in H as (l' & h8 & _ & H). injection H as <- <- _.
        cbn. intuition.
    + apply bindM_Some in H as (ef1 & h5 & Hef & H). injection Hef as <- _.
      apply bindM_Some in H as (l' & h8 & _ & H). injection H as <- <- _.
      cbn. intuition.
  - injection H as <- <- _. cbn. intuition.
Qed.


(** ** Dense offsets *)

Lemma malloc_spec n h :
  malloc n h = Some (hp_next h, Heap (<[hp_next h := Block n ∅]> (hp_blocks h)) (hp_next h + 1)).
Proof. reflexivity. Qed.

Lemma sum_upto_succ (l : list Z) n d :
  l !! n = Some d -> sum_upto l (S n) = sum_upto l n + d.
Proof.
  revert l. induction n as [|n IH]; intros [|x l] Hl; try discriminate.
  - cbn in Hl. injection Hl as Hx. subst. cbn. lia.
  - cbn in Hl. change (sum_upto (x :: l) (S (S n))) with (x + sum_upto l (S n)).
    rewrite (IH l Hl). cbn [sum_upto]. lia.
Qed.

Lemma sum_upto_nonneg (l : list Z) n : Forall (fun d => 0 <= d) l -> 0 <= sum_upto l n.
Proof.
  revert l. induction n as [|n IH]; intros [|x l] Hl; cbn; try lia.
  inversion Hl; subst. specialize (IH l ltac:(assumption)). lia.
Qed.

Lemma store_offsets_spec n : forall (deltas : list Z) p i0 off h b,
  hp_blocks h !! p = Some b ->
  0 <= i0 -> i0 + Z.of_nat n <= blk_len b ->
  (n <= length deltas)%nat ->
  Forall (fun d => 0 <= d) deltas ->
  0 <= off -> off + sum_upto deltas n < 2 ^ 63 ->
  exists h',
    store_offsets p deltas i0 off n h = Some (tt, h')
    /\ (forall j, (j < n)%nat ->
          cell h' p (i0 + Z.of_nat j) = Some (off + sum_upto deltas (S j)))
    /\ (forall q k, q <> p \/ k < i0 -> cell h' q k = cell h q k)
    /\ hp_next h' = hp_next h.
Proof.
  induction n as [|n IH]; intros deltas p i0 off h b Hb Hi0 Hlen Hn Hpos Hoff Hsum.
  - exists h. cbn. split; [reflexivity|]. split; [lia|]. auto.
  - destruct deltas as [|d rest]; [cbn in Hn; lia|].
    inversion Hpos as [|? ? Hd Hrest]; subst.
    cbn [store_offsets]. cbn [sum_upto] in Hsum.
    pose proof (sum_upto_nonneg rest n Hrest) as Hnn.
    rewrite sext64_small by lia. rewrite wrap64_small by lia.
    destruct (aset_defined p i0 (d + off) h b Hb ltac:(lia)) as (h1 & Hset).
    rewrite (bindM_eq _ _ _ _ _ Hset).
    destruct (aset_blk_len _ _ _ _ _ _ p b Hset Hb) as (b1 & Hb1 & Hl1).
    destruct (IH rest p (i0 + 1) (d + off) h1 b1 Hb1 ltac:(lia) ltac:(lia)
                ltac:(cbn in Hn; lia) Hrest ltac:(lia) ltac:(lia))
      as (h' & Hrun & Hcells & Hframe & Hnext).
    exists h'. split; [exact Hrun|]. split; [|split].
    + intros j Hj. destruct j as [|j].
      * rewrite Hframe by (right; lia). replace (i0 + Z.of_nat 0) with i0 by lia.
        rewrite (aset_cell_same _ _ _ _ _ _ Hset). cbn [sum_upto].
        f_equal. destruct rest; lia.
      * replace (i0 + Z.of_nat (S j)) with (i0 + 1 + Z.of_nat j) by lia.
        rewrite Hcells by lia. cbn [sum_upto]. f_equal. lia.
    + intros q k Hqk. rewrite Hframe by (destruct Hqk; [left; assumption|right; lia]).
      apply (aset_cell_other _ _ _ _ _ _ _ _ Hset). destruct Hqk; [left; assumption|right; lia].
    + rewrite Hnext. apply aset_Some in Hset as (? & _ & _ & ->). reflexivity.
Qed.

Section DenseOffsets.
Variable offsets_file : string -> option (Z * list Z).

(** [load_offset_from_file] with a readable offsets file: the offsets go
    to an array it allocates itself, whatever [g->offsets] was; entry [j]
    is the sum of the first [j + 1] decoded values; no other block is
    written. *)
Theorem load_offset_from_file_sums g h (deltas : list Z) :
  offsets_file (strappend (g_filename g) ".offsets") = Some (0, deltas) ->
  0 <= g_n g -> g_n g <= Z.of_nat (length deltas) ->
  Forall (fun d => 0 <= d) deltas ->
  sum_upto deltas (Z.to_nat (g_n g)) < 2 ^ 63 ->
  exists h',
    load_offset_from_file offsets_file g h = Some (0, set_offsets g (hp_next h), h')
    /\ (forall j, 0 <= j < g_n g ->
          cell h' (hp_next h) j = Some (sum_upto deltas (S (Z.to_nat j))))
    /\ (forall q k, q <> hp_next h -> cell h' q k = cell h q k).
Proof.
  intros Hfile Hn Hlen Hpos Hsum. unfold load_offset_from_file.
  rewrite (bindM_eq _ _ _ _ _ (malloc_spec (g_n g) h)).
  cbn [set_offsets g_filename g_offsets g_n]. rewrite Hfile. cbn [Z.eqb negb].
  set (h1 := Heap (<[hp_next h := Block (g_n g) ∅]> (hp_blocks h)) (hp_next h + 1)).
  assert (Hb : hp_blocks h1 !! hp_next h = Some (Block (g_n g) ∅)) by apply lookup_insert_eq.
  destruct (store_offsets_spec (Z.to_nat (g_n g)) deltas (hp_next h) 0 0 h1 _ Hb
              ltac:(lia) ltac:(cbn; lia) ltac:(lia) Hpos ltac:(lia) ltac:(lia))
    as (h' & Hrun & Hcells & Hframe & _).
  exists h'. rewrite (bindM_eq _ _ _ _ _ Hrun). split; [reflexivity|]. split.
  - intros j Hj. specialize (Hcells (Z.to_nat j) ltac:(lia)).
    rewrite Z2Nat.id in Hcells by lia. rewrite Z.add_0_l in Hcells. rewrite Hcells.
    reflexivity.
  - intros q k Hq. rewrite Hframe by (left; exact Hq).
    unfold cell, h1. cbn. rewrite lookup_insert_ne by congruence. reflexivity.
Qed.
End DenseOffsets.


Lemma simple_select_build_status_witness :
  exists ef h ef' h',
    (do '(_, ef) <- eflist_init 4 20; add_all [5; 10; 15; 20] ef) heap_empty = Some (ef, h)
    /\ simple_select_build ef 4 0 h = Some (0, ef', h')
    /\ ef_num_ones ef' = 4
    /\ ef_ones_per_inventory_mask ef' = ef_ones_per_inventory ef' - 1.
Proof.
  destruct ((do '(_, ef) <- eflist_init 4 20; add_all [5; 10; 15; 20] ef) heap_empty)
    as [[ef h]|] eqn:E; [|vm_compute in E; discriminate].
  vm_compute in E. injection E as <- <-.
  set (h := Heap _ _). set (ef := EFList _ _ _ _ _ _ _ _ _ _ _ _ _).
  destruct (simple_select_build ef 4 0 h) as [[[r ef'] h']|] eqn:Eb;
    [|vm_compute in Eb; discriminate].
  destruct (simple_select_build_status ef 4 0 h r ef' h' Eb) as (_ & Hn & Hm & _).
  assert (r = 0) as -> by (vm_compute in Eb; injection Eb as <- _ _; reflexivity).
  exists ef, h, ef', h'. split; [reflexivity|]. auto.
Defined.

Lemma load_offset_from_file_sums_witness :
  exists h',
    load_offset_from_file Sample.offsets_present Sample.four_vertices heap_empty
    = Some (0, set_offsets Sample.four_vertices 1, h')
    /\ cell h' 1 3 = Some 15.
Proof.
  destruct (load_offset_from_file_sums Sample.offsets_present Sample.four_vertices
              heap_empty [0; 5; 5; 5]) as (h' & Hrun & Hcells & _).
  - reflexivity.
  - cbn. lia.
  - cbn. lia.
  - repeat constructor; lia.
  - vm_compute. reflexivity.
  - exists h'. split; [exact Hrun|]. apply (Hcells 3). cbn. lia.
Defined.
(** ** Loops *)

Lemma for_range_inv {St} (I : Z -> St -> heap -> Prop) (body : Z -> St -> M St) n :
  forall i0 st h,
  I i0 st h ->
  (forall i st h, i0 <= i < i0 + Z.of_nat n -> I i st h ->
     exists st' h', body i st h = Some (st', h') /\ I (i + 1) st' h') ->
  exists st' h', for_range n i0 body st h = Some (st', h') /\ I (i0 + Z.of_nat n) st' h'.
Proof.
  induction n as [|n IH]; intros i0 st h HI Hstep.
  - exists st, h. split; [reflexivity|].
    replace (i0 + Z.of_nat 0) with i0 by lia. exact HI.
  - assert (Hi0 : i0 <= i0 < i0 + Z.of_nat (S n)) by lia.
    destruct (Hstep i0 st h Hi0 HI) as (st1 & h1 & E & HI1).
    destruct (IH (i0 + 1) st1 h1 HI1) as (st2 & h2 & E2 & HI2).
    { intros i st' h' Hi. apply Hstep. lia. }
    exists st2, h2. split.
    + cbn [for_range]. rewrite (bindM_eq _ _ _ _ _ E). exact E2.
    + replace (i0 + Z.of_nat (S n)) with (i0 + 1 + Z.of_nat n) by lia. exact HI2.
Qed.

(** ** Heaps that differ in one block *)

Lemma heap_wf_iff h :
  heap_wf h <-> 0 < hp_next h /\ forall q, hp_next h <= q -> hp_blocks h !! q = None.
Proof.
  unfold heap_wf. rewrite map_Forall_lookup. split; intros (Hpos & H); (split; [exact Hpos|]).
  - intros q Hq. destruct (hp_blocks h !! q) as [b|] eqn:E; [|reflexivity].
    specialize (H q b E). cbn in H. lia.
  - intros q b E. destruct (Z.lt_ge_cases q (hp_next h)) as [|Hge]; [assumption|].
    rewrite (H q Hge) in E. discriminate.
Qed.

Lemma only_cells_refl p h : only_cells_of p h h.
Proof.
  repeat split; auto. intros b0 H. exists b0. auto.
Qed.

Lemma only_cells_trans p h0 h1 h2 :
  only_cells_of p h0 h1 -> only_cells_of p h1 h2 -> only_cells_of p h0 h2.
Proof.
  intros (N1 & O1 & L1) (N2 & O2 & L2). repeat split.
  - congruence.
  - intros q Hq. rewrite O2, O1; auto.
  - intros b0 Hb0. destruct (L1 b0 Hb0) as (b1 & Hb1 & E1).
    destruct (L2 b1 Hb1) as (b2 & Hb2 & E2). exists b2. split; [auto | congruence].
Qed.

Lemma aset_only_cells p k v h u h' : aset p k v h = Some (u, h') -> only_cells_of p h h'.
Proof.
  intros H. destruct (aset_Some _ _ _ _ _ _ H) as (b & Hb & Hk & ->).
  repeat split; cbn.
  - intros q Hq. rewrite lookup_insert_ne; auto.
  - intros b0 Hb0. rewrite lookup_insert_eq. eexists. split; [reflexivity|].
    cbn. congruence.
Qed.

Lemma block_eq_cell h0 h q k :
  hp_blocks h !! q = hp_blocks h0 !! q -> cell h q k = cell h0 q k.
Proof.
  intros E. unfold cell. rewrite E. reflexivity.
Qed.

Lemma block_eq_ubit h0 h q i :
  hp_blocks h !! q = hp_blocks h0 !! q -> ubit h q i = ubit h0 q i.
Proof.
  intros E. unfold ubit. rewrite (block_eq_cell _ _ _ _ E). reflexivity.
Qed.

Lemma ones_upto_ext f g n :
  (forall i, 0 <= i < Z.of_nat n -> f i = g i) -> ones_upto f n = ones_upto g n.
Proof.
  induction n as [|n IH]; intros H; [reflexivity|].
  cbn [ones_upto]. rewrite IH by (intros; apply H; lia). rewrite H by lia. reflexivity.
Qed.

Lemma block_eq_rank1 h0 h q i :
  hp_blocks h !! q = hp_blocks h0 !! q -> rank1 h q i = rank1 h0 q i.
Proof.
  intros E. unfold rank1. apply ones_upto_ext. intros j _. apply (block_eq_ubit _ _ _ _ E).
Qed.

Lemma block_eq_words_ok h0 h q :
  hp_blocks h !! q = hp_blocks h0 !! q -> words_ok h0 q -> words_ok h q.
Proof.
  intros E (b & Hb & W). exists b. rewrite E. auto.
Qed.

Lemma only_cells_block p h0 h q :
  only_cells_of p h0 h -> q <> p -> hp_blocks h !! q = hp_blocks h0 !! q.
Proof.
  intros (_ & O & _) Hq. auto.
Qed.

Lemma only_cells_cell p h0 h q k : only_cells_of p h0 h -> q <> p -> cell h q k = cell h0 q k.
Proof.
  intros H Hq. apply block_eq_cell, (only_cells_block _ _ _ _ H Hq).
Qed.

Lemma only_cells_ubit p h0 h q i : only_cells_of p h0 h -> q <> p -> ubit h q i = ubit h0 q i.
Proof.
  intros H Hq. apply block_eq_ubit, (only_cells_block _ _ _ _ H Hq).
Qed.

Lemma only_cells_rank1 p h0 h q i : only_cells_of p h0 h -> q <> p -> rank1 h q i = rank1 h0 q i.
Proof.
  intros H Hq. apply block_eq_rank1, (only_cells_block _ _ _ _ H Hq).
Qed.

Lemma only_cells_words_ok p h0 h q :
  only_cells_of p h0 h -> q <> p -> words_ok h0 q -> words_ok h q.
Proof.
  intros H Hq. apply block_eq_words_ok, (only_cells_block _ _ _ _ H Hq).
Qed.

Lemma only_cells_wf p h0 h :
  only_cells_of p h0 h -> is_Some (hp_blocks h0 !! p) -> heap_wf h0 -> heap_wf h.
Proof.
  intros (N & O & L) [b0 Hb0] Hwf. apply heap_wf_iff in Hwf. destruct Hwf as (Hpos & Hfresh).
  apply heap_wf_iff. split; [lia|].
  intros q Hq. rewrite N in Hq. destruct (Z.eq_dec q p) as [->|Hne].
  - rewrite Hfresh in Hb0 by lia. discriminate.
  - rewrite O by auto. auto.
Qed.

(** ** Single bits through the word array *)

Lemma getbitk_defined ptr h b i :
  ba_s ptr < 0 -> words_ok h (ba_A ptr) -> hp_blocks h !! ba_A ptr = Some b ->
  0 <= i < 64 * blk_len b ->
  bit_array_getbitk ptr i h = Some (Z.b2z (ubit h (ba_A ptr) i), h).
Proof.
  intros Hs W Hb Hi. unfold bit_array_getbitk, c_assert.
  replace (ba_s ptr <? 0) with true by (symmetry; apply Z.ltb_lt; lia).
  assert (Hq : 0 <= i / 64 < blk_len b).
  { split; [apply Z.div_pos; lia | apply Z.div_lt_upper_bound; lia]. }
  destruct (words_ok_cell _ _ _ _ W Hb Hq) as (w & Hw & _).
  unfold bind, ret. rewrite (get_bitk_of_cell _ _ _ _ Hw).
  unfold ubit. rewrite Hw. reflexivity.
Qed.

Lemma rank1_flat h p a b :
  0 <= a <= b -> (forall x, a <= x < b -> ubit h p x = false) -> rank1 h p b = rank1 h p a.
Proof.
  intros Hab. replace b with (a + Z.of_nat (Z.to_nat (b - a))) by lia.
  generalize (Z.to_nat (b - a)) as n. induction n as [|n IH]; intros H.
  - f_equal. lia.
  - replace (a + Z.of_nat (S n)) with (a + Z.of_nat n + 1) by lia.
    rewrite rank1_succ by lia. rewrite H by lia. rewrite IH by (intros; apply H; lia).
    cbn. lia.
Qed.

Lemma rank1_zero h p : rank1 h p 0 = 0.
Proof. reflexivity. Qed.

Lemma rank1_nonneg h p i : 0 <= rank1 h p i.
Proof.
  unfold rank1. generalize (Z.to_nat i) as n. induction n as [|n IH]; cbn [ones_upto]; [lia|].
  destruct (ubit h p (Z.of_nat n)); cbn; lia.
Qed.

Lemma rank1_lt_set h p i j :
  0 <= i < j -> ubit h p i = true -> rank1 h p i < rank1 h p j.
Proof.
  intros Hij Hu. assert (H1 : rank1 h p (i + 1) = rank1 h p i + 1).
  { rewrite rank1_succ by lia. rewrite Hu. reflexivity. }
  assert (H2 : rank1 h p (i + 1) <= rank1 h p j) by (apply rank1_mono; lia). lia.
Qed.

(** A set bit is determined by the number of set bits below it. *)
Lemma rank1_inj h p i j :
  0 <= i -> 0 <= j -> ubit h p i = true -> ubit h p j = true ->
  rank1 h p i = rank1 h p j -> i = j.
Proof.
  intros Hi Hj Ui Uj E. destruct (Z.lt_total i j) as [L|[L|L]]; auto.
  - assert (rank1 h p i < rank1 h p j) by (apply rank1_lt_set; auto; lia). lia.
  - assert (rank1 h p j < rank1 h p i) by (apply rank1_lt_set; auto; lia). lia.
Qed.

Lemma ubit_true_nonneg h p i : ubit h p i = true -> 0 <= i.
Proof.
  intros H. destruct (ubit_true_cell _ _ _ H) as (w & Hw & _).
  destruct (cell_Some_block _ _ _ _ Hw) as (b & _ & Hr & _).
  destruct (Z.lt_ge_cases i 0) as [Hneg|]; auto.
  assert (i / 64 < 0) by (apply Z.div_lt_upper_bound; lia). lia.
Qed.

(** ** The three loops of [simple_select_build] *)

Lemma land_mask_mod d l2 : 0 <= l2 -> Z.land d (2 ^ l2 - 1) = d mod 2 ^ l2.
Proof.
  intros H. replace (2 ^ l2 - 1) with (Z.ones l2) by (rewrite Z.ones_equiv; lia).
  apply Z.land_ones. exact H.
Qed.

Lemma block_index d l2 :
  0 <= l2 -> 0 <= d < 2 ^ 31 -> sext32 (Z.shiftr d l2) = d / 2 ^ l2.
Proof.
  intros Hl Hd. rewrite Z.shiftr_div_pow2 by lia.
  assert (0 < 2 ^ l2) by (apply Z.pow_pos_nonneg; lia).
  apply sext32_small. split.
  - assert (0 <= d / 2 ^ l2) by (apply Z.div_pos; lia). lia.
  - assert (d / 2 ^ l2 <= d) by (apply Z.div_le_upper_bound; nia). lia.
Qed.

Section BuildPasses.
Variables (ef : elias_fano_list) (h0 : heap) (bU : block) (len : Z).
Local Abbreviation A := (ba_A (ef_upper ef)).
Local Abbreviation inv := (ef_inventory ef).
Local Abbreviation l2 := (ef_log2_ones_per_inventory ef).
Local Abbreviation opi := (2 ^ ef_log2_ones_per_inventory ef).
Local Abbreviation isz := (ef_inventory_size ef).
Local Abbreviation n := (ef_num_ones ef).
Hypothesis Hs : ba_s (ef_upper ef) < 0.
Hypothesis Hl2 : 0 <= l2 < 31.
Hypothesis Hmask : ef_ones_per_inventory_mask ef = opi - 1.
Hypothesis Hne : A <> inv.
Hypothesis HbU : hp_blocks h0 !! A = Some bU.
Hypothesis HW : words_ok h0 A.
Hypothesis Hlen : 0 <= len <= 64 * blk_len bU.
Hypothesis Hn : rank1 h0 A len = n.
Hypothesis Hn31 : n < 2 ^ 31.
Hypothesis Hisz : (isz - 1) * opi < n <= isz * opi.

(** The inventory as the first loop leaves it below rank [d]: the entry of
    block [b] is the position of the one of rank [b * ones_per_inventory]. *)
Local Abbreviation inventory_upto h d i :=
  (forall b, 0 <= b -> b * opi < d ->
     exists p, cell h inv b = Some p /\ 0 <= p < i
               /\ ubit h0 A p = true /\ rank1 h0 A p = b * opi).

Lemma opi_pos : 0 < opi.
Proof. apply Z.pow_pos_nonneg; lia. Qed.

Lemma getbitk_in_pass h i :
  only_cells_of inv h0 h -> 0 <= i < len ->
  bit_array_getbitk (ef_upper ef) i h = Some (Z.b2z (ubit h0 A i), h).
Proof.
  intros O Hi.
  rewrite <- (only_cells_ubit _ _ _ _ i O Hne).
  apply getbitk_defined with (b := bU); auto.
  - apply (only_cells_words_ok _ _ _ _ O Hne HW).
  - rewrite (only_cells_block _ _ _ _ O Hne). exact HbU.
  - lia.
Qed.

Lemma rank_below_total i : 0 <= i < len -> ubit h0 A i = true -> rank1 h0 A i < n.
Proof.
  intros Hi Hu. rewrite <- Hn. apply rank1_lt_set; auto.
Qed.

Lemma inventory_pass_spec bI :
  hp_blocks h0 !! inv = Some bI -> blk_len bI = isz + 1 ->
  exists h1,
    for_range (Z.to_nat len) 0 (inventory_pass_body ef) 0 h0 = Some (n, h1)
    /\ only_cells_of inv h0 h1
    /\ inventory_upto h1 n len.
Proof.
  intros HbI HlenI.
  pose (I := fun (i d : Z) (h : heap) =>
               d = rank1 h0 A i /\ only_cells_of inv h0 h /\ inventory_upto h d i).
  destruct (for_range_inv I (inventory_pass_body ef) (Z.to_nat len) 0 0 h0)
    as (d & h1 & E & Hd & O1 & Inv1).
  { repeat split; [apply only_cells_refl|]. intros b Hb Hlt.
    pose proof opi_pos. nia. }
  { intros i d h Hi (Hd & O & Inv).
    assert (Hi' : 0 <= i < len) by lia.
    unfold inventory_pass_body.
    rewrite (bindM_eq _ _ _ _ _ (getbitk_in_pass h i O Hi')).
    destruct (ubit h0 A i) eqn:Hu; cbn [Z.b2z].
    - change (1 =? 1) with true. cbv iota.
      pose proof (rank_below_total i Hi' Hu) as Hdn.
      pose proof (rank1_nonneg h0 A i) as Hd0.
      pose proof opi_pos as Hopi.
      rewrite Hmask, land_mask_mod by lia.
      destruct (d mod opi =? 0) eqn:Hm.
      + apply Z.eqb_eq in Hm.
        rewrite block_index by lia.
        assert (Hdb : d = d / opi * opi).
        { pose proof (Z.div_mod d opi ltac:(lia)). lia. }
        assert (Hb0 : 0 <= d / opi) by (apply Z.div_pos; lia).
        assert (Hb1 : d / opi < isz) by nia.
        destruct O as (N & Oq & L). destruct (L bI HbI) as (b' & Hb' & Hlen').
        assert (Hin : 0 <= d / opi < blk_len b') by lia.
        destruct (aset_defined inv (d / opi) i h b' Hb' Hin) as (h' & Eset).
        exists (d + 1), h'. split.
        { rewrite (bindM_eq _ _ _ _ _ Eset). reflexivity. }
        split; [rewrite rank1_succ by lia; rewrite Hu; cbn; lia|].
        split.
        { apply only_cells_trans with h; [repeat split; auto|].
          apply (aset_only_cells _ _ _ _ _ _ Eset). }
        intros b Hb Hlt.
        destruct (Z.eq_dec b (d / opi)) as [->|Hneq].
        * exists i. rewrite (aset_cell_same _ _ _ _ _ _ Eset).
          repeat split; auto; lia.
        * assert (Hlt' : b * opi < d) by nia.
          destruct (Inv b Hb Hlt') as (p & Hp & Hpi & Hpu & Hpr).
          exists p. rewrite (aset_cell_other _ _ _ _ _ _ inv b Eset) by (right; exact Hneq).
          repeat split; auto; lia.
      + apply Z.eqb_neq in Hm.
        exists (d + 1), h. split; [reflexivity|].
        split; [rewrite rank1_succ by lia; rewrite Hu; cbn; lia|].
        split; [exact O|].
        intros b Hb Hlt.
        assert (Hlt' : b * opi < d).
        { destruct (Z.eq_dec (b * opi) d) as [Heq|]; [|lia].
          exfalso. apply Hm. rewrite <- Heq. apply Z.mod_mul. lia. }
        destruct (Inv b Hb Hlt') as (p & Hp & Hpi & Hpu & Hpr).
        exists p. repeat split; auto; lia.
    - change (0 =? 1) with false. cbv iota.
      exists d, h. split; [reflexivity|].
      split; [rewrite rank1_succ by lia; rewrite Hu; cbn; lia|].
      split; [exact O|].
      intros b Hb Hlt. destruct (Inv b Hb Hlt) as (p & Hp & Hpi & Hpu & Hpr).
      exists p. repeat split; auto; lia. }
  replace (0 + Z.of_nat (Z.to_nat len)) with len in * by lia.
  rewrite Hn in Hd. subst d.
  exists h1. split; [exact E|]. split; [exact O1|]. exact Inv1.
Qed.

Lemma spill_count_spec h2 l0 :
  only_cells_of inv h0 h2 ->
  inventory_upto h2 n len ->
  is_Some (cell h2 inv isz) ->
  bl_d l0 = 0 ->
  exists l, for_range (Z.to_nat len) 0 (spill_count_body ef) l0 h2 = Some (l, h2).
Proof.
  intros O Inv [vlast Hlast] Hl0.
  pose (I := fun (i : Z) (l : build_locals) (h : heap) => h = h2 /\ bl_d l = rank1 h0 A i).
  destruct (for_range_inv I (spill_count_body ef) (Z.to_nat len) 0 l0 h2)
    as (l & h & E & -> & _).
  { split; [reflexivity | exact Hl0]. }
  { intros i l h Hi (-> & Hd).
    assert (Hi' : 0 <= i < len) by lia.
    unfold spill_count_body.
    rewrite (bindM_eq _ _ _ _ _ (getbitk_in_pass h2 i O Hi')).
    destruct (ubit h0 A i) eqn:Hu; cbn [Z.b2z].
    - change (1 =? 1) with true. cbv iota zeta.
      pose proof (rank_below_total i Hi' Hu) as Hdn.
      pose proof (rank1_nonneg h0 A i) as Hd0.
      pose proof opi_pos as Hopi.
      rewrite Hd, Hmask, land_mask_mod by lia.
      destruct (rank1 h0 A i mod opi =? 0) eqn:Hm.
      + apply Z.eqb_eq in Hm.
        rewrite !block_index by lia.
        set (d := rank1 h0 A i) in *.
        assert (Hdb : d = d / opi * opi).
        { pose proof (Z.div_mod d opi ltac:(lia)). lia. }
        assert (Hb0 : 0 <= d / opi) by (apply Z.div_pos; lia).
        destruct (Inv (d / opi) Hb0 ltac:(lia)) as (p & Hp & _).
        assert (Hnext : exists p', cell h2 inv (d / opi + 1) = Some p').
        { destruct (Z.lt_ge_cases ((d / opi + 1) * opi) n) as [Hlt|Hge].
          - destruct (Inv (d / opi + 1) ltac:(lia) Hlt) as (p' & Hp' & _). eauto.
          - assert (d / opi + 1 = isz) by nia. exists vlast. congruence. }
        destruct Hnext as (p' & Hp').
        rewrite (bindM_eq _ _ _ _ _ (aget_of_cell _ _ _ _ Hp)).
        rewrite (bindM_eq _ _ _ _ _ (aget_of_cell _ _ _ _ Hp')).
        eexists _, h2. split; [reflexivity|]. split; [reflexivity|].
        cbn [bl_d]. rewrite rank1_succ by lia. rewrite Hu. reflexivity.
      + eexists _, h2. split; [reflexivity|]. split; [reflexivity|].
        cbn [bl_d]. rewrite rank1_succ by lia. rewrite Hu. reflexivity.
    - change (0 =? 1) with false. cbv iota.
      exists l, h2. split; [reflexivity|]. split; [reflexivity|].
      rewrite rank1_succ by lia. rewrite Hu. cbn. lia. }
  exists l. exact E.
Qed.

End BuildPasses.

(** With the first block narrow, the third loop never leaves that block
    and writes nothing. *)
Lemma spill_fill_idle ef h b len s0 s1 l0 :
  ba_s (ef_upper ef) < 0 -> words_ok h (ba_A (ef_upper ef)) ->
  hp_blocks h !! ba_A (ef_upper ef) = Some b -> 0 <= len <= 64 * blk_len b ->
  0 <= ef_log2_ones_per_inventory ef ->
  cell h (ef_inventory ef) 0 = Some s0 -> cell h (ef_inventory ef) 1 = Some s1 ->
  wrap64 (s1 - wrap64 s0) < MAX_SPAN ->
  bl_d l0 = 0 ->
  exists l, for_range (Z.to_nat len) 0 (spill_fill_body ef) l0 h = Some (l, h).
Proof.
  intros Hs W Hb Hlen Hl2 H0 H1 Hspan Hl0.
  pose (I := fun (i : Z) (l : build_locals) (h' : heap) => h' = h /\ bl_d l = 0).
  destruct (for_range_inv I (spill_fill_body ef) (Z.to_nat len) 0 l0 h)
    as (l & h' & E & -> & _).
  { split; [reflexivity | exact Hl0]. }
  { intros i l h' Hi (-> & Hd).
    unfold spill_fill_body.
    rewrite (bindM_eq _ _ _ _ _ (getbitk_defined _ _ _ i Hs W Hb ltac:(lia))).
    destruct (ubit h (ba_A (ef_upper ef)) i); cbn [Z.b2z].
    - change (1 =? 1) with true. cbv iota zeta.
      rewrite Hd. rewrite Z.land_0_l. change (0 =? 0) with true. cbv iota.
      rewrite Z.shiftr_0_l. change (sext32 0) with 0.
      change (0 + 1) with 1.
      unfold bind. rewrite (aget_of_cell _ _ _ _ H0). cbv iota beta.
      rewrite (aget_of_cell _ _ _ _ H1). cbv iota beta.
      unfold ret at 1. cbv iota beta. cbn [bl_span].
      replace (wrap64 (s1 - wrap64 s0) <? MAX_SPAN) with true
        by (symmetry; apply Z.ltb_lt; exact Hspan).
      eexists _, h. split; [reflexivity|]. split; reflexivity.
    - change (0 =? 1) with false. cbv iota.
      exists l, h. split; [reflexivity|]. split; [reflexivity | exact Hd]. }
  exists l. exact E.
Qed.

(** ** The figures [simple_select_build] computes *)

Lemma ones_upto_le f n : ones_upto f n <= Z.of_nat n.
Proof.
  induction n as [|n IH]; cbn [ones_upto]; [lia|]. destruct (f (Z.of_nat n)); cbn; lia.
Qed.

Lemma rank1_le h p i : 0 <= i -> rank1 h p i <= i.
Proof.
  intros Hi. unfold rank1. pose proof (ones_upto_le (ubit h p) (Z.to_nat i)). lia.
Qed.

Lemma window_value n len :
  0 < n -> n <= len -> len < 2 ^ 62 -> n < 2 ^ 31 ->
  (if len =? 0 then 1
   else sext32 (wrap64 (n * MAX_ONES_PER_INVENTORY + len - 1) / len))
  = (n * MAX_ONES_PER_INVENTORY + len - 1) / len
  /\ 1 <= (n * MAX_ONES_PER_INVENTORY + len - 1) / len <= 8192.
Proof.
  intros Hn Hle Hlen Hn31. unfold MAX_ONES_PER_INVENTORY.
  assert (Hq : 1 <= (n * 8192 + len - 1) / len <= 8192).
  { split.
    - apply Z.div_le_lower_bound; lia.
    - assert ((n * 8192 + len - 1) / len < 8193); [|lia].
      apply Z.div_lt_upper_bound; lia. }
  split; [|exact Hq].
  replace (len =? 0) with false by (symmetry; apply Z.eqb_neq; lia).
  rewrite wrap64_small by lia. apply sext32_small. lia.
Qed.

Lemma log2_window q : 1 <= q <= 8192 -> 0 <= Z.log2 q <= 13.
Proof.
  intros Hq. split; [apply Z.log2_nonneg|].
  change 13 with (Z.log2 8192). apply Z.log2_le_mono. lia.
Qed.

Lemma pow2_small L : 0 <= L <= 13 -> 1 <= 2 ^ L <= 8192.
Proof.
  intros HL. split.
  - assert (0 < 2 ^ L) by (apply Z.pow_pos_nonneg; lia). lia.
  - change 8192 with (2 ^ 13). apply Z.pow_le_mono_r; lia.
Qed.

Lemma opi_value L : 0 <= L <= 13 -> sext32 (Z.shiftl 1 L) = 2 ^ L.
Proof.
  intros HL. rewrite Z.shiftl_1_l. pose proof (pow2_small L HL).
  apply sext32_small. lia.
Qed.

Lemma inventory_size_value n L :
  0 < n < 2 ^ 31 -> 0 <= L <= 13 ->
  sext32 (Z.quot (n + 2 ^ L - 1) (2 ^ L)) = (n + 2 ^ L - 1) / 2 ^ L
  /\ ((n + 2 ^ L - 1) / 2 ^ L - 1) * 2 ^ L < n <= (n + 2 ^ L - 1) / 2 ^ L * 2 ^ L.
Proof.
  intros Hn HL. pose proof (pow2_small L HL) as Hp.
  rewrite Z.quot_div_nonneg by lia.
  pose proof (Z.div_mod (n + 2 ^ L - 1) (2 ^ L) ltac:(lia)) as Hdm.
  pose proof (Z.mod_pos_bound (n + 2 ^ L - 1) (2 ^ L) ltac:(lia)) as Hmb.
  assert (Hk : 0 <= (n + 2 ^ L - 1) / 2 ^ L <= n).
  { split; [apply Z.div_pos; lia|]. apply Z.div_le_upper_bound; nia. }
  split; [apply sext32_small; lia | nia].
Qed.

(** Releasing the default spill and allocating a larger one leaves every
    other block alone. *)
Lemma respill_frame ef sz h :
  heap_wf h ->
  ef_exact_spill ef = 0 \/ is_Some (hp_blocks h !! ef_exact_spill ef) ->
  exists p h',
    (do _ <- free (ef_exact_spill ef); do p <- malloc sz; ret (set_spill ef sz p)) h
    = Some (set_spill ef sz p, h')
    /\ forall q, q <> ef_exact_spill ef -> is_Some (hp_blocks h !! q) ->
                 hp_blocks h' !! q = hp_blocks h !! q.
Proof.
  intros Hwf Hsp. apply heap_wf_iff in Hwf. destruct Hwf as (Hpos & Hfresh).
  unfold bind, free, malloc, ret.
  destruct (ef_exact_spill ef =? 0) eqn:E0.
  - eexists _, _. split; [reflexivity|]. intros q _ [b Hb]. cbn.
    apply lookup_insert_ne. intros <-. rewrite Hfresh in Hb by lia. discriminate.
  - apply Z.eqb_neq in E0. destruct Hsp as [?|[b Hb]]; [contradiction|].
    rewrite Hb. eexists _, _. split; [reflexivity|]. intros q Hq [b' Hb']. cbn.
    rewrite lookup_insert_ne.
    + apply lookup_delete_ne. congruence.
    + intros <-. rewrite Hfresh in Hb' by lia. discriminate.
Qed.

Lemma simple_select_build_spec ef num_ones spill_var_len h bU p0 :
  heap_wf h ->
  ba_s (ef_upper ef) < 0 ->
  words_ok h (ba_A (ef_upper ef)) ->
  hp_blocks h !! ba_A (ef_upper ef) = Some bU ->
  0 <= ef_bitarraylen ef <= 64 * blk_len bU -> ef_bitarraylen ef < 2 ^ 62 ->
  rank1 h (ba_A (ef_upper ef)) (ef_bitarraylen ef) = num_ones ->
  0 < num_ones < 2 ^ 31 ->
  ef_exact_spill ef = 0 \/ is_Some (hp_blocks h !! ef_exact_spill ef) ->
  ef_exact_spill ef <> ba_A (ef_upper ef) ->
  ubit h (ba_A (ef_upper ef)) p0 = true -> rank1 h (ba_A (ef_upper ef)) p0 = 0 ->
  first_block_narrow h (ba_A (ef_upper ef)) (ef_bitarraylen ef) num_ones p0 ->
  exists r ef' h',
    simple_select_build ef num_ones spill_var_len h = Some (r, ef', h')
    /\ (r = 0 \/ (r = eflist_spill_too_small /\ spill_var_len = 0))
    /\ (forall q, q <> ef_exact_spill ef -> is_Some (hp_blocks h !! q) ->
                  hp_blocks h' !! q = hp_blocks h !! q)
    /\ ef_upper ef' = ef_upper ef /\ ef_lower ef' = ef_lower ef /\ ef_s ef' = ef_s ef
    /\ ef_num_ones ef' = num_ones
    /\ 0 <= ef_log2_ones_per_inventory ef' <= 13
    /\ ef_ones_per_inventory ef' = block_ones num_ones (ef_bitarraylen ef)
    /\ ef_ones_per_inventory_mask ef' = 2 ^ ef_log2_ones_per_inventory ef' - 1
    /\ (forall b, 0 <= b -> b * 2 ^ ef_log2_ones_per_inventory ef' < num_ones ->
          exists p, cell h' (ef_inventory ef') b = Some p /\ 0 <= p < ef_bitarraylen ef
                    /\ ubit h (ba_A (ef_upper ef)) p = true
                    /\ rank1 h (ba_A (ef_upper ef)) p
                       = b * 2 ^ ef_log2_ones_per_inventory ef').
Proof.
  intros Hwf Hs HW HbU Hlen Hlen62 Hrank Hn Hsp Hspne Hu0 Hr0 Hnarrow.
  assert (Hnl : num_ones <= ef_bitarraylen ef) by (rewrite <- Hrank; apply rank1_le; lia).
  destruct (window_value num_ones (ef_bitarraylen ef)) as (Hwin & HQ); try lia.
  pose proof (log2_window _ HQ) as HL.
  destruct (inventory_size_value num_ones _ Hn HL) as (HK & HKb).
  unfold first_block_narrow, block_ones in Hnarrow.
  unfold simple_select_build, block_ones. cbv zeta. unfold ilog2. rewrite Hwin.
  rewrite (opi_value _ HL). rewrite HK.
  set (Q := (num_ones * MAX_ONES_PER_INVENTORY + ef_bitarraylen ef - 1) / ef_bitarraylen ef) in *.
  set (L := Z.log2 Q) in *.
  set (K := (num_ones + 2 ^ L - 1) / 2 ^ L) in *.
  unfold c_assert. replace (0 <? Q) with true by (symmetry; apply Z.ltb_lt; lia).
  rewrite (bindM_eq _ _ _ _ _ (eq_refl : ret tt h = Some (tt, h))).
  rewrite (bindM_eq _ _ _ _ _ (malloc_spec (K + 1) h)).
  set (ef1 := set_select ef num_ones L (2 ^ L) (2 ^ L - 1) K (hp_next h)).
  set (h0 := Heap _ _).
  destruct (proj1 (heap_wf_iff _) Hwf) as (Hpos & Hfresh).
  assert (HAinv : ba_A (ef_upper ef) <> hp_next h).
  { intros E. rewrite E, Hfresh in HbU by lia. discriminate. }
  assert (Hblk0 : forall q, q <> hp_next h -> hp_blocks h0 !! q = hp_blocks h !! q).
  { intros q Hq. unfold h0. cbn. apply lookup_insert_ne. congruence. }
  assert (Hlive : forall q, is_Some (hp_blocks h !! q) -> q <> hp_next h).
  { intros q [b Hb] ->. rewrite Hfresh in Hb by lia. discriminate. }
  assert (HbI : hp_blocks h0 !! hp_next h = Some (Block (K + 1) ∅)) by apply lookup_insert_eq.
  assert (Hwf0 : heap_wf h0).
  { apply heap_wf_iff. split; [cbn; lia|]. intros q Hq. cbn in Hq. cbn.
    rewrite lookup_insert_ne by lia. apply Hfresh. lia. }
  assert (G1 : ba_s (ef_upper ef1) < 0) by exact Hs.
  assert (G2 : 0 <= ef_log2_ones_per_inventory ef1 < 31) by (unfold ef1; cbn; lia).
  assert (G3 : ef_ones_per_inventory_mask ef1 = 2 ^ ef_log2_ones_per_inventory ef1 - 1)
    by reflexivity.
  assert (G4 : ba_A (ef_upper ef1) <> ef_inventory ef1) by exact HAinv.
  assert (G5 : hp_blocks h0 !! ba_A (ef_upper ef1) = Some bU).
  { unfold ef1; cbn. rewrite Hblk0; auto. }
  assert (G6 : words_ok h0 (ba_A (ef_upper ef1))).
  { unfold ef1; cbn. apply (block_eq_words_ok h); [apply Hblk0; auto | exact HW]. }
  assert (G8 : rank1 h0 (ba_A (ef_upper ef1)) (ef_bitarraylen ef) = ef_num_ones ef1).
  { unfold ef1; cbn. rewrite (block_eq_rank1 h); [exact Hrank | apply Hblk0; auto]. }
  assert (G9 : ef_num_ones ef1 < 2 ^ 31) by (unfold ef1; cbn; lia).
  assert (G10 : (ef_inventory_size ef1 - 1) * 2 ^ ef_log2_ones_per_inventory ef1
                < ef_num_ones ef1
                <= ef_inventory_size ef1 * 2 ^ ef_log2_ones_per_inventory ef1)
    by exact HKb.
  destruct (inventory_pass_spec ef1 h0 bU _ G1 G2 G3 G4 G5 G6 Hlen G8 G9 G10
              (Block (K + 1) ∅) HbI eq_refl) as (h1 & E1 & O1 & Inv1).
  rewrite (bindM_eq _ _ _ _ _ E1).
  pose proof O1 as (N1 & Oq1 & L1).
  destruct (L1 _ HbI) as (bI1 & HbI1 & HlenI1). cbn in HlenI1.
  assert (HK0 : 0 < K) by nia.
  destruct (aset_defined (ef_inventory ef1) (ef_inventory_size ef1) (ef_bitarraylen ef)
              h1 bI1 HbI1) as (h2 & E2).
  { unfold ef1; cbn. lia. }
  rewrite (bindM_eq _ _ _ _ _ E2).
  assert (O2 : only_cells_of (ef_inventory ef1) h0 h2).
  { apply only_cells_trans with h1; [exact O1 | apply (aset_only_cells _ _ _ _ _ _ E2)]. }
  assert (Hlast : cell h2 (ef_inventory ef1) (ef_inventory_size ef1) = Some (ef_bitarraylen ef))
    by apply (aset_cell_same _ _ _ _ _ _ E2).
  assert (Inv2 : forall b, 0 <= b -> b * 2 ^ ef_log2_ones_per_inventory ef1 < ef_num_ones ef1 ->
            exists p, cell h2 (ef_inventory ef1) b = Some p /\ 0 <= p < ef_bitarraylen ef
                      /\ ubit h0 (ba_A (ef_upper ef1)) p = true
                      /\ rank1 h0 (ba_A (ef_upper ef1)) p
                         = b * 2 ^ ef_log2_ones_per_inventory ef1).
  { intros b Hb Hlt. destruct (Inv1 b Hb Hlt) as (p & Hp & Hrest).
    exists p. split; [|exact Hrest].
    rewrite (aset_cell_other _ _ _ _ _ _ (ef_inventory ef1) b E2); [exact Hp|].
    right. unfold ef1 in *; cbn in *. nia. }
  assert (Hwf2 : heap_wf h2).
  { apply (only_cells_wf _ _ _ O2); [eexists; exact HbI | exact Hwf0]. }
  assert (Hblk2 : forall q, is_Some (hp_blocks h !! q) -> hp_blocks h2 !! q = hp_blocks h !! q).
  { intros q Hq. rewrite (only_cells_block _ _ _ _ O2) by (apply Hlive; exact Hq).
    apply Hblk0, Hlive, Hq. }
  assert (HbUis : is_Some (hp_blocks h !! ba_A (ef_upper ef))) by (eexists; exact HbU).
  assert (InvH : forall b, 0 <= b -> b * 2 ^ L < num_ones ->
            exists p, cell h2 (hp_next h) b = Some p /\ 0 <= p < ef_bitarraylen ef
                      /\ ubit h (ba_A (ef_upper ef)) p = true
                      /\ rank1 h (ba_A (ef_upper ef)) p = b * 2 ^ L).
  { intros b Hb Hlt. destruct (Inv2 b Hb Hlt) as (p & Hp & Hpr & Hpu & Hrk).
    exists p. split; [exact Hp|]. split; [exact Hpr|].
    unfold ef1 in Hpu, Hrk; cbn in Hpu, Hrk.
    rewrite (block_eq_ubit h) in Hpu by (apply Hblk0; auto).
    rewrite (block_eq_rank1 h) in Hrk by (apply Hblk0; auto). auto. }
  assert (Tail : exists r ef' h',
    (if 1 <? ef_ones_per_inventory ef1
     then
       do l <- for_range (Z.to_nat (ef_bitarraylen ef)) 0 (spill_count_body ef1)
                 (BuildLocals 0 0 0 0 0);
       if (0 <? bl_spilled l) && (ef_spill_size ef1 <? bl_spilled l) && (spill_var_len =? 0)
       then ret (eflist_spill_too_small, ef1)
       else
         do ef0 <- (if (0 <? bl_spilled l) && (ef_spill_size ef1 <? bl_spilled l)
                    then do _ <- free (ef_exact_spill ef1);
                         do p <- malloc (bl_spilled l);
                         ret (set_spill ef1 (bl_spilled l) p)
                    else ret ef1);
         do _ <- for_range (Z.to_nat (ef_bitarraylen ef)) 0 (spill_fill_body ef0)
                   (BuildLocals 0 0 (bl_inventory_index l) (bl_start l) (bl_span l));
         ret (0, ef0)
     else ret (0, ef1)) h2 = Some (r, ef', h')
    /\ (r = 0 \/ (r = eflist_spill_too_small /\ spill_var_len = 0))
    /\ (ef' = ef1 \/ exists sz p, ef' = set_spill ef1 sz p)
    /\ (forall q, q <> ef_exact_spill ef -> is_Some (hp_blocks h2 !! q) ->
                  hp_blocks h' !! q = hp_blocks h2 !! q)).
  { change (ef_ones_per_inventory ef1) with (2 ^ L).
    destruct (1 <? 2 ^ L) eqn:Hopi.
    2:{ exists 0, ef1, h2. split; [reflexivity|]. split; [left; reflexivity|].
        split; [left; reflexivity|]. intros; reflexivity. }
    apply Z.ltb_lt in Hopi.
    destruct (spill_count_spec ef1 h0 bU _ G1 G2 G3 G4 G5 G6 Hlen G8 G9 G10 h2
                (BuildLocals 0 0 0 0 0) O2 Inv2 (mk_is_Some _ _ Hlast) eq_refl) as (l & E3).
    rewrite (bindM_eq _ _ _ _ _ E3).
    destruct ((0 <? bl_spilled l) && (ef_spill_size ef1 <? bl_spilled l)
              && (spill_var_len =? 0)) eqn:Hsmall.
    { exists eflist_spill_too_small, ef1, h2. split; [reflexivity|].
      split; [right; split; [reflexivity|]|].
      - apply andb_true_iff in Hsmall. apply Z.eqb_eq. tauto.
      - split; [left; reflexivity|]. intros; reflexivity. }
    assert (Respill : exists ef3 h3,
      (if (0 <? bl_spilled l) && (ef_spill_size ef1 <? bl_spilled l)
       then do _ <- free (ef_exact_spill ef1);
            do p <- malloc (bl_spilled l);
            ret (set_spill ef1 (bl_spilled l) p)
       else ret ef1) h2 = Some (ef3, h3)
      /\ (ef3 = ef1 \/ exists sz p, ef3 = set_spill ef1 sz p)
      /\ (forall q, q <> ef_exact_spill ef -> is_Some (hp_blocks h2 !! q) ->
                    hp_blocks h3 !! q = hp_blocks h2 !! q)).
    { destruct ((0 <? bl_spilled l) && (ef_spill_size ef1 <? bl_spilled l)).
      - destruct (respill_frame ef1 (bl_spilled l) h2 Hwf2) as (p & h3 & E & Fr).
        { destruct Hsp as [Hz|Hlv]; [left; exact Hz | right].
          change (ef_exact_spill ef1) with (ef_exact_spill ef).
          rewrite Hblk2; auto. }
        exists (set_spill ef1 (bl_spilled l) p), h3. split; [exact E|].
        split; [right; eauto | exact Fr].
      - exists ef1, h2. split; [reflexivity|]. split; [left; reflexivity|].
        intros; reflexivity. }
    destruct Respill as (ef3 & h3 & E4 & Hef3 & Fr3).
    rewrite (bindM_eq _ _ _ _ _ E4).
    assert (Fields : ef_upper ef3 = ef_upper ef /\ ef_inventory ef3 = hp_next h
                     /\ ef_log2_ones_per_inventory ef3 = L).
    { destruct Hef3 as [->|(sz & p & ->)]; repeat split; reflexivity. }
    destruct Fields as (FU & FI & FL).
    assert (HA3 : hp_blocks h3 !! ba_A (ef_upper ef) = hp_blocks h !! ba_A (ef_upper ef)).
    { rewrite Fr3; [apply Hblk2; auto | congruence | rewrite Hblk2; auto]. }
    assert (HI3 : hp_blocks h3 !! hp_next h = hp_blocks h2 !! hp_next h).
    { apply Fr3.
      - destruct Hsp as [Hz|Hlv]; [lia | intros E; symmetry in E; revert E; apply Hlive, Hlv].
      - destruct (proj2 (proj2 O2) _ HbI) as (b2 & Hb2 & _). eexists; exact Hb2. }
    pose proof (pow2_small L HL) as HpL.
    destruct (InvH 0 ltac:(lia) ltac:(lia)) as (q0 & Hq0 & Hq0r & Hq0u & Hq0k).
    assert (q0 = p0).
    { apply (rank1_inj h (ba_A (ef_upper ef)));
        [lia | apply (ubit_true_nonneg _ _ _ Hu0) | exact Hq0u | exact Hu0 | lia]. }
    subst q0.
    assert (Hs1 : exists s1, cell h2 (hp_next h) 1 = Some s1 /\ p0 < s1 <= ef_bitarraylen ef
                             /\ s1 - p0 < MAX_SPAN).
    { destruct Hnarrow as [Hone|Hnar]; [lia|].
      destruct (2 ^ L <? num_ones) eqn:Hcmp.
      - apply Z.ltb_lt in Hcmp.
        destruct (InvH 1 ltac:(lia) ltac:(lia)) as (p1 & Hp1 & Hp1r & Hp1u & Hp1k).
        exists p1. split; [exact Hp1|].
        assert (p0 < p1).
        { destruct (Z.lt_ge_cases p0 p1) as [|Hge]; auto.
          pose proof (rank1_mono h (ba_A (ef_upper ef)) p1 p0 ltac:(lia)). lia. }
        split; [lia|].
        destruct (Z.lt_ge_cases p1 (p0 + MAX_SPAN)) as [|Hge]; [lia|].
        pose proof (rank1_mono h (ba_A (ef_upper ef)) (p0 + MAX_SPAN) p1
                      ltac:(change MAX_SPAN with 65536 in *; lia)). lia.
      - apply Z.ltb_ge in Hcmp. assert (K = 1) by nia.
        exists (ef_bitarraylen ef). split.
        + unfold ef1 in Hlast; cbn in Hlast. congruence.
        + lia. }
    destruct Hs1 as (s1 & Hc1 & Hs1r & Hspan).
    destruct (spill_fill_idle ef3 h3 bU (ef_bitarraylen ef) p0 s1
                (BuildLocals 0 0 (bl_inventory_index l) (bl_start l) (bl_span l)))
      as (l3 & E5); try (rewrite ?FU, ?FI, ?FL); auto; try lia.
    - apply (block_eq_words_ok h); [exact HA3 | exact HW].
    - rewrite HA3. exact HbU.
    - rewrite (block_eq_cell h2); [exact Hq0 | exact HI3].
    - rewrite (block_eq_cell h2); [exact Hc1 | exact HI3].
    - rewrite (wrap64_small p0) by lia. rewrite wrap64_small by lia. exact Hspan.
    - rewrite (bindM_eq _ _ _ _ _ E5).
      exists 0, ef3, h3. split; [reflexivity|]. split; [left; reflexivity|].
      split; [exact Hef3 | exact Fr3]. }
  destruct Tail as (r & ef' & h' & ET & Hr & Hef' & Fr).
  exists r, ef', h'. split; [exact ET|]. split; [exact Hr|].
  assert (Fields : ef_upper ef' = ef_upper ef /\ ef_lower ef' = ef_lower ef
                   /\ ef_s ef' = ef_s ef /\ ef_num_ones ef' = num_ones
                   /\ ef_inventory ef' = hp_next h
                   /\ ef_log2_ones_per_inventory ef' = L
                   /\ ef_ones_per_inventory ef' = 2 ^ L
                   /\ ef_ones_per_inventory_mask ef' = 2 ^ L - 1).
  { destruct Hef' as [->|(sz & p & ->)]; repeat split; reflexivity. }
  destruct Fields as (FU & FLo & FS & FN & FI & FL & FO & FM).
  rewrite FL, FI.
  split.
  { intros q Hq Hlv. rewrite Fr; [apply Hblk2; exact Hlv | exact Hq | rewrite Hblk2; auto]. }
  repeat (split; [first [assumption | lia]|]).
  intros b Hb Hlt. destruct (InvH b Hb Hlt) as (p & Hp & Hrest).
  exists p. split; [|exact Hrest].
  rewrite (block_eq_cell h2); [exact Hp|].
  apply Fr.
  - destruct Hsp as [Hz|Hlv]; [lia | intros E; symmetry in E; revert E; apply Hlive, Hlv].
  - destruct (proj2 (proj2 O2) _ HbI) as (b2 & Hb2 & _). eexists; exact Hb2.
Qed.

(** After the build every rank is selected, whatever the status. *)
Lemma build_then_select ef num_ones spill_var_len h bU p0 :
  heap_wf h ->
  ba_s (ef_upper ef) < 0 ->
  words_ok h (ba_A (ef_upper ef)) ->
  hp_blocks h !! ba_A (ef_upper ef) = Some bU ->
  0 <= ef_bitarraylen ef <= 64 * blk_len bU -> ef_bitarraylen ef < 2 ^ 62 ->
  rank1 h (ba_A (ef_upper ef)) (ef_bitarraylen ef) = num_ones ->
  0 < num_ones < 2 ^ 31 ->
  ef_exact_spill ef = 0 \/ is_Some (hp_blocks h !! ef_exact_spill ef) ->
  ef_exact_spill ef <> ba_A (ef_upper ef) ->
  ubit h (ba_A (ef_upper ef)) p0 = true -> rank1 h (ba_A (ef_upper ef)) p0 = 0 ->
  first_block_narrow h (ba_A (ef_upper ef)) (ef_bitarraylen ef) num_ones p0 ->
  exists r ef' h',
    simple_select_build ef num_ones spill_var_len h = Some (r, ef', h')
    /\ (r = 0 \/ (r = eflist_spill_too_small /\ spill_var_len = 0))
    /\ (forall q, q <> ef_exact_spill ef -> is_Some (hp_blocks h !! q) ->
                  hp_blocks h' !! q = hp_blocks h !! q)
    /\ ef_upper ef' = ef_upper ef /\ ef_lower ef' = ef_lower ef /\ ef_s ef' = ef_s ef
    /\ ef_ones_per_inventory ef' = block_ones num_ones (ef_bitarraylen ef)
    /\ forall rank, 0 <= rank < num_ones ->
         exists p, select_rank rank ef' h' = Some (p, h')
                   /\ ubit h (ba_A (ef_upper ef)) p = true
                   /\ rank1 h (ba_A (ef_upper ef)) p = rank.
Proof.
  intros Hwf Hs HW HbU Hlen Hlen62 Hrank Hn Hsp Hspne Hu0 Hr0 Hnarrow.
  destruct (simple_select_build_spec ef num_ones spill_var_len h bU p0
              Hwf Hs HW HbU Hlen Hlen62 Hrank Hn Hsp Hspne Hu0 Hr0 Hnarrow)
    as (r & ef' & h' & E & Hr & Fr & FU & FLo & FS & FN & HL & FO & FM & Inv).
  exists r, ef', h'. split; [exact E|]. split; [exact Hr|]. split; [exact Fr|].
  split; [exact FU|]. split; [exact FLo|]. split; [exact FS|]. split; [exact FO|].
  intros rank Hrk.
  set (L := ef_log2_ones_per_inventory ef') in *.
  pose proof (pow2_small L HL) as HpL.
  assert (HA' : hp_blocks h' !! ba_A (ef_upper ef) = hp_blocks h !! ba_A (ef_upper ef)).
  { apply Fr; [congruence | eexists; exact HbU]. }
  pose proof (Z.div_mod rank (2 ^ L) ltac:(lia)) as Hdm.
  pose proof (Z.mod_pos_bound rank (2 ^ L) ltac:(lia)) as Hmb.
  assert (Hb0 : 0 <= rank / 2 ^ L) by (apply Z.div_pos; lia).
  destruct (Inv (rank / 2 ^ L) Hb0 ltac:(nia)) as (p & Hp & Hpr & Hpu & Hpk).
  destruct (select_rank_spec ef' h' rank p bU) as (p' & Hsel & Hu' & Hk').
  - rewrite FU. apply (block_eq_words_ok h); [exact HA' | exact HW].
  - rewrite FU, HA'. exact HbU.
  - fold L. lia.
  - exact FM.
  - lia.
  - lia.
  - fold L. assert (rank / 2 ^ L <= rank) by (apply Z.div_le_upper_bound; nia). lia.
  - exact Hp.
  - lia.
  - rewrite FU, (block_eq_ubit h) by exact HA'. exact Hpu.
  - rewrite FU, (block_eq_rank1 h) by exact HA'. fold L. lia.
  - rewrite FU, (block_eq_rank1 h) by exact HA'.
    pose proof (rank1_mono h (ba_A (ef_upper ef)) (ef_bitarraylen ef) (64 * blk_len bU)
                  ltac:(lia)). lia.
  - exists p'. split; [exact Hsel|].
    rewrite FU, (block_eq_ubit h) in Hu' by exact HA'.
    rewrite FU, (block_eq_rank1 h) in Hk' by exact HA'. auto.
Qed.

(** [simple_select_build] over a bit array whose first block of ones is
    narrow: the call returns, with status 0 unless the fixed-size spill is
    too small; it allocates the inventory and at most a new spill and
    leaves every other live block as it was; and [select_rank] then
    returns, for every rank below [num_ones], the position of the set bit
    with exactly that many set bits below it. *)
Theorem simple_select_build_selects ef num_ones spill_var_len h bU p0 :
  heap_wf h ->
  ba_s (ef_upper ef) < 0 ->
  words_ok h (ba_A (ef_upper ef)) ->
  hp_blocks h !! ba_A (ef_upper ef) = Some bU ->
  0 <= ef_bitarraylen ef <= 64 * blk_len bU -> ef_bitarraylen ef < 2 ^ 62 ->
  rank1 h (ba_A (ef_upper ef)) (ef_bitarraylen ef) = num_ones ->
  0 < num_ones < 2 ^ 31 ->
  ef_exact_spill ef = 0 \/ is_Some (hp_blocks h !! ef_exact_spill ef) ->
  ef_exact_spill ef <> ba_A (ef_upper ef) ->
  ubit h (ba_A (ef_upper ef)) p0 = true -> rank1 h (ba_A (ef_upper ef)) p0 = 0 ->
  first_block_narrow h (ba_A (ef_upper ef)) (ef_bitarraylen ef) num_ones p0 ->
  exists r ef' h',
    simple_select_build ef num_ones spill_var_len h = Some (r, ef', h')
    /\ (r = 0 \/ (r = eflist_spill_too_small /\ spill_var_len = 0))
    /\ (forall q, q <> ef_exact_spill ef -> is_Some (hp_blocks h !! q) ->
                  hp_blocks h' !! q = hp_blocks h !! q)
    /\ ef_upper ef' = ef_upper ef /\ ef_lower ef' = ef_lower ef /\ ef_s ef' = ef_s ef
    /\ ef_ones_per_inventory ef' = block_ones num_ones (ef_bitarraylen ef)
    /\ forall rank, 0 <= rank < num_ones ->
         exists p, select_rank rank ef' h' = Some (p, h')
                   /\ ubit h (ba_A (ef_upper ef)) p = true
                   /\ rank1 h (ba_A (ef_upper ef)) p = rank.
Proof.
  apply build_then_select.
Qed.

Lemma simple_select_build_selects_witness :
  exists ef h ef' h' p,
    (do '(_, ef) <- eflist_init 4 20; add_all [5; 10; 15; 20] ef) heap_empty = Some (ef, h)
    /\ simple_select_build ef 4 0 h = Some (0, ef', h')
    /\ select_rank 2 ef' h' = Some (p, h')
    /\ ubit h (ba_A (ef_upper ef)) p = true
    /\ rank1 h (ba_A (ef_upper ef)) p = 2.
Proof.
  destruct ((do '(_, ef) <- eflist_init 4 20; add_all [5; 10; 15; 20] ef) heap_empty)
    as [[ef h]|] eqn:E; [|vm_compute in E; discriminate].
  vm_compute in E. injection E as <- <-.
  set (h := Heap _ _). set (ef := EFList _ _ _ _ _ _ _ _ _ _ _ _ _).
  destruct (hp_blocks h !! ba_A (ef_upper ef)) as [b|] eqn:Hb; [|vm_compute in Hb; discriminate].
  assert (Hbv : b = Block 1 (<[0 := 298]> ∅)).
  { vm_compute in Hb. injection Hb as <-. vm_compute. reflexivity. }
  assert (Hok : words_ok h (ba_A (ef_upper ef))).
  { exists b. split; [exact Hb|]. intros k Hk. rewrite Hbv in *. cbn in Hk.
    assert (k = 0) as -> by lia. exists 298. split; [reflexivity|lia]. }
  assert (Hwf : heap_wf h).
  { split; [reflexivity|]. apply map_Forall_to_list. vm_compute. repeat constructor. }
  destruct (simple_select_build_selects ef 4 0 h b 1 Hwf) as (r & ef' & h' & Eb & Hr & _ & _ & _ & _ & _ & Hsel);
    try exact Hok; try exact Hb.
  - cbn. lia.
  - rewrite Hbv. cbn. lia.
  - cbn. lia.
  - vm_compute. reflexivity.
  - lia.
  - right. vm_compute. eexists; reflexivity.
  - vm_compute. discriminate.
  - vm_compute. reflexivity.
  - vm_compute. reflexivity.
  - right. vm_compute. reflexivity.
  - destruct (Hsel 2 ltac:(lia)) as (p & Hp & Hpu & Hpk).
    assert (r = 0) by (vm_compute in Eb; congruence).
    subst r. exists ef, h, ef', h', p. auto.
Defined.

(** ** Fresh arrays *)

Lemma zero_cells_other n : forall (c : Zmap Z) k,
  k < 0 \/ Z.of_nat n <= k -> zero_cells n c !! k = c !! k.
Proof.
  induction n as [|n IH]; intros c k Hk; [reflexivity|].
  cbn [zero_cells]. rewrite IH by lia. apply lookup_insert_ne. lia.
Qed.

Lemma zero_cells_lookup n : forall (c : Zmap Z) k,
  0 <= k < Z.of_nat n -> zero_cells n c !! k = Some 0.
Proof.
  induction n as [|n IH]; intros c k Hk; [lia|].
  cbn [zero_cells]. destruct (Z.eq_dec k (Z.of_nat n)) as [->|Hne].
  - rewrite zero_cells_other by lia. apply lookup_insert_eq.
  - apply IH. lia.
Qed.

Lemma heap_wf_alloc h h' :
  hp_next h' = hp_next h + 1 ->
  (forall q, q <> hp_next h -> hp_blocks h' !! q = hp_blocks h !! q) ->
  heap_wf h -> heap_wf h'.
Proof.
  intros N O Hwf. apply heap_wf_iff in Hwf. destruct Hwf as (Hpos & Hfresh).
  apply heap_wf_iff. split; [lia|]. intros q Hq. rewrite O by lia. apply Hfresh. lia.
Qed.

Lemma malloc_frame n h :
  exists h', malloc n h = Some (hp_next h, h')
             /\ hp_next h' = hp_next h + 1
             /\ hp_blocks h' !! hp_next h = Some (Block n ∅)
             /\ forall q, q <> hp_next h -> hp_blocks h' !! q = hp_blocks h !! q.
Proof.
  eexists. split; [reflexivity|]. cbn. split; [reflexivity|].
  split; [apply lookup_insert_eq|]. intros q Hq. apply lookup_insert_ne. congruence.
Qed.

Lemma bit_array_create_spec ptr s size h :
  s <> 0 ->
  exists h' c,
    bit_array_create ptr s size h = Some (BitArray (hp_next h) s (ba_curr ptr), h')
    /\ hp_next h' = hp_next h + 1
    /\ hp_blocks h' !! hp_next h
       = Some (Block (if 0 <? s then Z.quot (s * size + 63) 64 else size) c)
    /\ (forall k, 0 <= k < (if 0 <? s then Z.quot (s * size + 63) 64 else size) ->
                  c !! k = Some 0)
    /\ (forall k, c !! k = Some 0 \/ c !! k = None)
    /\ forall q, q <> hp_next h -> hp_blocks h' !! q = hp_blocks h !! q.
Proof.
  intros Hs. unfold bit_array_create.
  replace (s =? 0) with false by (symmetry; apply Z.eqb_neq; exact Hs).
  set (len := if 0 <? s then Z.quot (s * size + 63) 64 else size).
  unfold bind, malloc, memset0, ret. cbn. rewrite lookup_insert_eq. cbn.
  rewrite Z.leb_refl.
  eexists _, _. split; [reflexivity|]. cbn. split; [reflexivity|].
  split; [apply lookup_insert_eq|]. split; [|split].
  - intros k Hk. apply zero_cells_lookup. lia.
  - intros k. destruct (Z.lt_ge_cases k 0) as [Hneg|Hk0].
    + right. rewrite zero_cells_other by lia. apply lookup_empty.
    + destruct (Z.lt_ge_cases k (Z.of_nat (Z.to_nat len))) as [Hlt|Hge].
      * left. apply zero_cells_lookup. lia.
      * right. rewrite zero_cells_other by lia. apply lookup_empty.
  - intros q Hq. rewrite !lookup_insert_ne by congruence. reflexivity.
Qed.

Lemma zero_block_words h a len (c : Zmap Z) :
  hp_blocks h !! a = Some (Block len c) ->
  (forall k, 0 <= k < len -> c !! k = Some 0) ->
  (forall k, c !! k = Some 0 \/ c !! k = None) ->
  words_ok h a /\ (forall p, ubit h a p = false) /\ (forall t, sbit h a t = false).
Proof.
  intros Hb Hc Hz. split; [|split].
  - exists (Block len c). split; [exact Hb|]. cbn. intros k Hk.
    exists 0. split; [apply Hc; exact Hk | lia].
  - intros p. unfold ubit, cell. rewrite Hb. destruct (in_block _ _); [|reflexivity].
    cbn [blk_cells]. destruct (Hz (p / 64)) as [-> | ->]; [apply Z.testbit_0_l | reflexivity].
  - intros t. unfold sbit, cell. rewrite Hb. destruct (in_block _ _); [|reflexivity].
    cbn [blk_cells]. destruct (Hz (t / 64)) as [-> | ->]; [apply Z.testbit_0_l | reflexivity].
Qed.

(** ** Writing bits and elements *)

Lemma aset_words_ok p k v h u h' :
  aset p k v h = Some (u, h') -> 0 <= v < 2 ^ 64 -> words_ok h p -> words_ok h' p.
Proof.
  intros H Hv (b & Hb & W). destruct (aset_Some _ _ _ _ _ _ H) as (b' & Hb' & Hk & ->).
  rewrite Hb in Hb'. injection Hb' as <-.
  eexists. split; [cbn; apply lookup_insert_eq|]. cbn. intros j Hj.
  destruct (Z.eq_dec j k) as [->|Hne].
  - exists v. split; [apply lookup_insert_eq | exact Hv].
  - rewrite lookup_insert_ne by congruence. apply W. exact Hj.
Qed.

Lemma setbit_spec ptr k h b :
  ba_s ptr < 0 -> words_ok h (ba_A ptr) -> hp_blocks h !! ba_A ptr = Some b ->
  0 <= k < 64 * blk_len b ->
  exists h',
    bit_array_setbit ptr k h = Some (0, h')
    /\ only_cells_of (ba_A ptr) h h'
    /\ words_ok h' (ba_A ptr)
    /\ forall p, ubit h' (ba_A ptr) p = ubit h (ba_A ptr) p || (p =? k).
Proof.
  intros Hs W Hb Hk. unfold bit_array_setbit, c_assert.
  replace (ba_s ptr <? 0) with true by (symmetry; apply Z.ltb_lt; lia).
  rewrite word_index, bit_index.
  assert (Hq : 0 <= k / 64 < blk_len b).
  { split; [apply Z.div_pos; lia | apply Z.div_lt_upper_bound; lia]. }
  pose proof (bit_index_range k) as Hr.
  destruct (words_ok_cell _ _ _ _ W Hb Hq) as (w & Hw & Hwr).
  rewrite (bindM_eq _ _ _ _ _ (eq_refl : ret tt h = Some (tt, h))).
  rewrite (bindM_eq _ _ _ _ _ (aget_of_cell _ _ _ _ Hw)).
  rewrite lsl64_one by lia.
  destruct (aset_defined (ba_A ptr) (k / 64) (Z.lor w (2 ^ (k mod 64))) h b Hb Hq)
    as (h' & Eset).
  rewrite (bindM_eq _ _ _ _ _ Eset).
  exists h'. split; [reflexivity|].
  split; [apply (aset_only_cells _ _ _ _ _ _ Eset)|].
  assert (Hnew : 0 <= Z.lor w (2 ^ (k mod 64)) < 2 ^ 64).
  { apply lor_range; [lia | exact Hwr |].
    split; [apply Z.pow_nonneg; lia | apply Z.pow_lt_mono_r; lia]. }
  split; [apply (aset_words_ok _ _ _ _ _ _ Eset Hnew W)|].
  intros p. unfold ubit.
  destruct (Z.eq_dec (p / 64) (k / 64)) as [Heq|Hne].
  - rewrite Heq, (aset_cell_same _ _ _ _ _ _ Eset), Hw.
    rewrite Z.lor_spec, Z.pow2_bits_eqb by lia.
    f_equal. pose proof (bit_index_range p).
    destruct (Z.eqb_spec (k mod 64) (p mod 64)) as [Hm|Hm];
      destruct (Z.eqb_spec p k) as [Hpk|Hpk]; try reflexivity.
    + exfalso. apply Hpk. apply div_mod_64_eq; auto.
    + exfalso. apply Hm. congruence.
  - rewrite (aset_cell_other _ _ _ _ _ _ (ba_A ptr) (p / 64) Eset) by (right; exact Hne).
    replace (p =? k) with false; [rewrite orb_false_r; reflexivity|].
    symmetry. apply Z.eqb_neq. congruence.
Qed.

Lemma insert_spec ptr num k h b :
  0 < ba_s ptr < 64 -> 0 <= k -> 0 <= num < 2 ^ ba_s ptr ->
  words_ok h (ba_A ptr) -> hp_blocks h !! ba_A ptr = Some b ->
  (k + 1) * ba_s ptr <= 64 * blk_len b ->
  exists h',
    bit_array_insert ptr num k h = Some (0, h')
    /\ only_cells_of (ba_A ptr) h h'
    /\ words_ok h' (ba_A ptr)
    /\ forall i, 0 <= i ->
         sbit h' (ba_A ptr) i
         = sbit h (ba_A ptr) i || Z.testbit num (ba_s ptr - 1 - (i - k * ba_s ptr)).
Proof.
  intros Hs Hk Hnum W Hb Hfit.
  assert (Hdef : exists h', bit_array_insert ptr num k h = Some (0, h')
                            /\ only_cells_of (ba_A ptr) h h' /\ words_ok h' (ba_A ptr)).
  { unfold bit_array_insert.
    destruct (Z.eqb_spec (ba_s ptr) 0) as [E|_]; [lia|].
    destruct (slot_position k (ba_s ptr) Hk ltac:(lia)) as (-> & -> & Ho & Hpos).
    unfold c_assert. replace (0 <? ba_s ptr) with true by (symmetry; apply Z.ltb_lt; lia).
    rewrite (bindM_eq _ _ _ _ _ (eq_refl : ret tt h = Some (tt, h))).
    set (s := ba_s ptr) in *. set (A := ba_A ptr) in *.
    set (index := k * s / 64) in *. set (offset := (k * s) mod 64) in *.
    assert (Hi0 : 0 <= index) by (apply Z.div_pos; nia).
    destruct (Z.leb_spec (offset + s) 64) as [Hfit1|Hspan].
    - assert (Hin : 0 <= index < blk_len b) by lia.
      destruct (words_ok_cell _ _ _ _ W Hb Hin) as (w & Hw & Hwr).
      rewrite (bindM_eq _ _ _ _ _ (aget_of_cell _ _ _ _ Hw)).
      destruct (aset_defined A index (Z.lor w (lsl64 num (64 - offset - s))) h b Hb Hin)
        as (h' & Eset).
      rewrite (bindM_eq _ _ _ _ _ Eset).
      exists h'. split; [reflexivity|].
      split; [apply (aset_only_cells _ _ _ _ _ _ Eset)|].
      apply (aset_words_ok _ _ _ _ _ _ Eset); [|exact W].
      apply lor_range; [lia | exact Hwr | unfold lsl64; apply wrap64_range].
    - assert (Hin : 0 <= index < blk_len b) by lia.
      assert (Hin1 : 0 <= index + 1 < blk_len b) by lia.
      destruct (words_ok_cell _ _ _ _ W Hb Hin) as (w0 & Hw0 & Hw0r).
      destruct (words_ok_cell _ _ _ _ W Hb Hin1) as (w1 & Hw1 & Hw1r).
      rewrite (bindM_eq _ _ _ _ _ (aget_of_cell _ _ _ _ Hw0)).
      destruct (aset_defined A index (Z.lor w0 (Z.shiftr num (offset + s - 64))) h b Hb Hin)
        as (h1 & Eset0).
      rewrite (bindM_eq _ _ _ _ _ Eset0).
      assert (Hw1' : cell h1 A (index + 1) = Some w1).
      { rewrite (aset_cell_other _ _ _ _ _ _ A (index + 1) Eset0) by (right; lia). exact Hw1. }
      rewrite (bindM_eq _ _ _ _ _ (aget_of_cell _ _ _ _ Hw1')).
      destruct (aset_blk_len _ _ _ _ _ _ A b Eset0 Hb) as (b1 & Hb1 & Hlen1).
      destruct (aset_defined A (index + 1)
                  (Z.lor w1 (lsl64 num (64 - (offset + s - 64)))) h1 b1 Hb1 ltac:(lia))
        as (h2 & Eset1).
      rewrite (bindM_eq _ _ _ _ _ Eset1).
      exists h2. split; [reflexivity|].
      split.
      { apply only_cells_trans with h1;
          [apply (aset_only_cells _ _ _ _ _ _ Eset0) | apply (aset_only_cells _ _ _ _ _ _ Eset1)]. }
      apply (aset_words_ok _ _ _ _ _ _ Eset1).
      { apply lor_range; [lia | exact Hw1r | unfold lsl64; apply wrap64_range]. }
      apply (aset_words_ok _ _ _ _ _ _ Eset0); [|exact W].
      apply lor_range; [lia | exact Hw0r |].
      rewrite Z.shiftr_div_pow2 by lia.
      assert (0 < 2 ^ (offset + s - 64)) by (apply Z.pow_pos_nonneg; lia).
      assert (2 ^ s <= 2 ^ 64) by (apply Z.pow_le_mono_r; lia).
      split; [apply Z.div_pos; lia|].
      assert (num / 2 ^ (offset + s - 64) <= num) by (apply Z.div_le_upper_bound; nia).
      lia. }
  destruct Hdef as (h' & E & O & W').
  exists h'. split; [exact E|]. split; [exact O|]. split; [exact W'|].
  apply (bit_array_insert_bits ptr num k h 0 h' Hs Hk Hnum E).
Qed.

(** ** [eflist_init] *)

Lemma init_shift n u :
  0 < n -> n <= u + 1 -> u < 2 ^ 62 ->
  wrap64 (u + 1) / n = (u + 1) / n
  /\ 1 <= (u + 1) / n
  /\ sext32 (ilog2 ((u + 1) / n)) = Z.log2 ((u + 1) / n)
  /\ 0 <= Z.log2 ((u + 1) / n) < 63.
Proof.
  intros Hn Hle Hu. rewrite wrap64_small by lia.
  assert (Hq : 1 <= (u + 1) / n) by (apply Z.div_le_lower_bound; lia).
  assert (Hq2 : (u + 1) / n < 2 ^ 63).
  { apply Z.div_lt_upper_bound; [lia|]. nia. }
  assert (HL : 0 <= Z.log2 ((u + 1) / n) < 63).
  { split; [apply Z.log2_nonneg|]. apply Z.log2_lt_pow2; lia. }
  repeat split; try lia. unfold ilog2. apply sext32_small. lia.
Qed.

Lemma create_lower s n h :
  heap_wf h -> 0 <= s ->
  exists lower h1,
    bit_array_create bit_array_zero s n h = Some (lower, h1)
    /\ ba_s lower = s /\ ba_curr lower = 0
    /\ heap_wf h1 /\ ba_A lower < hp_next h1
    /\ (0 < s -> exists c,
          hp_blocks h1 !! ba_A lower = Some (Block (Z.quot (s * n + 63) 64) c)
          /\ (forall k, 0 <= k < Z.quot (s * n + 63) 64 -> c !! k = Some 0)
          /\ (forall k, c !! k = Some 0 \/ c !! k = None)).
Proof.
  intros Hwf Hs. destruct (Z.eq_dec s 0) as [->|Hne].
  - exists (BitArray 0 0 0), h. split; [reflexivity|]. cbn.
    split; [reflexivity|]. split; [reflexivity|]. split; [exact Hwf|].
    split; [apply (proj1 Hwf) | lia].
  - destruct (bit_array_create_spec bit_array_zero s n h Hne)
      as (h1 & c & E & N & Hb & Hc & Hz & Fr).
    exists (BitArray (hp_next h) s 0), h1. split; [exact E|]. cbn.
    split; [reflexivity|]. split; [reflexivity|].
    split; [apply (heap_wf_alloc h h1 N Fr Hwf)|]. split; [lia|].
    intros Hpos. exists c.
    replace (0 <? s) with true in * by (symmetry; apply Z.ltb_lt; lia). auto.
Qed.

Lemma eflist_init_holds n u h :
  heap_wf h -> 0 < n -> n <= u + 1 -> u < 2 ^ 62 ->
  exists ef h',
    eflist_init n u h = Some (0, ef, h')
    /\ holds ef h' []
    /\ heap_wf h'
    /\ ef_size ef = n /\ ef_s ef = Z.log2 ((u + 1) / n)
    /\ ef_bitarraylen ef = n + Z.shiftr u (ef_s ef)
    /\ is_Some (hp_blocks h' !! ef_exact_spill ef)
    /\ ef_exact_spill ef <> ba_A (ef_upper ef)
    /\ ef_exact_spill ef <> ba_A (ef_lower ef).
Proof.
  intros Hwf Hn Hle Hu.
  destruct (init_shift n u Hn Hle Hu) as (Hq & Hq1 & Hs & HL).
  unfold eflist_init. cbv zeta. rewrite Hq.
  replace (n =? 0) with false by (symmetry; apply Z.eqb_neq; lia).
  rewrite Hs. set (s := Z.log2 ((u + 1) / n)) in *.
  unfold c_assert. cbn [orb].
  replace (0 <? (u + 1) / n) with true by (symmetry; apply Z.ltb_lt; lia).
  rewrite (bindM_eq _ _ _ _ _ (eq_refl : ret tt h = Some (tt, h))).
  assert (Hsh : 0 <= Z.shiftr u s <= u).
  { rewrite Z.shiftr_div_pow2 by lia.
    assert (0 < 2 ^ s) by (apply Z.pow_pos_nonneg; lia).
    split; [apply Z.div_pos; lia | apply Z.div_le_upper_bound; nia]. }
  rewrite (sext64_small (n + Z.shiftr u s)) by lia.
  set (len := n + Z.shiftr u s) in *.
  rewrite (Z.quot_div_nonneg (len + 63) 64) by lia.
  destruct (create_lower s n h Hwf ltac:(lia))
    as (lower & h1 & E1 & Hls & Hlc & Hwf1 & HlA & Hlow).
  rewrite (bindM_eq _ _ _ _ _ E1).
  destruct (bit_array_create_spec bit_array_zero (-1) ((len + 63) / 64) h1 ltac:(lia))
    as (h2 & cU & E2 & N2 & HbU & HcU & HzU & Fr2).
  change (0 <? -1) with false in HbU, HcU. cbv iota in HbU, HcU.
  rewrite (bindM_eq _ _ _ _ _ E2).
  destruct (malloc_frame DEFAULT_SPILL_SIZE h2) as (h3 & E3 & N3 & HbS & Fr3).
  rewrite (bindM_eq _ _ _ _ _ E3).
  eexists _, h3. split; [reflexivity|]. cbn.
  assert (Hwf2 : heap_wf h2) by apply (heap_wf_alloc h1 h2 N2 Fr2 Hwf1).
  assert (Hwf3 : heap_wf h3) by apply (heap_wf_alloc h2 h3 N3 Fr3 Hwf2).
  assert (HbU3 : hp_blocks h3 !! hp_next h1 = Some (Block ((len + 63) / 64) cU)).
  { rewrite Fr3 by lia. exact HbU. }
  destruct (zero_block_words h3 _ _ _ HbU3 HcU HzU) as (WU & UU & _).
  split.
  { unfold holds. cbn.
    split; [lia|]. split; [exact Hls|]. split; [reflexivity|]. split; [exact Hlc|].
    split; [exact WU|].
    split.
    { eexists. split; [exact HbU3|]. cbn.
      pose proof (Z.div_mod (len + 63) 64 ltac:(lia)).
      pose proof (Z.mod_pos_bound (len + 63) 64 ltac:(lia)). lia. }
    split.
    { intros p. rewrite UU. split; [discriminate|].
      intros (i & x & Hi & _). rewrite lookup_nil in Hi. discriminate. }
    intros Hpos. destruct (Hlow Hpos) as (cL & HbL & HcL & HzL).
    assert (HbL3 : hp_blocks h3 !! ba_A lower = Some (Block (Z.quot (s * n + 63) 64) cL)).
    { rewrite Fr3, Fr2 by lia. exact HbL. }
    destruct (zero_block_words h3 _ _ _ HbL3 HcL HzL) as (WL & _ & SL).
    split; [lia|]. split; [exact WL|]. split.
    { eexists. split; [exact HbL3|]. cbn.
      rewrite Z.quot_div_nonneg by nia.
      pose proof (Z.div_mod (s * n + 63) 64 ltac:(lia)).
      pose proof (Z.mod_pos_bound (s * n + 63) 64 ltac:(lia)). lia. }
    intros t Ht. rewrite SL. split; [discriminate|].
    intros (i & x & Hi & _). rewrite lookup_nil in Hi. discriminate. }
  split; [exact Hwf3|].
  split; [reflexivity|]. split; [reflexivity|]. split; [reflexivity|].
  split; [eexists; exact HbS|]. split; lia.
Qed.

(** ** [eflist_add] *)

Lemma exists_snoc (P : nat -> Z -> Prop) (xs : list Z) x :
  (exists i y, (xs ++ [x]) !! i = Some y /\ P i y)
  <-> (exists i y, xs !! i = Some y /\ P i y) \/ P (length xs) x.
Proof.
  split.
  - intros (i & y & Hi & HP). apply lookup_app_Some in Hi as [Hi|[Hge Hi]].
    + left. eauto.
    + right. apply list_lookup_singleton_Some in Hi as [Hz <-].
      replace (length xs) with i by lia. exact HP.
  - intros [(i & y & Hi & HP)|HP].
    + exists i, y. split; [|exact HP]. apply lookup_app_Some. left. exact Hi.
    + exists (length xs), x. split; [|exact HP]. apply lookup_app_Some. right.
      split; [lia|]. rewrite Nat.sub_diag. reflexivity.
Qed.

Lemma low_bits_testbit x s j :
  0 <= s -> Z.testbit (x mod 2 ^ s) j = true <-> (0 <= j < s /\ Z.testbit x j = true).
Proof.
  intros Hs. destruct (Z.lt_ge_cases j 0) as [Hneg|Hj0].
  - rewrite Z.testbit_neg_r by lia. split; [discriminate | lia].
  - destruct (Z.lt_ge_cases j s) as [Hlt|Hge].
    + rewrite Z.mod_pow2_bits_low by lia. split; [auto | tauto].
    + rewrite Z.mod_pow2_bits_high by lia. split; [discriminate | lia].
Qed.

Lemma add_mask x s :
  0 <= s < 63 -> 0 <= x ->
  wrap64 (Z.land x (sext64 (lsl64 1 s) - 1)) = x mod 2 ^ s /\ 0 <= x mod 2 ^ s < 2 ^ s.
Proof.
  intros Hs Hx. rewrite lsl64_one by lia.
  assert (Hp : 0 < 2 ^ s) by (apply Z.pow_pos_nonneg; lia).
  assert (Hp2 : 2 ^ s <= 2 ^ 62) by (apply Z.pow_le_mono_r; lia).
  rewrite sext64_small by lia. rewrite land_mask_mod by lia.
  pose proof (Z.mod_pos_bound x (2 ^ s) Hp) as Hm.
  split; [apply wrap64_small; lia | exact Hm].
Qed.

Lemma eflist_add_holds ef h xs x :
  holds ef h xs -> heap_wf h ->
  Z.of_nat (length xs) < ef_size ef ->
  0 <= x ->
  Z.shiftr x (ef_s ef) + Z.of_nat (length xs) < ef_bitarraylen ef ->
  exists ef' h',
    eflist_add ef x h = Some (0, ef', h')
    /\ holds ef' h' (xs ++ [x]) /\ heap_wf h'
    /\ ef_size ef' = ef_size ef /\ ef_s ef' = ef_s ef
    /\ ef_bitarraylen ef' = ef_bitarraylen ef
    /\ ef_exact_spill ef' = ef_exact_spill ef
    /\ ba_A (ef_upper ef') = ba_A (ef_upper ef)
    /\ ba_A (ef_lower ef') = ba_A (ef_lower ef)
    /\ (forall q, q <> ba_A (ef_lower ef) -> q <> ba_A (ef_upper ef) ->
                  hp_blocks h' !! q = hp_blocks h !! q).
Proof.
  intros (Hs & Hls & Hus & Hcurr & WU & (bU & HbU & HlenU) & HU & HL) Hwf Hroom Hx Hpos.
  unfold eflist_add. rewrite Hcurr.
  replace (ef_size ef <=? Z.of_nat (length xs)) with false by (symmetry; apply Z.leb_gt; lia).
  cbv zeta.
  destruct (add_mask x (ef_s ef) Hs Hx) as (-> & Hval).
  set (s := ef_s ef) in *. set (k := Z.of_nat (length xs)) in *.
  set (pL := ba_A (ef_lower ef)) in *. set (pU := ba_A (ef_upper ef)) in *.
  assert (Hshift : 0 <= Z.shiftr x s) by (apply Z.shiftr_nonneg; lia).
  assert (Ins : exists h1,
    bit_array_insert (ef_lower ef) (x mod 2 ^ s) k h = Some (0, h1)
    /\ heap_wf h1
    /\ hp_blocks h1 !! pU = hp_blocks h !! pU
    /\ (forall q, q <> pL -> hp_blocks h1 !! q = hp_blocks h !! q)
    /\ (0 < s -> words_ok h1 pL
                 /\ (exists b, hp_blocks h1 !! pL = Some b /\ s * ef_size ef <= 64 * blk_len b)
                 /\ forall t, 0 <= t ->
                      sbit h1 pL t
                      = sbit h pL t || Z.testbit (x mod 2 ^ s) (s - 1 - (t - k * s)))).
  { destruct (Z.eq_dec s 0) as [Hz|Hnz].
    - exists h. unfold bit_array_insert. rewrite Hls. fold s. rewrite Hz.
      split; [reflexivity|]. split; [exact Hwf|]. split; [reflexivity|].
      split; [reflexivity | lia].
    - destruct (HL ltac:(lia)) as (Hne & WL & (bL & HbL & HlenL) & _).
      destruct (insert_spec (ef_lower ef) (x mod 2 ^ s) k h bL) as (h1 & E & O & W1 & Hbits);
        rewrite ?Hls; fold s; fold pL; auto; try lia.
      { nia. }
      exists h1. split; [exact E|].
      split; [apply (only_cells_wf _ _ _ O); [eexists; exact HbL | exact Hwf]|].
      split; [apply (only_cells_block _ _ _ _ O); auto|].
      split; [intros q Hq; apply (only_cells_block _ _ _ _ O); auto|].
      intros _. split; [exact W1|]. split.
      + destruct (proj2 (proj2 O) _ HbL) as (b' & Hb' & Hlen'). exists b'.
        split; [exact Hb' | lia].
      + intros t Ht. rewrite Hls in Hbits. apply Hbits. exact Ht. }
  destruct Ins as (h1 & E1 & Hwf1 & HU1 & Fr1 & HL1).
  assert (HbU1 : hp_blocks h1 !! pU = Some bU) by (rewrite HU1; exact HbU).
  rewrite (bindM_eq _ _ _ _ _ E1).
  destruct (setbit_spec (ef_upper ef) (Z.shiftr x s + k) h1 bU)
    as (h2 & E2 & O2 & W2 & Hbits2); fold pU.
  { lia. }
  { apply (block_eq_words_ok h); [exact HU1 | exact WU]. }
  { exact HbU1. }
  { lia. }
  rewrite (bindM_eq _ _ _ _ _ E2).
  change (ba_A (ef_upper ef)) with pU in O2, W2, Hbits2.
  eexists _, h2. split; [reflexivity|]. cbn.
  assert (Hwf2 : heap_wf h2).
  { apply (only_cells_wf _ _ _ O2); [eexists; exact HbU1 | exact Hwf1]. }
  split.
  { unfold holds. cbn. fold s pL pU.
    split; [exact Hs|]. split; [exact Hls|]. split; [exact Hus|].
    split; [rewrite length_app; cbn; lia|].
    split; [exact W2|].
    split.
    { destruct (proj2 (proj2 O2) bU HbU1) as (b' & Hb' & Hlen').
      exists b'. split; [exact Hb' | lia]. }
    split.
    { intros p. rewrite Hbits2, orb_true_iff, (block_eq_ubit h) by exact HU1.
      rewrite HU, Z.eqb_eq.
      rewrite (exists_snoc (fun i y => p = Z.shiftr y s + Z.of_nat i)). reflexivity. }
    intros Hpos'. destruct (HL Hpos') as (Hne & _ & _ & HS).
    destruct (HL1 Hpos') as (W1 & Hb1 & Hbits1).
    split; [exact Hne|].
    split; [apply (only_cells_words_ok _ _ _ _ O2 Hne W1)|].
    split; [rewrite (only_cells_block _ _ _ _ O2 Hne); exact Hb1|].
    intros t Ht.
    assert (Hsb : sbit h2 pL t = sbit h1 pL t).
    { unfold sbit. rewrite (only_cells_cell _ _ _ _ _ O2 Hne). reflexivity. }
    rewrite Hsb, Hbits1, orb_true_iff, (HS t Ht), low_bits_testbit by lia.
    rewrite (exists_snoc (fun i y => Z.of_nat i * s <= t < (Z.of_nat i + 1) * s
                            /\ Z.testbit y (s - 1 - (t - Z.of_nat i * s)) = true)).
    fold k. split; (intros [Hleft|Hright]; [left; exact Hleft | right]).
    - split; [nia | tauto].
    - split; [nia | tauto]. }
  split; [exact Hwf2|].
  repeat (split; [reflexivity|]).
  intros q HqL HqU. rewrite (only_cells_block _ _ _ _ O2 HqU). apply Fr1. exact HqL.
Qed.

Lemma add_all_holds l : forall ef h xs s n len,
  holds ef h xs -> heap_wf h ->
  ef_s ef = s -> ef_size ef = n -> ef_bitarraylen ef = len ->
  Z.of_nat (length xs + length l) <= n ->
  Forall (fun x => 0 <= x /\ Z.shiftr x s + n <= len) l ->
  exists ef' h',
    add_all l ef h = Some (ef', h')
    /\ holds ef' h' (xs ++ l) /\ heap_wf h'
    /\ ef_size ef' = n /\ ef_s ef' = s /\ ef_bitarraylen ef' = len
    /\ ef_exact_spill ef' = ef_exact_spill ef
    /\ ba_A (ef_upper ef') = ba_A (ef_upper ef)
    /\ ba_A (ef_lower ef') = ba_A (ef_lower ef)
    /\ (forall q, q <> ba_A (ef_lower ef) -> q <> ba_A (ef_upper ef) ->
                  hp_blocks h' !! q = hp_blocks h !! q).
Proof.
  induction l as [|x l IH]; intros ef h xs s n len Hh Hwf Es En El Hlen Hall.
  - exists ef, h. split; [reflexivity|]. rewrite app_nil_r.
    repeat (split; [assumption || reflexivity|]). reflexivity.
  - apply Forall_cons in Hall as ((Hx0 & Hxp) & Hall). cbn [length] in Hlen.
    assert (Hroom : Z.of_nat (length xs) < ef_size ef) by lia.
    assert (Hfit : Z.shiftr x (ef_s ef) + Z.of_nat (length xs) < ef_bitarraylen ef)
      by (rewrite Es, El; lia).
    destruct (eflist_add_holds ef h xs x Hh Hwf Hroom Hx0 Hfit)
      as (ef1 & h1 & E1 & Hh1 & Hwf1 & Fn & Fs & Fl & Fsp & FU & FL & Fr1).
    assert (Hlen' : Z.of_nat (length (xs ++ [x]) + length l) <= n)
      by (rewrite length_app; cbn; lia).
    destruct (IH ef1 h1 (xs ++ [x]) s n len Hh1 Hwf1 ltac:(congruence) ltac:(congruence)
                ltac:(congruence) Hlen' Hall)
      as (ef2 & h2 & E2 & Hh2 & Hwf2 & Gn & Gs & Gl & Gsp & GU & GL & Fr2).
    exists ef2, h2. split.
    { cbn [add_all]. rewrite (bindM_eq _ _ _ _ _ E1). exact E2. }
    rewrite <- app_assoc in Hh2. cbn in Hh2.
    split; [exact Hh2|]. split; [exact Hwf2|].
    repeat (split; [congruence|]).
    intros q HqL HqU. rewrite Fr2 by congruence. apply Fr1; assumption.
Qed.

(** ** Positions of the elements in the upper array *)

Lemma nondecreasing_lookup l : nondecreasing l = true ->
  forall i j x y, l !! i = Some x -> l !! j = Some y -> (i <= j)%nat -> x <= y.
Proof.
  induction l as [|a l IH]; intros Hs i j x y Hi Hj Hij; [discriminate|].
  assert (Htail : nondecreasing l = true).
  { destruct l as [|b l']; [reflexivity|]. cbn in Hs. apply andb_true_iff in Hs. tauto. }
  assert (Hhead : forall k z, l !! k = Some z -> a <= z).
  { intros k z Hk. destruct l as [|b l']; [discriminate|].
    cbn in Hs. apply andb_true_iff in Hs as [Hab _]. apply Z.leb_le in Hab.
    destruct k as [|k]; [cbn in Hk; injection Hk as <-; exact Hab|].
    assert (b <= z); [|lia].
    apply (IH Htail 0%nat (S k) b z); [reflexivity | exact Hk | lia]. }
  destruct i as [|i], j as [|j]; cbn in Hi, Hj.
  - injection Hi as <-. injection Hj as <-. lia.
  - injection Hi as <-. apply (Hhead j y Hj).
  - lia.
  - apply (IH Htail i j x y Hi Hj). lia.
Qed.

Lemma rank1_of_positions h A (P : nat -> Z) (n : nat) :
  (forall i, (i < n)%nat -> 0 <= P i) ->
  (forall i j, (i < j)%nat -> (j < n)%nat -> P i < P j) ->
  (forall p, ubit h A p = true <-> exists i, (i < n)%nat /\ p = P i) ->
  (forall i, (i < n)%nat -> rank1 h A (P i) = Z.of_nat i)
  /\ (forall e, 0 <= e -> (forall i, (i < n)%nat -> P i < e) -> rank1 h A e = Z.of_nat n).
Proof.
  intros Hpos Hmono Hbits.
  assert (Hclear : forall a b, 0 <= a <= b ->
            (forall i, (i < n)%nat -> P i < a \/ b <= P i) -> rank1 h A b = rank1 h A a).
  { intros a b Hab Hout. apply rank1_flat; [exact Hab|].
    intros x Hx. destruct (ubit h A x) eqn:Hu; [|reflexivity].
    apply Hbits in Hu as (i & Hi & ->). destruct (Hout i Hi); lia. }
  assert (Hset : forall i, (i < n)%nat -> ubit h A (P i) = true).
  { intros i Hi. apply Hbits. eauto. }
  assert (Hrank : forall i, (i < n)%nat -> rank1 h A (P i) = Z.of_nat i).
  { induction i as [|i IH]; intros Hi.
    - rewrite (Hclear 0 (P 0%nat)); [reflexivity | split; [lia | apply Hpos; exact Hi] |].
      intros j Hj. right. destruct j as [|j]; [lia|].
      pose proof (Hmono 0%nat (S j) ltac:(lia) Hj). lia.
    - pose proof (Hmono i (S i) ltac:(lia) Hi) as Hlt.
      pose proof (Hpos i ltac:(lia)) as Hp.
      rewrite (Hclear (P i + 1) (P (S i))); [|lia|].
      + rewrite rank1_succ by lia. rewrite Hset, IH by lia. cbn. lia.
      + intros j Hj. destruct (Nat.le_gt_cases j i) as [Hle|Hgt].
        * left. destruct (Nat.eq_dec j i) as [->|Hne]; [lia|].
          pose proof (Hmono j i ltac:(lia) ltac:(lia)). lia.
        * right. destruct (Nat.eq_dec j (S i)) as [->|Hne]; [lia|].
          pose proof (Hmono (S i) j ltac:(lia) Hj). lia. }
  split; [exact Hrank|].
  intros e He Hbelow. destruct n as [|m].
  - rewrite (Hclear 0 e); [reflexivity | lia |]. intros i Hi. lia.
  - pose proof (Hbelow m ltac:(lia)) as Hlast.
    pose proof (Hpos m ltac:(lia)) as Hp.
    rewrite (Hclear (P m + 1) e); [|lia|].
    + rewrite rank1_succ by lia. rewrite Hset, Hrank by lia. cbn. lia.
    + intros j Hj. left. destruct (Nat.eq_dec j m) as [->|Hne]; [lia|].
      pose proof (Hmono j m ltac:(lia) ltac:(lia)). lia.
Qed.

(** ** Reading an element back *)

Lemma block_eq_sbit h0 h q i :
  hp_blocks h !! q = hp_blocks h0 !! q -> sbit h q i = sbit h0 q i.
Proof.
  intros E. unfold sbit. rewrite (block_eq_cell _ _ _ _ E). reflexivity.
Qed.

Lemma packed_get ptr h (xs : list Z) n i x :
  0 < ba_s ptr < 64 ->
  words_ok h (ba_A ptr) ->
  (exists b, hp_blocks h !! ba_A ptr = Some b /\ ba_s ptr * n <= 64 * blk_len b) ->
  (forall t, 0 <= t ->
     (sbit h (ba_A ptr) t = true <->
      exists i x, xs !! i = Some x
                  /\ Z.of_nat i * ba_s ptr <= t < (Z.of_nat i + 1) * ba_s ptr
                  /\ Z.testbit x (ba_s ptr - 1 - (t - Z.of_nat i * ba_s ptr)) = true)) ->
  xs !! i = Some x -> Z.of_nat (length xs) <= n ->
  bit_array_get ptr (Z.of_nat i) h = Some (x mod 2 ^ ba_s ptr, h).
Proof.
  intros Hs W (b & Hb & Hlen) HS Hi Hn.
  set (s := ba_s ptr) in *. set (k := Z.of_nat i) in *.
  assert (Hk : 0 <= k < Z.of_nat (length xs)) by (apply lookup_lt_Some in Hi; lia).
  pose proof (Z.div_mod (k * s) 64 ltac:(lia)) as Hdm.
  pose proof (Z.mod_pos_bound (k * s) 64 ltac:(lia)) as Hmb.
  assert (Hq0 : 0 <= k * s / 64) by (apply Z.div_pos; nia).
  assert (Hks : (k + 1) * s <= 64 * blk_len b) by nia.
  assert (Hdef : is_Some (bit_array_get ptr k h)).
  { apply bit_array_get_defined; [exact Hs | lia |]. fold s. split.
    - destruct (words_ok_cell _ _ (k * s / 64) _ W Hb) as (w & Hw & _); [lia|].
      eexists; exact Hw.
    - intros Hspan.
      destruct (words_ok_cell _ _ (k * s / 64 + 1) _ W Hb) as (w & Hw & _); [lia|].
      eexists; exact Hw. }
  destruct Hdef as [[v h'] E].
  destruct (bit_array_get_bits ptr k h v h' Hs ltac:(lia) E) as (-> & Hv & Hbits).
  rewrite E. do 2 f_equal. fold s in Hv, Hbits.
  apply Z.bits_inj'. intros t Ht.
  destruct (Z.lt_ge_cases t s) as [Hlt|Hge].
  - rewrite Hbits by lia. rewrite Z.mod_pow2_bits_low by lia.
    apply eq_true_iff_eq. rewrite HS by nia. split.
    + intros (i' & x' & Hi' & Hr & Hb').
      assert (i' = i) by nia. subst i'. rewrite Hi in Hi'. injection Hi' as <-.
      replace (s - 1 - (k * s + (s - 1 - t) - Z.of_nat i * s)) with t in Hb' by (unfold k; lia).
      exact Hb'.
    + intros Hb'. exists i, x. split; [exact Hi|]. fold k. split; [lia|].
      replace (s - 1 - (k * s + (s - 1 - t) - k * s)) with t by lia. exact Hb'.
  - rewrite (testbit_small v s) by lia. rewrite Z.mod_pow2_bits_high by lia. reflexivity.
Qed.

Lemma combine_bits x s : 0 <= s -> Z.lor (Z.shiftl (Z.shiftr x s) s) (x mod 2 ^ s) = x.
Proof.
  intros Hs. rewrite <- Z.ldiff_ones_r, <- Z.land_ones by lia. apply Z.lor_ldiff_and.
Qed.

Lemma shiftr_le x y s : 0 <= s -> x <= y -> Z.shiftr x s <= Z.shiftr y s.
Proof.
  intros Hs Hxy. rewrite !Z.shiftr_div_pow2 by lia.
  apply Z.div_le_mono; [apply Z.pow_pos_nonneg; lia | exact Hxy].
Qed.

Lemma shiftl_shiftr_le x s : 0 <= s -> 0 <= x -> 0 <= Z.shiftl (Z.shiftr x s) s <= x.
Proof.
  intros Hs Hx. rewrite Z.shiftl_mul_pow2, Z.shiftr_div_pow2 by lia.
  assert (Hp : 0 < 2 ^ s) by (apply Z.pow_pos_nonneg; lia).
  pose proof (Z.div_mod x (2 ^ s) ltac:(lia)).
  pose proof (Z.mod_pos_bound x (2 ^ s) Hp).
  assert (0 <= x / 2 ^ s) by (apply Z.div_pos; lia). nia.
Qed.

(** ** Building a list and reading it *)

Lemma init_add_all_holds (l : list Z) n u h0 :
  heap_wf h0 ->
  Z.of_nat (length l) <= n -> 0 < n -> n <= u + 1 -> u < 2 ^ 62 ->
  Forall (fun x => 0 <= x <= u) l ->
  exists ef h,
    (do '(_, ef) <- eflist_init n u; add_all l ef) h0 = Some (ef, h)
    /\ holds ef h l /\ heap_wf h
    /\ ef_size ef = n /\ ef_s ef = Z.log2 ((u + 1) / n)
    /\ ef_bitarraylen ef = n + Z.shiftr u (ef_s ef)
    /\ is_Some (hp_blocks h !! ef_exact_spill ef)
    /\ ef_exact_spill ef <> ba_A (ef_upper ef)
    /\ ef_exact_spill ef <> ba_A (ef_lower ef).
Proof.
  intros Hwf Hlen Hn Hle Hu Hall.
  destruct (eflist_init_holds n u h0 Hwf Hn Hle Hu)
    as (ef0 & h1 & E0 & Hh0 & Hwf1 & Fn & Fs & Fl & Hsp & HspU & HspL).
  assert (Hs : 0 <= ef_s ef0) by (destruct Hh0 as (Hs & _); lia).
  destruct (add_all_holds l ef0 h1 [] (ef_s ef0) n (ef_bitarraylen ef0) Hh0 Hwf1
              eq_refl Fn eq_refl)
    as (ef & h & E1 & Hh & Hwf2 & Gn & Gs & Gl & Gsp & GU & GL & Fr).
  { cbn. lia. }
  { eapply Forall_impl; [exact Hall|]. cbn. intros x Hx. split; [lia|].
    rewrite Fl. pose proof (shiftr_le x u (ef_s ef0) Hs ltac:(lia)). lia. }
  exists ef, h. split.
  { rewrite (bindM_eq _ _ _ _ _ E0). exact E1. }
  cbn in Hh. split; [exact Hh|]. split; [exact Hwf2|].
  split; [exact Gn|]. split; [congruence|]. split; [congruence|].
  rewrite Gsp, GU, GL. split; [|split; assumption].
  rewrite Fr by auto. exact Hsp.
Qed.

Lemma lookup_round_trip_spec (l : list Z) n u spill_var_len h0 :
  heap_wf h0 ->
  Z.of_nat (length l) = n -> 0 < n < 2 ^ 31 -> n <= u + 1 -> u < 2 ^ 61 ->
  nondecreasing l = true ->
  Forall (fun x => 0 <= x <= u) l ->
  first_block_fits l n u ->
  exists ef1 h1 r ef2 h2,
    (do '(_, ef) <- eflist_init n u; add_all l ef) h0 = Some (ef1, h1)
    /\ simple_select_build ef1 n spill_var_len h1 = Some (r, ef2, h2)
    /\ (r = 0 \/ (r = eflist_spill_too_small /\ spill_var_len = 0))
    /\ forall i x, l !! i = Some x -> eflist_lookup ef2 (Z.of_nat i) h2 = Some (x, h2).
Proof.
  intros Hwf Hlen Hn Hle Hu Hsorted Hall Hfits.
  destruct (init_add_all_holds l n u h0 Hwf ltac:(lia) ltac:(lia) Hle ltac:(lia) Hall)
    as (ef1 & h1 & E1 & Hh & Hwf1 & Fn & Fs & Fl & Hsp & HspU & HspL).
  destruct Hh as (Hs & Hls & Hus & Hcurr & WU & (bU & HbU & HlenU) & HU & HL).
  set (s := ef_s ef1) in *. set (pU := ba_A (ef_upper ef1)) in *.
  set (len := ef_bitarraylen ef1) in *.
  pose proof (proj1 (Forall_lookup _ _) Hall) as Hrange. cbn in Hrange.
  pose proof (nondecreasing_lookup l Hsorted) as Hord.
  assert (Hsu : 0 <= Z.shiftr u s <= u).
  { rewrite Z.shiftr_div_pow2 by lia.
    assert (0 < 2 ^ s) by (apply Z.pow_pos_nonneg; lia).
    split; [apply Z.div_pos; lia | apply Z.div_le_upper_bound; nia]. }
  (* positions *)
  set (P := upper_position l s).
  assert (HPx : forall i x, l !! i = Some x -> P i = Z.shiftr x s + Z.of_nat i).
  { intros i x Hi. unfold P, upper_position. rewrite (nth_lookup_Some _ _ _ _ Hi). reflexivity. }
  assert (Hget : forall i, (i < length l)%nat -> exists x, l !! i = Some x).
  { intros i Hi. apply lookup_lt_is_Some_2. exact Hi. }
  assert (HPpos : forall i, (i < length l)%nat -> 0 <= P i).
  { intros i Hi. destruct (Hget i Hi) as (x & Hx). rewrite (HPx i x Hx).
    pose proof (Hrange i x Hx). assert (0 <= Z.shiftr x s) by (apply Z.shiftr_nonneg; lia).
    lia. }
  assert (HPlen : forall i, (i < length l)%nat -> P i < len).
  { intros i Hi. destruct (Hget i Hi) as (x & Hx). rewrite (HPx i x Hx).
    pose proof (Hrange i x Hx). pose proof (shiftr_le x u s ltac:(lia) ltac:(lia)).
    lia. }
  assert (HPmono : forall i j, (i < j)%nat -> (j < length l)%nat -> P i < P j).
  { intros i j Hij Hj. destruct (Hget i ltac:(lia)) as (x & Hx). destruct (Hget j Hj) as (y & Hy).
    rewrite (HPx i x Hx), (HPx j y Hy).
    pose proof (Hord i j x y Hx Hy ltac:(lia)).
    pose proof (shiftr_le x y s ltac:(lia) ltac:(lia)). lia. }
  assert (HPbits : forall p, ubit h1 pU p = true <-> exists i, (i < length l)%nat /\ p = P i).
  { intros p. rewrite HU. split.
    - intros (i & x & Hx & ->). exists i. split; [apply (lookup_lt_Some _ _ _ Hx)|].
      symmetry. apply (HPx i x Hx).
    - intros (i & Hi & ->). destruct (Hget i Hi) as (x & Hx). exists i, x.
      split; [exact Hx | apply (HPx i x Hx)]. }
  destruct (rank1_of_positions h1 pU P (length l) HPpos HPmono HPbits) as (Hrank & Htotal).
  assert (Hlen0 : (0 < length l)%nat) by lia.
  (* the build *)
  pose proof (HPlen 0%nat Hlen0) as HP0len. pose proof (HPpos 0%nat Hlen0) as HP0pos.
  assert (B2 : ba_s (ef_upper ef1) < 0) by lia.
  assert (B5 : 0 <= len <= 64 * blk_len bU) by lia.
  assert (B6 : len < 2 ^ 62) by lia.
  assert (B7 : rank1 h1 pU len = n).
  { rewrite (Htotal len); [lia | lia | exact HPlen]. }
  assert (B11 : ubit h1 pU (P 0%nat) = true) by (apply HPbits; exists 0%nat; auto).
  assert (B12 : rank1 h1 pU (P 0%nat) = 0) by (rewrite (Hrank 0%nat Hlen0); reflexivity).
  assert (B13 : first_block_narrow h1 pU len n (P 0%nat)).
  { unfold first_block_narrow. unfold first_block_fits in Hfits. cbv zeta in Hfits.
    rewrite <- Fs, <- Fl in Hfits. fold P in Hfits.
    destruct Hfits as [Hone|Hspan]; [left; exact Hone | right].
    destruct (block_ones n len <? n) eqn:Hcmp.
    - apply Z.ltb_lt in Hcmp.
      assert (Hopi : 0 < block_ones n len)
        by (unfold block_ones; apply Z.pow_pos_nonneg; [lia | apply Z.log2_nonneg]).
      set (o := Z.to_nat (block_ones n len)) in *.
      assert (Ho : (o < length l)%nat) by (unfold o; lia).
      pose proof (HPpos o Ho).
      pose proof (rank1_mono h1 pU (P o + 1) (P 0%nat + MAX_SPAN) ltac:(lia)) as Hm.
      rewrite rank1_succ in Hm by lia.
      rewrite (proj2 (HPbits (P o)) (ex_intro _ o (conj Ho eq_refl))) in Hm.
      rewrite (Hrank o Ho) in Hm. cbn in Hm. unfold o in Hm. lia.
    - lia. }
  destruct (build_then_select ef1 n spill_var_len h1 bU (P 0%nat)
              Hwf1 B2 WU HbU B5 B6 B7 Hn (or_intror Hsp) HspU B11 B12 B13)
    as (r & ef2 & h2 & E2 & Hr & Fr & FU & FLo & FS & FO & Hsel).
  exists ef1, h1, r, ef2, h2.
  split; [exact E1|]. split; [exact E2|]. split; [exact Hr|].
  intros i x Hx.
  assert (Hi : (i < length l)%nat) by apply (lookup_lt_Some _ _ _ Hx).
  pose proof (Hrange i x Hx) as Hxr.
  unfold eflist_lookup.
  (* the lower bits *)
  assert (Elow : bit_array_get (ef_lower ef2) (Z.of_nat i) h2 = Some (x mod 2 ^ s, h2)).
  { rewrite FLo. destruct (Z.eq_dec s 0) as [Hz|Hnz].
    - unfold bit_array_get. rewrite Hls. fold s. rewrite Hz. cbn. rewrite Z.mod_1_r. reflexivity.
    - destruct (HL ltac:(lia)) as (Hne & WL & (bL & HbL & HlenL) & HS).
      assert (HblkL : hp_blocks h2 !! ba_A (ef_lower ef1) = hp_blocks h1 !! ba_A (ef_lower ef1)).
      { apply Fr; [congruence | eexists; exact HbL]. }
      rewrite <- Hls in *.
      apply (packed_get (ef_lower ef1) h2 l n i x).
      + lia.
      + apply (block_eq_words_ok h1); [exact HblkL | exact WL].
      + exists bL. rewrite HblkL. split; [exact HbL|]. rewrite <- Fn. exact HlenL.
      + intros t Ht. rewrite (block_eq_sbit h1) by exact HblkL. apply HS. exact Ht.
      + exact Hx.
      + lia. }
  rewrite (bindM_eq _ _ _ _ _ Elow).
  assert (Hp2 : 0 < 2 ^ s) by (apply Z.pow_pos_nonneg; lia).
  pose proof (Z.mod_pos_bound x (2 ^ s) Hp2) as Hmod.
  assert (Hmodle : x mod 2 ^ s <= x) by (apply Z.mod_le; lia).
  rewrite (sext64_small (x mod 2 ^ s)) by lia.
  rewrite (wrap64_small (Z.of_nat i)) by lia.
  destruct (Hsel (Z.of_nat i) ltac:(lia)) as (p & Ep & Hpu & Hpk).
  rewrite (bindM_eq _ _ _ _ _ Ep).
  assert (p = P i).
  { apply (rank1_inj h1 pU); auto.
    - apply (ubit_true_nonneg _ _ _ Hpu).
    - apply HPbits. eauto.
    - rewrite (Hrank i Hi). exact Hpk. }
  subst p. rewrite (HPx i x Hx).
  replace (Z.shiftr x s + Z.of_nat i - Z.of_nat i) with (Z.shiftr x s) by lia.
  rewrite FS. fold s.
  pose proof (shiftl_shiftr_le x s ltac:(lia) ltac:(lia)).
  rewrite sext64_small by lia. rewrite combine_bits by lia. reflexivity.
Qed.

Lemma forallb_range u (l : list Z) :
  forallb (fun x => (0 <=? x) && (x <=? u)) l = true -> Forall (fun x => 0 <= x <= u) l.
Proof.
  induction l as [|x l IH]; intros H; [constructor|].
  cbn in H. apply andb_true_iff in H as [Hx Hl]. apply andb_true_iff in Hx as [H0 H1].
  constructor; [lia | exact (IH Hl)].
Qed.

(** [eflist_init] with capacity [n] and bound [u], then one [eflist_add]
    per element of [l], in any order of the values, for a quotient
    [(u + 1) / n] below [2^47], where the logarithm the source takes
    through [double] is the integer logarithm: every call returns, [s] is
    [floor (log2 ((u + 1) / n))], the upper array has [n + (u >> s)] bits
    of which exactly those at [(x >> s) + i], for the [i]-th element [x],
    are set, and element [i] of the lower array reads the [s] low bits of
    [x]. *)
Theorem eflist_add_all_layout (l : list Z) n u h0 :
  heap_wf h0 ->
  Z.of_nat (length l) <= n -> 0 < n -> n <= u + 1 -> u < 2 ^ 62 ->
  (u + 1) / n < 2 ^ 47 ->
  forallb (fun x => (0 <=? x) && (x <=? u)) l = true ->
  exists ef h,
    (do '(_, ef) <- eflist_init n u; add_all l ef) h0 = Some (ef, h)
    /\ ef_s ef = Z.log2 ((u + 1) / n)
    /\ ef_bitarraylen ef = n + Z.shiftr u (ef_s ef)
    /\ ba_curr (ef_lower ef) = Z.of_nat (length l)
    /\ (forall p, ubit h (ba_A (ef_upper ef)) p = true <->
                  exists i x, l !! i = Some x /\ p = Z.shiftr x (ef_s ef) + Z.of_nat i)
    /\ (forall i x, l !! i = Some x ->
          bit_array_get (ef_lower ef) (Z.of_nat i) h = Some (x mod 2 ^ ef_s ef, h)).
Proof.
  intros Hwf Hlen Hn Hle Hu _ Hall. apply forallb_range in Hall.
  destruct (init_add_all_holds l n u h0 Hwf Hlen Hn Hle Hu Hall)
    as (ef & h & E & Hh & _ & Fn & Fs & Fl & _).
  destruct Hh as (Hs & Hls & Hus & Hcurr & WU & _ & HU & HL).
  exists ef, h. split; [exact E|]. split; [exact Fs|]. split; [exact Fl|].
  split; [exact Hcurr|]. split; [exact HU|].
  intros i x Hx. destruct (Z.eq_dec (ef_s ef) 0) as [Hz|Hnz].
  - unfold bit_array_get. rewrite Hls, Hz. cbn. rewrite Z.mod_1_r. reflexivity.
  - destruct (HL ltac:(lia)) as (_ & WL & (bL & HbL & HlenL) & HS).
    rewrite <- Hls in *.
    apply (packed_get (ef_lower ef) h l n i x); auto; try lia.
    exists bL. split; [exact HbL|]. rewrite <- Fn. exact HlenL.
Qed.

Lemma eflist_add_all_layout_witness :
  exists ef h,
    (do '(_, ef) <- eflist_init 4 20; add_all [5; 10; 15; 20] ef) heap_empty = Some (ef, h)
    /\ ef_s ef = 2 /\ ef_bitarraylen ef = 9
    /\ ubit h (ba_A (ef_upper ef)) 5 = true
    /\ bit_array_get (ef_lower ef) 2 h = Some (3, h).
Proof.
  destruct (eflist_add_all_layout [5; 10; 15; 20] 4 20 heap_empty)
    as (ef & h & E & Fs & Fl & _ & HU & HLo).
  - split; [reflexivity|]. apply map_Forall_to_list. vm_compute. constructor.
  - cbn. lia.
  - lia.
  - lia.
  - lia.
  - vm_compute. reflexivity.
  - reflexivity.
  - assert (Hs : ef_s ef = 2) by (rewrite Fs; reflexivity).
    exists ef, h. split; [exact E|]. split; [exact Hs|].
    split; [rewrite Fl, Hs; reflexivity|]. split.
    + apply HU. exists 2%nat, 15. rewrite Hs. split; reflexivity.
    + pose proof (HLo 2%nat 15 eq_refl) as H2. rewrite Hs in H2. exact H2.
Defined.

(** A nondecreasing list of [n] values between 0 and [u] whose first block
    of upper bits is narrow is read back element by element, for a
    quotient [(u + 1) / n] below [2^47], where the logarithm the source
    takes through [double] is the integer logarithm: after [eflist_init],
    one [eflist_add] per element and [simple_select_build],
    [eflist_lookup] at index [i] returns the [i]-th element and leaves the
    heap as it is. *)
Theorem eflist_lookup_round_trip (l : list Z) n u spill_var_len h0 :
  heap_wf h0 ->
  Z.of_nat (length l) = n -> 0 < n < 2 ^ 31 -> n <= u + 1 -> u < 2 ^ 61 ->
  (u + 1) / n < 2 ^ 47 ->
  nondecreasing l = true ->
  forallb (fun x => (0 <=? x) && (x <=? u)) l = true ->
  first_block_fits l n u ->
  exists ef1 h1 r ef2 h2,
    (do '(_, ef) <- eflist_init n u; add_all l ef) h0 = Some (ef1, h1)
    /\ simple_select_build ef1 n spill_var_len h1 = Some (r, ef2, h2)
    /\ (r = 0 \/ (r = eflist_spill_too_small /\ spill_var_len = 0))
    /\ forall i x, l !! i = Some x -> eflist_lookup ef2 (Z.of_nat i) h2 = Some (x, h2).
Proof.
  intros Hwf Hlen Hn Hle Hu _ Hsorted Hall Hfits.
  apply lookup_round_trip_spec; auto. apply forallb_range. exact Hall.
Qed.

Lemma eflist_lookup_round_trip_witness :
  exists ef1 h1 r ef2 h2,
    (do '(_, ef) <- eflist_init 36000 575998; add_all offsets_wide_second_block ef) heap_empty
    = Some (ef1, h1)
    /\ simple_select_build ef1 36000 1 h1 = Some (r, ef2, h2)
    /\ eflist_lookup ef2 4100 h2 = Some (509956, h2).
Proof.
  destruct (eflist_lookup_round_trip offsets_wide_second_block 36000 575998 1 heap_empty)
    as (ef1 & h1 & r & ef2 & h2 & E1 & E2 & Hr & Hlk).
  - split; [reflexivity|]. apply map_Forall_to_list. vm_compute. constructor.
  - vm_compute. reflexivity.
  - lia.
  - lia.
  - lia.
  - vm_compute. reflexivity.
  - vm_compute. reflexivity.
  - vm_compute. reflexivity.
  - right. vm_compute. reflexivity.
  - exists ef1, h1, r, ef2, h2. split; [exact E1|]. split; [exact E2|].
    apply (Hlk 4100%nat 509956). vm_compute. reflexivity.
Defined.

(** ** The batch interface *)

Lemma batch_check_sorted (arr : list Z) h n : forall i,
  0 <= i -> (Z.to_nat i + n + 1 <= length arr)%nat \/ n = O ->
  nondecreasing arr = true ->
  batch_check n arr i h = Some (true, h).
Proof.
  induction n as [|n IH]; intros i Hi Hlen Hs; [reflexivity|].
  destruct Hlen as [Hlen|Hz]; [|discriminate].
  destruct (lookup_lt_is_Some_2 arr (Z.to_nat i) ltac:(lia)) as (a & Ha).
  destruct (lookup_lt_is_Some_2 arr (Z.to_nat (i + 1)) ltac:(lia)) as (b & Hb).
  cbn [batch_check].
  rewrite (bindM_eq _ _ _ _ _ (arr_at_Some arr i a h Hi Ha)).
  rewrite (bindM_eq _ _ _ _ _ (arr_at_Some arr (i + 1) b h ltac:(lia) Hb)).
  pose proof (nondecreasing_lookup arr Hs _ _ a b Ha Hb ltac:(lia)) as Hab.
  replace (a <=? b) with true by (symmetry; apply Z.leb_le; exact Hab).
  apply IH; [lia | left; lia | exact Hs].
Qed.

Lemma batch_add_add_all (arr : list Z) n : forall i ef h ef' h',
  0 <= i -> (Z.to_nat i + n = length arr)%nat ->
  ba_curr (ef_lower ef) + Z.of_nat n <= ef_size ef ->
  add_all (drop (Z.to_nat i) arr) ef h = Some (ef', h') ->
  batch_add n arr i ef h = Some (0, ef', h').
Proof.
  induction n as [|n IH]; intros i ef h ef' h' Hi Hlen Hroom Hall.
  - rewrite drop_ge in Hall by lia. cbn in Hall. injection Hall as <- <-. reflexivity.
  - destruct (lookup_lt_is_Some_2 arr (Z.to_nat i) ltac:(lia)) as (x & Hx).
    rewrite (drop_S _ _ _ Hx) in Hall. cbn [add_all] in Hall.
    destruct (bindM_Some _ _ _ _ Hall) as ([r ef1] & h1 & Eadd & Hrest).
    destruct (eflist_add_room ef x h r ef1 h1 ltac:(lia) Eadd) as (-> & Hc & _ & Hsz).
    cbn [batch_add].
    rewrite (bindM_eq _ _ _ _ _ (arr_at_Some arr i x h Hi Hx)).
    rewrite (bindM_eq _ _ _ _ _ Eadd). cbn.
    apply IH; [lia | lia | lia |].
    replace (Z.to_nat (i + 1)) with (S (Z.to_nat i)) by lia. exact Hrest.
Qed.

(** On a nondecreasing array that fits, [eflist_addbatch] returns 0 and
    does what one [eflist_add] per element does. *)
Theorem eflist_addbatch_sorted ef (arr : list Z) h ef' h' :
  nondecreasing arr = true ->
  ba_curr (ef_lower ef) + Z.of_nat (length arr) <= ef_size ef ->
  add_all arr ef h = Some (ef', h') ->
  eflist_addbatch ef arr (Z.of_nat (length arr)) h = Some (0, ef', h').
Proof.
  intros Hs Hroom Hall. unfold eflist_addbatch.
  rewrite (bindM_eq _ _ _ _ _
             (batch_check_sorted arr h (Z.to_nat (Z.of_nat (length arr) - 1)) 0 ltac:(lia)
                ltac:(lia) Hs)).
  rewrite Nat2Z.id. apply batch_add_add_all; auto; lia.
Qed.

Lemma eflist_addbatch_sorted_witness :
  exists ef h ef' h',
    eflist_init 4 20 heap_empty = Some (0, ef, h)
    /\ add_all [5; 10; 15; 20] ef h = Some (ef', h')
    /\ eflist_addbatch ef [5; 10; 15; 20] 4 h = Some (0, ef', h').
Proof.
  destruct (eflist_init 4 20 heap_empty) as [[[r ef] h]|] eqn:E; [|vm_compute in E; discriminate].
  assert (r = 0) by (vm_compute in E; congruence). subst r.
  destruct (add_all [5; 10; 15; 20] ef h) as [[ef' h']|] eqn:E';
    [|vm_compute in E; injection E as <- <-; vm_compute in E'; discriminate].
  exists ef, h, ef', h'. split; [reflexivity|]. split; [exact E'|].
  apply (eflist_addbatch_sorted ef [5; 10; 15; 20] h ef' h').
  - reflexivity.
  - vm_compute in E. injection E as <- <-. cbn. lia.
  - exact E'.
Defined.
